(* ===== verification/_CoqProject ===== *)
-Q . S2P
Prelude.v
GoStrings.v
Proto.v
Cache.v
Store.v
Core.v
Cli.v
System.v
Cluster.v
Provenance.v
Refinement.v
Delivery.v
Concurrency.v
