(* ===== verification/Prelude.v ===== *)
(** * A verification development of the [rtss_config] service of micro

    This development models the configuration service of the repository
    [yuanhack/micro] ([src/service/rtss_config/config.go]) and the coherent
    caching core that the spec of the repository describes, and proves the
    properties that make them correct.

    ** The program and its parts

    - [config.go] is the command-line and wiring layer.  [Run] reads the
      flags, builds a go-micro service, builds a [handler.Config] holding a
      MongoDB backing store and a [go-cache] cache, registers the RPC
      handler and the change-event subscriber and runs the service.
      [setConfig], [getConfig] and [delConfig] are the [set], [get] and
      [del] sub-commands: each calls one RPC ([Update], [Read], [Delete])
      of the [go.micro.rtss_config] service and prints its result or exits
      with status 1.  [Commands] declares the command, its sub-commands and
      its flags.
    - The Config Core ([handler.Config] and [handler.Watcher], in the
      package [service/rtss_config/handler], which is not among the
      sources) serves reads from the local cache with a read-through to the
      backing store, writes through to the store, publishes change events
      and applies received change events to the cache under a
      last-writer-wins rule.  It is modelled from the spec (sections 3, 4
      and 8) and marked [spec_modelled] in the manifest.
    - The local cache is [github.com/patrickmn/go-cache]; the backing store
      is a go-micro [store.Store]; strings are Go's [strings] package.
      They are libraries the sources call: each is modelled at the
      interface the program uses.

    ** The files, in dependency order

    - [Prelude]: this header; the Go error value [go_error] and [result];
      the [prog] monad of a Go process (explicit state passing, the lines
      printed on stdout and logged, the outcome [Cont] or [Exit code] of
      [os.Exit] / [log.Fatal]) as an instance of stdpp's [MRet]/[MBind],
      its laws and the [go_prog] rewrite database used by [go_run].
    - [GoStrings] (Module [GoStrings]): [strings.ToLower] (its ASCII path
      with the no-allocation fast path), [strings.Index] and
      [strings.Contains]; the executable search is proved equivalent to
      its specification by decomposition ([Contains_spec]) and the test of
      line 144 to a case-insensitive search ([Contains_ToLower_spec]).
    - [Proto]: the messages of [proto] as records ([ChangeSet.t],
      [Change.t], the requests and the response), the client interface
      [ConfigService] (a type class over the service's state) and
      [ConfigServiceLaws], the contract the CLI relies on.
    - [Cache] (Module [GoCache], a Section over any countable key type):
      [go-cache]'s [New], [Set], [Get], [Delete] and [DeleteExpired] over a
      [gmap] of items with their expirations, in nanoseconds, and
      [live_eq], the equivalence of caches no later [Get] tells apart,
      with its [Proper] instances for the operations.
    - [Store]: the adapter interface [BackingStore] of spec 6 with its
      laws, and [MemStore], a finite map with an availability flag that
      stands for transient failures; it discharges the laws.
    - [Core] (Module [Core]): the Config Core of spec 4 over any backing
      store (a Section [Context]): [read] (read-through), [update]
      (validate, persist, cache, publish), [delete] (persist, evict,
      publish a tombstone) and [apply_event] (tombstones evict; a value is
      applied when strictly newer).  Theorems: the contract of each
      operation on every branch, idempotence, commutation and
      last-writer-wins of event application, and the two orderings the
      rule gets wrong (equal timestamps, a tombstone overtaken by the
      older value).
    - [Cli] (Module [Cli]): [config.go] itself.  [Globals] is its [var]
      block; [config_flags] its flag table with [parse_flags] the
      resolution of [urfave/cli]; [Run] the bootstrap (lines 41-75) as a
      [prog] over the globals, its fatal line formatted by [Sprintf], a
      model of [fmt.Sprintf] that scans the format for its verbs;
      [Commands] and [add_plugin] lines 204-293;
      [setConfig], [getConfig], [delConfig] (lines 77-202) as [prog]
      programs over any [ConfigService], with their guards [require_args]
      and [require_key]; [get_view] and [get_report] are the decision of
      lines 143-163 on a [Read] answer.  The sub-command theorems are
      proved against [ConfigServiceLaws] only, and the section
      [Simulation] shows that two services related by a simulation are
      indistinguishable through the three sub-commands; the theorems on [Run] and [Commands] show
      which flags are used, which are ignored and what is registered.
    - [System] (Module [System]): one instance: the [World] (store, cache,
      published events, clock), the RPC handlers [handle_update],
      [handle_read], [handle_delete] as the Core's entry points, the
      instance [world_service] of [ConfigService] and the proof that it
      satisfies [ConfigServiceLaws]; a [Deployment] (the name the server
      registered under and the instance behind it) with [dial], the
      client stub that reaches the server only under the name the CLI
      dials; end-to-end theorems on the CLI over a running instance
      (staleness bound, same-second writes, resurrection of a deleted
      value, the blank key [set] sends to the server) and over a
      deployment (a renamed server is unreachable).
    - [Cluster] (Module [Cluster]): several instances over one store as a
      step relation [step] (a CLI command on an instance, the delivery of
      any published event to any instance, a sweep, the passing of time,
      the store going down or up) with [reachable] from [init], the
      instances [Run] starts.  The invariant [cluster_ok] is proved by
      induction on [reachable] from the preservation lemma of each
      operation; from it: no blank path is ever stored or published,
      every cached entry expires within [cache_duration], and after
      [cache_duration] every instance's [get] answers what the store holds;
      and a successful [set] on one instance, once its event is delivered
      to another whose cache holds nothing newer, is what [get] prints
      there.
    - [Provenance] (Module [Provenance]): a second invariant of
      [reachable]: every value in the store and in any cache is the
      change set of some [set] whose event is on the bus.  From it, every
      line a normally returning [get] prints on any instance is a value
      some [set] of that key wrote.
    - [Refinement] (Modules [KV] and [Refinement]): the abstract
      specification, a plain key-value map as a [ConfigService], and the
      refinement of one instance by it: the relation [refines] (the store
      holds the map, is reachable, and every cached entry is the stored
      value) is kept by every handler, which answers as the map does up
      to what [getConfig] makes of the answer ([Cli.get_view]).  With the
      generic simulation lemmas of [Cli] ([setConfig_sim], [getConfig_sim],
      [delConfig_sim]) every session of commands, time steps and sweeps
      prints the same on the instance and on the map.  The refinement
      does not hold of the RPC itself: a [null] payload is answered on a
      cache hit and reported "not found" on a miss.
    - [Delivery] (Module [Delivery]): termination of change-event
      delivery.  With only [set] events on the bus, deliveries that change
      a cache are well founded and at most as many as the events (the
      measure is the number of events that would still win); with the
      tombstone of a [del] next to the value it deleted, delivery can
      cycle for ever.
    - [Concurrency] (Module [Concurrency]): the interleavings of spec 5
      on one instance.  A read is split into its start, its cache lookup
      with the store fetch on a miss ([PStart], [PFetched]) and its cache
      fill; writes, deletes, clock ticks, janitor sweeps and the
      application of a change event are atomic steps; [exec] is one
      labelled step and [run] a schedule, recording each answer beside
      the value the store holds at that moment.  A split read run back to
      back is [Core.read]; a read whose fetch precedes a completed write
      fills the cache with the older value, which later reads answer for
      almost [CacheDuration]; a local write that completes after a newer
      remote event puts the older value back; in every schedule free of
      those races every answer is the store's value, by an invariant on
      the reads in flight; under every schedule the stale value is gone
      once [CacheDuration] has passed with no read in flight; and the
      janitor's sweeps change no answer of any schedule, by a simulation
      up to [GoCache.live_eq], the cache equivalence of [Cache].

    ** Units and bounds

    Times are Go [time.Time] values as nanoseconds in [Z] (the cache and
    the clock), change-set timestamps are [time.Now().Unix()] seconds as
    [config.go] computes them ([Core.unix_seconds]); integers are
    unbounded [Z] because no value of the program comes near 2^63 ns
    (292 years).  The defaults are those of the flag table: a 5-minute
    cache and a 2-minute sweep.  No definition uses fuel: every recursion
    is structural (on strings, lists or the flag table), so every
    definition is total and executes by [vm_compute]; the witnesses run
    the programs on concrete inputs.  Delivery is studied at a fixed
    instant: expiry during a burst of deliveries only removes entries and
    is covered by the [Cluster] theorems.

    ** What is not modelled

    Process bootstrap, the RPC transport and service registry, logging
    back-ends and the concrete MongoDB driver are external collaborators
    (spec section 1) and are not modelled; their observable effects (the
    registered name, the log lines, the exit status, the errors a store
    returns) are.  The janitor's goroutine is modelled by [step_sweep] at
    any time, not at its period.  Go's [strings.ToLower] is modelled on
    its ASCII path: the only use of it in [config.go] is followed by a
    search for the ASCII needle ["not found"], and no non-ASCII rune
    lowers to one of the letters of that needle, so the decision of the
    search is the same.  Inside one instance only [Read] is split into
    steps: [Update] and [Delete] are atomic, as the per-entry atomicity of
    spec 5 makes their cache update; store deadlines (spec 5,
    cancellation) are modelled as the transient failures of [MemStore]. *)

From stdpp Require Export base gmap strings list.
From Stdlib Require Export String Ascii ZArith.

Declare Scope go_scope.
Delimit Scope go_scope with go.

(** ** Go values shared by every component *)

(** A Go [error] value: its dynamic type (which [fmt] prints for an
    argument without a verb) and the text of [err.Error()]. *)
Record go_error := GoError { ErrType : string; Error : string }.

(** The result of an RPC: a response or an error, as in Go's
    [(rsp, err)] pair where exactly one is meaningful. *)
Inductive result (A : Type) :=
| Ok (a : A)
| Err (e : go_error).
Arguments Ok {A} a.
Arguments Err {A} e.

(** ** The Go process monad

    A command of the CLI runs against the state [S] of the service it talks
    to, prints lines on standard output, writes log lines, and either
    returns or calls [os.Exit]. *)

Inductive level := Info | Fatal.

Inductive line :=
| Stdout (s : string)
| Logged (lvl : level) (s : string).

Inductive outcome (A : Type) :=
| Cont (a : A)
| Exit (code : Z).
Arguments Cont {A} a.
Arguments Exit {A} code.

Definition prog (S A : Type) : Type := S -> S * list line * outcome A.

#[export] Instance prog_ret {S} : MRet (prog S) :=
  fun A a s => (s, [], Cont a).

#[export] Instance prog_bind {S} : MBind (prog S) :=
  fun A B f m s =>
    match m s with
    | (s1, o1, Cont a) => let '(s2, o2, r) := f a s1 in (s2, o1 ++ o2, r)
    | (s1, o1, Exit c) => (s1, o1, Exit c)
    end.

Section Primitives.
Context {S : Type}.

(** [fmt.Println(s)] *)
Definition println (s : string) : prog S unit :=
  fun st => (st, [Stdout s], Cont tt).

(** [os.Exit(code)]: the rest of the command never runs. *)
Definition os_exit {A} (code : Z) : prog S A :=
  fun st => (st, [], Exit code).

(** [log.Infof] *)
Definition log_info (s : string) : prog S unit :=
  fun st => (st, [Logged Info s], Cont tt).

(** [log.Fatal]: go-micro's logger writes at fatal level and then calls
    [os.Exit(1)]. *)
Definition log_fatal {A} (s : string) : prog S A :=
  fun st => (st, [Logged Fatal s], Exit 1).

(** A call into the service whose state is [S]. *)
Definition call {A} (f : S -> S * A) : prog S A :=
  fun st => let '(st', a) := f st in (st', [], Cont a).
End Primitives.

(** ** Laws of the monad, pointwise in the state *)

Section Laws.
Context {S : Type}.

Lemma prog_ret_bind {A B} (a : A) (f : A -> prog S B) st :
  (mret a ≫= f) st = f a st.
Proof. cbv [mret mbind prog_ret prog_bind]. by destruct (f a st) as [[? ?] ?]. Qed.

Lemma prog_bind_ret {A} (m : prog S A) st :
  (m ≫= mret) st = m st.
Proof.
  cbv [mret mbind prog_ret prog_bind].
  destruct (m st) as [[? o] []]; by rewrite ?app_nil_r.
Qed.

Lemma prog_bind_assoc {A B C} (m : prog S A) (f : A -> prog S B)
    (g : B -> prog S C) st :
  ((m ≫= f) ≫= g) st = (m ≫= (fun a => f a ≫= g)) st.
Proof.
  cbv [mbind prog_bind].
  destruct (m st) as [[s1 o1] [a|c]]; [|done].
  destruct (f a s1) as [[s2 o2] [b|c]]; [|done].
  destruct (g b s2) as [[s3 o3] r]. by rewrite app_assoc.
Qed.

(** A step that continues passes its state, output and value on. *)
Lemma prog_bind_cont {A B} (m : prog S A) (f : A -> prog S B) st s1 o1 a :
  m st = (s1, o1, Cont a) ->
  (m ≫= f) st = let '(s2, o2, r) := f a s1 in (s2, o1 ++ o2, r).
Proof. intros Hm. cbv [mbind prog_bind]. by rewrite Hm. Qed.

(** A step that exits ends the command. *)
Lemma prog_bind_exit {A B} (m : prog S A) (f : A -> prog S B) st s1 o1 c :
  m st = (s1, o1, Exit c) -> (m ≫= f) st = (s1, o1, Exit c).
Proof. intros Hm. cbv [mbind prog_bind]. by rewrite Hm. Qed.

Lemma println_bind {B} s (f : unit -> prog S B) st :
  (println s ≫= f) st = let '(s2, o2, r) := f tt st in (s2, Stdout s :: o2, r).
Proof. cbv [mbind prog_bind println]. by destruct (f tt st) as [[? ?] ?]. Qed.

Lemma log_info_bind {B} s (f : unit -> prog S B) st :
  (log_info s ≫= f) st =
    let '(s2, o2, r) := f tt st in (s2, Logged Info s :: o2, r).
Proof. cbv [mbind prog_bind log_info]. by destruct (f tt st) as [[? ?] ?]. Qed.

Lemma os_exit_bind {A B} c (f : A -> prog S B) st :
  (os_exit c ≫= f) st = (st, [], Exit c).
Proof. done. Qed.

Lemma log_fatal_bind {A B} s (f : A -> prog S B) st :
  (log_fatal s ≫= f) st = (st, [Logged Fatal s], Exit 1).
Proof. done. Qed.

Lemma call_bind {A B} (g : S -> S * A) (f : A -> prog S B) st :
  (call g ≫= f) st =
    let '(st', a) := g st in
    let '(s2, o2, r) := f a st' in (s2, o2, r).
Proof.
  cbv [mbind prog_bind call]. destruct (g st) as [st' a].
  by destruct (f a st') as [[? ?] ?].
Qed.
End Laws.

Create Rewrite HintDb go_prog.
#[export] Hint Rewrite @prog_ret_bind @prog_bind_assoc @println_bind
  @log_info_bind @os_exit_bind @log_fatal_bind @call_bind : go_prog.

(** [go_run] evaluates a command of the CLI symbolically: it pushes the
    binds through the primitives and leaves the case analysis on the
    service's answers to the caller. *)
Ltac go_run := repeat (autorewrite with go_prog; cbn -[mbind]).

(** ** Generic lemmas on lists *)

(** Filtering by a predicate that implies another keeps no more
    elements, and strictly fewer when it misses one of the other's: the
    measure of the termination arguments. *)
Lemma length_filter_le {A} (P Q : A -> bool) (l : list A) :
  Forall (fun x => Q x = true -> P x = true) l ->
  List.length (List.filter Q l) <= List.length (List.filter P l).
Proof.
  induction 1 as [|x l Hx _ IH]; [done|]. simpl.
  destruct (Q x); [rewrite Hx by done; simpl; lia|]. destruct (P x); simpl; lia.
Qed.

Lemma length_filter_lt {A} (P Q : A -> bool) (l : list A) :
  Forall (fun x => Q x = true -> P x = true) l ->
  Exists (fun x => P x = true /\ Q x = false) l ->
  List.length (List.filter Q l) < List.length (List.filter P l).
Proof.
  intros Himp Hex. induction Hex as [x l [HP HQ]|x l _ IH].
  - apply Forall_cons in Himp as [_ Himp]. simpl. rewrite HP, HQ. simpl.
    pose proof (length_filter_le P Q l Himp). lia.
  - apply Forall_cons in Himp as [Hx Himp]. specialize (IH Himp). simpl.
    destruct (Q x); [rewrite Hx by done; simpl; lia|]. destruct (P x); simpl; lia.
Qed.
