(* ===== verification/GoStrings.v ===== *)
(** * Go's [strings] package, as [config.go] uses it

    [getConfig] classifies an RPC error with
    [strings.Contains(strings.ToLower(err.Error()), "not found")]
    ([src/service/rtss_config/config.go], line 144).  This file models
    [strings.ToLower] on its ASCII path, with the early return of Go's
    code when the string has no upper-case letter, and
    [strings.Index]/[strings.Contains] as the search for the first
    occurrence.  The theorems relate both to their specifications: the
    early return is an optimisation of the byte-wise map, and [Contains]
    holds exactly when the needle occurs in the string. *)

From S2P Require Import Prelude.

Local Open Scope string_scope.

(** stdpp makes [String.append] opaque to [simpl]; the proofs of this
    file compute with it. *)
#[local] Arguments String.append : simpl nomatch.

Module GoStrings.

(** ** Definitions *)

(** ['A' <= c && c <= 'Z'] *)
Definition is_upper (c : ascii) : bool :=
  (65 <=? N_of_ascii c)%N && (N_of_ascii c <=? 90)%N.

(** [c += 'a' - 'A'] for an upper-case letter. *)
Definition lower_byte (c : ascii) : ascii :=
  if is_upper c then ascii_of_N (N_of_ascii c + 32) else c.

(** The scan of Go's [ToLower]: [hasUpper = hasUpper || ('A' <= c && c <= 'Z')]. *)
Fixpoint has_upper (s : string) : bool :=
  match s with
  | EmptyString => false
  | String c s' => is_upper c || has_upper s'
  end.

Fixpoint map_bytes (f : ascii -> ascii) (s : string) : string :=
  match s with
  | EmptyString => EmptyString
  | String c s' => String (f c) (map_bytes f s')
  end.

(** [strings.ToLower] on an ASCII string: [if !hasUpper { return s }],
    otherwise every upper-case byte is lowered. *)
Definition ToLower (s : string) : string :=
  if has_upper s then map_bytes lower_byte s else s.

(** The search of [strings.Index], from offset [i]: the first position at
    which [substr] is a prefix of the rest of [s], or [-1]. *)
Fixpoint index_from (i : Z) (s substr : string) : Z :=
  if String.prefix substr s then i
  else match s with
       | EmptyString => (-1)%Z
       | String _ s' => index_from (i + 1)%Z s' substr
       end.

(** [strings.Index(s, substr)] *)
Definition Index (s substr : string) : Z := index_from 0 s substr.

(** [strings.Contains(s, substr)]: [return Index(s, substr) >= 0]. *)
Definition Contains (s substr : string) : bool := (0 <=? Index s substr)%Z.

(** The double quote, written by its code since a string literal cannot
    hold it here. *)
Definition quote_char : ascii := ascii_of_nat 34.

(** [fmt]'s [%q] of a string without special characters. *)
Definition go_quote (s : string) : string :=
  String quote_char (s ++ String quote_char "").

(** ** Lemmas on strings shared by the development *)

Lemma string_app_assoc (a b c : string) : (a ++ b) ++ c = a ++ (b ++ c).
Proof. induction a as [|x a IH]; simpl; [done|by rewrite IH]. Qed.

Lemma string_app_nil_r (a : string) : a ++ "" = a.
Proof. induction a as [|x a IH]; simpl; [done|by rewrite IH]. Qed.

Lemma string_length_app (a b : string) :
  String.length (a ++ b) = (String.length a + String.length b)%nat.
Proof. induction a as [|x a IH]; simpl; [done|by rewrite IH]. Qed.

Lemma prefix_iff (p s : string) :
  String.prefix p s = true <-> exists post, s = p ++ post.
Proof.
  revert s. induction p as [|c p IH]; intros [|d s]; simpl.
  - split; [by exists ""|done].
  - split; [by exists (String d s)|done].
  - split; [done|by intros [? ?]].
  - destruct (ascii_dec c d) as [->|Hne].
    + rewrite IH. split; intros [post Hpost]; exists post; congruence.
    + split; [done|]. intros [post Hpost]. congruence.
Qed.

Lemma map_bytes_app f (a b : string) :
  map_bytes f (a ++ b) = map_bytes f a ++ map_bytes f b.
Proof. induction a as [|x a IH]; simpl; [done|by rewrite IH]. Qed.

(** A split of the image of [map_bytes] is the image of a split. *)
Lemma map_bytes_app_inv f (s p q : string) :
  map_bytes f s = p ++ q ->
  exists s1 s2, s = s1 ++ s2 /\ map_bytes f s1 = p /\ map_bytes f s2 = q.
Proof.
  revert s. induction p as [|c p IH]; intros s Hs.
  - by exists "", s.
  - destruct s as [|d s]; [done|]. simpl in Hs. injection Hs as Hc Hs.
    destruct (IH s Hs) as (s1 & s2 & -> & H1 & H2).
    exists (String d s1), s2. simpl. by rewrite Hc, H1.
Qed.

Lemma map_bytes_length f (s : string) :
  String.length (map_bytes f s) = String.length s.
Proof. induction s as [|x s IH]; simpl; [done|by rewrite IH]. Qed.

Lemma map_bytes_id f (s : string) :
  (forall c, f c = c) -> map_bytes f s = s.
Proof. intros Hf. induction s as [|x s IH]; simpl; [done|by rewrite Hf, IH]. Qed.

Lemma lower_byte_not_upper c : is_upper c = false -> lower_byte c = c.
Proof. unfold lower_byte. by intros ->. Qed.

(** A lowered byte is no longer upper case. *)
Lemma is_upper_lower_byte c : is_upper (lower_byte c) = false.
Proof.
  unfold lower_byte. destruct (is_upper c) eqn:Hu; [|done].
  unfold is_upper in *. apply andb_prop in Hu as [H1 H2].
  apply N.leb_le in H1, H2.
  rewrite N_ascii_embedding by lia.
  apply andb_false_iff. right. apply N.leb_gt. lia.
Qed.

Lemma has_upper_false_map (s : string) :
  has_upper s = false -> map_bytes lower_byte s = s.
Proof.
  induction s as [|c s IH]; simpl; [done|].
  intros [Hc Hs]%orb_false_iff. by rewrite lower_byte_not_upper, IH.
Qed.

Lemma has_upper_map_lower (s : string) : has_upper (map_bytes lower_byte s) = false.
Proof. induction s as [|c s IH]; simpl; [done|by rewrite is_upper_lower_byte, IH]. Qed.

Lemma prefix_empty_string (sub : string) : String.prefix sub "" = true <-> sub = "".
Proof. rewrite prefix_iff. split; [intros [[|? ?] H]; by destruct sub|intros ->; by exists ""]. Qed.

Lemma occurs_empty (sub : string) :
  (exists pre post, "" = pre ++ sub ++ post) <-> sub = "".
Proof.
  split; [intros (pre & post & H)|intros ->; by exists "", ""].
  destruct pre, sub; simpl in *; congruence.
Qed.

(** An occurrence in [String c s] that is not at the front is an
    occurrence in [s]. *)
Lemma occurs_cons (c : ascii) (s sub : string) :
  String.prefix sub (String c s) = false ->
  (exists pre post, String c s = pre ++ sub ++ post) <->
  (exists pre post, s = pre ++ sub ++ post).
Proof.
  intros Hp. split.
  - intros ([|d pre] & post & H).
    + exfalso. assert (String.prefix sub (String c s) = true) as Ht
        by (apply prefix_iff; by exists post).
      congruence.
    + simpl in H. injection H as -> ->. by exists pre, post.
  - intros (pre & post & ->). by exists (String c pre), post.
Qed.

Lemma index_from_unfold (i : Z) (s sub : string) :
  index_from i s sub =
    if String.prefix sub s then i
    else match s with
         | EmptyString => (-1)%Z
         | String _ s' => index_from (i + 1)%Z s' sub
         end.
Proof. by destruct s. Qed.

(** The search returns [-1] or an offset at least its start. *)
Lemma index_from_range (i : Z) (s sub : string) :
  index_from i s sub = (-1)%Z \/ (i <= index_from i s sub)%Z.
Proof.
  revert i. induction s as [|c s IH]; intros i; rewrite index_from_unfold;
    destruct (String.prefix sub _); try (right; lia).
  - by left.
  - destruct (IH (i + 1)%Z); [by left|right; lia].
Qed.

Lemma index_from_found (i : Z) (s sub : string) :
  (0 <= i)%Z ->
  (0 <= index_from i s sub)%Z <-> exists pre post, s = pre ++ sub ++ post.
Proof.
  revert i. induction s as [|c s IH]; intros i Hi; rewrite index_from_unfold.
  - rewrite occurs_empty, <- prefix_empty_string.
    destruct (String.prefix sub ""); split; done || lia.
  - destruct (String.prefix sub (String c s)) eqn:Hp.
    + split; [intros _|lia]. apply prefix_iff in Hp as [post ->].
      by exists "", post.
    + rewrite occurs_cons by done. apply IH. lia.
Qed.

(** ** Properties *)

(** Go's early return [if !hasUpper { return s }] is an optimisation:
    [ToLower] is the byte-wise lowering of the string. *)
Theorem ToLower_fast_path (s : string) : ToLower s = map_bytes lower_byte s.
Proof.
  unfold ToLower. destruct (has_upper s) eqn:H; [done|].
  by rewrite has_upper_false_map.
Qed.

Lemma ToLower_app (a b : string) : ToLower (a ++ b) = ToLower a ++ ToLower b.
Proof. rewrite !ToLower_fast_path. apply map_bytes_app. Qed.

Lemma ToLower_length (s : string) : String.length (ToLower s) = String.length s.
Proof. rewrite ToLower_fast_path. apply map_bytes_length. Qed.

Lemma ToLower_idempotent (s : string) : ToLower (ToLower s) = ToLower s.
Proof.
  rewrite (ToLower_fast_path s). unfold ToLower.
  by rewrite has_upper_map_lower.
Qed.

(** [Index] returns [-1] or an offset into [s]. *)
Lemma Index_range (s sub : string) : Index s sub = (-1)%Z \/ (0 <= Index s sub)%Z.
Proof. apply index_from_range. Qed.

(** [strings.Contains] holds exactly when the needle occurs in the string. *)
Theorem Contains_spec (s sub : string) :
  Contains s sub = true <-> exists pre post, s = pre ++ sub ++ post.
Proof. unfold Contains. rewrite Z.leb_le. by apply index_from_found. Qed.

(** The search of [Contains(ToLower(s), needle)] for a lower-case needle
    is a case-insensitive search: it holds exactly when some part of [s]
    lowers to the needle. *)
Theorem Contains_ToLower_spec (s needle : string) :
  Contains (ToLower s) needle = true <->
  exists pre mid post, s = pre ++ mid ++ post /\ ToLower mid = needle.
Proof.
  rewrite Contains_spec, !ToLower_fast_path. split.
  - intros (pre & post & Hs).
    destruct (map_bytes_app_inv _ _ _ _ Hs) as (s1 & s23 & -> & H1 & H23).
    destruct (map_bytes_app_inv _ _ _ _ H23) as (s2 & s3 & -> & H2 & H3).
    exists s1, s2, s3. by rewrite ToLower_fast_path.
  - intros (pre & mid & post & -> & Hm). rewrite ToLower_fast_path in Hm.
    exists (map_bytes lower_byte pre), (map_bytes lower_byte post).
    by rewrite !map_bytes_app, Hm.
Qed.

Lemma Contains_app (pre sub post : string) : Contains (pre ++ sub ++ post) sub = true.
Proof. apply Contains_spec. by exists pre, post. Qed.

End GoStrings.
