(* ===== verification/Proto.v ===== *)
(** * The RPC contract of the [go.micro.rtss_config] service

    The messages of [service/rtss_config/proto] (generated code, not among
    the sources) as [config.go] builds and reads them, and the interface
    [ConfigService] of the service: its three calls [Update], [Read] and
    [Delete] on a service state [S].  [ConfigServiceLaws] states what the
    service promises its clients; the CLI ([Cli]) is proved against these
    laws, and the Config Core ([Core]) discharges them. *)

From S2P Require Import Prelude GoStrings.

Local Open Scope string_scope.

(** [proto.ChangeSet]: the encoded value of an entry. *)
Module ChangeSet.
Record t := mk {
  Data : string;
  Format : string;
  Source : string;
  Timestamp : Z
}.
End ChangeSet.

(** [proto.Change]: a namespaced path with its value; the pointer to the
    change set may be [nil]. *)
Module Change.
Record t := mk {
  Namespace : string;
  Path : string;
  ChangeSet : option ChangeSet.t
}.
End Change.

Module UpdateRequest.
Record t := mk { Change : option Change.t }.
End UpdateRequest.

Module ReadRequest.
Record t := mk { Namespace : string; Path : string }.
End ReadRequest.

Module ReadResponse.
Record t := mk { Change : option Change.t }.
End ReadResponse.

Module DeleteRequest.
Record t := mk { Change : option Change.t }.
End DeleteRequest.

(** The client stub [proto.ConfigService]: each call maps the state of the
    service to its new state and the call's result. *)
Class ConfigService (S : Type) := {
  Update : UpdateRequest.t -> S -> S * result unit;
  Read : ReadRequest.t -> S -> S * result ReadResponse.t;
  Delete : DeleteRequest.t -> S -> S * result unit
}.

(** The text of the error that reports an absent entry, as the go-micro
    store reports it ([store.ErrNotFound]). *)
Definition not_found_text : string := "not found".

(** What the service promises a client on one instance (spec section 8):
    a successful [Update] is read back by the next [Read] of the same key
    on that instance; after a successful [Delete] the next [Read] fails
    with an error whose text says "not found"; and a successful [Delete]
    can be repeated. *)
Class ConfigServiceLaws (S : Type) `{ConfigService S} := {
  read_after_update : forall ns path cs s s',
    path <> "" ->
    Update (UpdateRequest.mk (Some (Change.mk ns path (Some cs)))) s = (s', Ok tt) ->
    exists s'', Read (ReadRequest.mk ns path) s' =
      (s'', Ok (ReadResponse.mk (Some (Change.mk ns path (Some cs)))));
  read_after_delete : forall ns path s s',
    Delete (DeleteRequest.mk (Some (Change.mk ns path None))) s = (s', Ok tt) ->
    exists s'' e, Read (ReadRequest.mk ns path) s' = (s'', Err e) /\
      GoStrings.Contains (GoStrings.ToLower (Error e)) not_found_text = true;
  delete_after_delete : forall ns path s s',
    Delete (DeleteRequest.mk (Some (Change.mk ns path None))) s = (s', Ok tt) ->
    exists s'', Delete (DeleteRequest.mk (Some (Change.mk ns path None))) s' = (s'', Ok tt)
}.
