(* ===== verification/Cache.v ===== *)
(** * The local cache: [github.com/patrickmn/go-cache]

    [Run] builds the handler's cache with
    [cache.New(CacheDuration, CacheCleanupInterval)] ([config.go], line 56).
    This file models the part of go-cache the service uses: [New], [Set]
    with the default expiration, [Get], [Delete] and the janitor's
    [DeleteExpired].  Times are Go's [time.Now().UnixNano()] and durations
    are [time.Duration] nanoseconds, both as [Z]; an item's [Expiration] is
    [0] when it never expires.  The cache is generic in its key and value
    types, as a Section over them.

    The theorems give [Get] after each operation, show that the janitor is
    unobservable through [Get], and bound the life of an item by the
    default expiration.  [live_eq now] relates caches that no [Get] at
    [now] or later tells apart; it is an equivalence, [Set], [Delete] and
    [Get] respect it, and a sweep at [now] stays in its class. *)

From S2P Require Import Prelude.

Module GoCache.

Section GoCache.
Context {K V : Type} `{Countable K}.

(** [type Item struct { Object interface{}; Expiration int64 }] *)
Record Item := mkItem { Object : V; Expiration : Z }.

(** [type cache struct { defaultExpiration; items; janitor }] *)
Record Cache := mkCache {
  defaultExpiration : Z;
  janitorInterval : Z;
  items : gmap K Item
}.

Definition NoExpiration : Z := -1.
Definition DefaultExpiration : Z := 0.

(** [New(defaultExpiration, cleanupInterval)]: [newCache] turns a zero
    default into [NoExpiration]; the janitor runs every
    [cleanupInterval] when it is positive. *)
Definition New (de ci : Z) : Cache :=
  mkCache (if (de =? 0)%Z then NoExpiration else de) ci ∅.

(** [Item.Expired]: [item.Expiration > 0 && now > item.Expiration]. *)
Definition expired (now : Z) (it : Item) : bool :=
  (0 <? Expiration it)%Z && (Expiration it <? now)%Z.

(** The expiration [Set] computes: [if d == DefaultExpiration { d =
    c.defaultExpiration }; if d > 0 { e = now + d }]. *)
Definition expiration_of (now d : Z) (c : Cache) : Z :=
  let d := if (d =? DefaultExpiration)%Z then defaultExpiration c else d in
  if (0 <? d)%Z then (now + d)%Z else 0%Z.

(** [c.Set(k, x, d)] *)
Definition Set_ (now : Z) (k : K) (x : V) (d : Z) (c : Cache) : Cache :=
  mkCache (defaultExpiration c) (janitorInterval c)
    (<[k := mkItem x (expiration_of now d c)]> (items c)).

(** [c.Get(k)]: a missing or expired item is a miss. *)
Definition Get (now : Z) (k : K) (c : Cache) : option V :=
  match items c !! k with
  | None => None
  | Some it => if expired now it then None else Some (Object it)
  end.

(** [c.Delete(k)] *)
Definition Delete (k : K) (c : Cache) : Cache :=
  mkCache (defaultExpiration c) (janitorInterval c) (delete k (items c)).

(** [c.DeleteExpired()], the janitor's sweep. *)
Definition DeleteExpired (now : Z) (c : Cache) : Cache :=
  mkCache (defaultExpiration c) (janitorInterval c)
    (filter (fun kv => expired now kv.2 = false) (items c)).

(** Two caches that no [Get] at [now] or later can tell apart: the
    observational equivalence of the cache, coarser than equality since
    the janitor removes expired items that [Get] already ignores. *)
Definition live_eq (now : Z) (c1 c2 : Cache) : Prop :=
  defaultExpiration c1 = defaultExpiration c2 /\
  forall now' k, (now <= now')%Z -> Get now' k c1 = Get now' k c2.

(** ** Lemmas *)

Lemma Get_Set_eq now now' k x d c :
  Get now' k (Set_ now k x d c) =
    if expired now' (mkItem x (expiration_of now d c)) then None else Some x.
Proof. unfold Get, Set_. simpl. by rewrite lookup_insert_eq. Qed.

Lemma Get_Set_ne now now' k k' x d c :
  k <> k' -> Get now' k' (Set_ now k x d c) = Get now' k' c.
Proof. intros Hne. unfold Get, Set_. simpl. by rewrite lookup_insert_ne. Qed.

Lemma Get_Delete_eq now k c : Get now k (Delete k c) = None.
Proof. unfold Get, Delete. simpl. by rewrite lookup_delete_eq. Qed.

Lemma Get_Delete_ne now k k' c :
  k <> k' -> Get now k' (Delete k c) = Get now k' c.
Proof. intros Hne. unfold Get, Delete. simpl. by rewrite lookup_delete_ne. Qed.

(** An item expired at [now] stays expired. *)
Lemma expired_mono now now' it :
  (now <= now')%Z -> expired now it = true -> expired now' it = true.
Proof.
  unfold expired. intros Hle [H1 H2]%andb_prop.
  apply Z.ltb_lt in H2. rewrite H1. simpl. apply Z.ltb_lt. lia.
Qed.

Lemma expiration_of_cases now d c :
  expiration_of now d c = 0%Z \/ (now < expiration_of now d c)%Z.
Proof.
  unfold expiration_of.
  destruct (_ =? _)%Z; [destruct (Z.ltb_spec 0 (defaultExpiration c))
                       |destruct (Z.ltb_spec 0 d)]; lia.
Qed.

(** An item set at [now] is not expired at [now]. *)
Lemma expiration_of_fresh now d c x :
  expired now (mkItem x (expiration_of now d c)) = false.
Proof.
  unfold expired. simpl.
  destruct (expiration_of_cases now d c) as [->|Hlt]; [done|].
  destruct (Z.ltb_spec (expiration_of now d c) now); [lia|].
  apply andb_false_r.
Qed.

(** With a positive default, [Set] with [DefaultExpiration] expires the
    item [defaultExpiration] nanoseconds later. *)
Lemma expiration_of_default now c :
  (0 < defaultExpiration c)%Z ->
  expiration_of now DefaultExpiration c = (now + defaultExpiration c)%Z.
Proof.
  intros Hd. unfold expiration_of. simpl.
  by destruct (Z.ltb_spec 0 (defaultExpiration c)); [|lia].
Qed.

Lemma Get_Some now k c v :
  Get now k c = Some v <->
  exists it, items c !! k = Some it /\ expired now it = false /\ Object it = v.
Proof.
  unfold Get. split.
  - destruct (items c !! k) as [it|]; [|done].
    destruct (expired now it) eqn:E; [done|]. intros [= <-]. by exists it.
  - by intros (it & -> & -> & <-).
Qed.

(** ** Properties of the cache *)

(** A value just set is read back at the same instant. *)
Theorem Get_Set_now now k x d c : Get now k (Set_ now k x d c) = Some x.
Proof. by rewrite Get_Set_eq, expiration_of_fresh. Qed.

(** An item that [Get] still sees at a later time was seen before. *)
Lemma Get_earlier now now' k c v :
  (now <= now')%Z -> Get now' k c = Some v -> Get now k c = Some v.
Proof.
  intros Hle (it & Hit & Hexp & <-)%Get_Some. apply Get_Some.
  exists it. split_and!; [done| |done].
  destruct (expired now it) eqn:E; [|done].
  by rewrite (expired_mono now now') in Hexp.
Qed.

(** The janitor is unobservable: after [DeleteExpired] at [now], every
    [Get] at [now] or later answers as before. *)
Theorem Get_DeleteExpired now now' k c :
  (now <= now')%Z -> Get now' k (DeleteExpired now c) = Get now' k c.
Proof.
  intros Hle. unfold Get, DeleteExpired. simpl.
  rewrite map_lookup_filter.
  destruct (items c !! k) as [it|]; simpl; [|done].
  case_guard as Hg; simpl; [done|].
  destruct (expired now it) eqn:E; [|done].
  by rewrite (expired_mono now now').
Qed.

(** With a positive default expiration, a value set at a time [now]
    after the epoch is gone once [defaultExpiration] has elapsed: a
    later [Get] misses.  (An expiration that is not positive means
    "never" to go-cache, hence the bound on [now].) *)
Theorem Get_Set_expires now now' k x c :
  (0 <= now)%Z -> (0 < defaultExpiration c)%Z ->
  (now + defaultExpiration c < now')%Z ->
  Get now' k (Set_ now k x DefaultExpiration c) = None.
Proof.
  intros Hnow Hd Hlt. rewrite Get_Set_eq, expiration_of_default by done.
  unfold expired. simpl.
  destruct (Z.ltb_spec 0 (now + defaultExpiration c)); [|lia].
  by destruct (Z.ltb_spec (now + defaultExpiration c) now'); [|lia].
Qed.

(** Until then, it is still served. *)
Lemma Get_Set_live now now' k x c :
  (0 < defaultExpiration c)%Z -> (now' <= now + defaultExpiration c)%Z ->
  Get now' k (Set_ now k x DefaultExpiration c) = Some x.
Proof.
  intros Hd Hle. rewrite Get_Set_eq, expiration_of_default by done.
  unfold expired. simpl.
  by destruct (Z.ltb_spec (now + defaultExpiration c) now'); [lia|rewrite andb_false_r].
Qed.

Lemma defaultExpiration_Set now k x d c :
  defaultExpiration (Set_ now k x d c) = defaultExpiration c.
Proof. done. Qed.

(** [New] starts empty. *)
Lemma Get_New now k de ci : Get now k (New de ci) = None.
Proof. done. Qed.

(** ** The observational equivalence *)

#[export] Instance live_eq_equiv now : Equivalence (live_eq now).
Proof.
  split.
  - done.
  - intros c1 c2 [Hd Hg]. split; [done|]. intros. by rewrite Hg.
  - intros c1 c2 c3 [Hd1 Hg1] [Hd2 Hg2]. split; [congruence|]. intros. by rewrite Hg1, Hg2.
Qed.

#[export] Instance Get_live_eq now k : Proper (live_eq now ==> eq) (Get now k).
Proof. intros c1 c2 [_ Hg]. by apply Hg. Qed.

#[export] Instance Set_live_eq now k x d : Proper (live_eq now ==> live_eq now) (Set_ now k x d).
Proof.
  intros c1 c2 [Hd Hg]. split; [done|]. intros now' k' Hle.
  destruct (decide (k = k')) as [<-|Hne].
  - rewrite !Get_Set_eq. unfold expiration_of. by rewrite Hd.
  - rewrite !Get_Set_ne by done. by apply Hg.
Qed.

#[export] Instance Delete_live_eq now k : Proper (live_eq now ==> live_eq now) (Delete k).
Proof.
  intros c1 c2 [Hd Hg]. split; [done|]. intros now' k' Hle.
  destruct (decide (k = k')) as [<-|Hne].
  - by rewrite !Get_Delete_eq.
  - rewrite !Get_Delete_ne by done. by apply Hg.
Qed.

(** The janitor's sweep at [now] is invisible from [now] on. *)
Lemma DeleteExpired_live_eq now c : live_eq now (DeleteExpired now c) c.
Proof. split; [done|]. intros. by apply Get_DeleteExpired. Qed.

Lemma live_eq_later now now' c1 c2 : (now <= now')%Z -> live_eq now c1 c2 -> live_eq now' c1 c2.
Proof. intros Hle [Hd Hg]. split; [done|]. intros. apply Hg. lia. Qed.

End GoCache.

End GoCache.
