(* ===== verification/Store.v ===== *)
(** * The backing store adapter

    [Run] builds the handler's store with [mongo.NewStore] over the
    [mgo_url], [mgo_database] and [mgo_table] flags ([config.go],
    lines 58-63).  The Config Core sees it through the adapter interface of
    the spec (section 6): [Get], [Put] and [Delete], each of which may fail
    with an error distinct from "absent".  [BackingStore] is that
    interface, [BackingStoreLaws] what the core relies on, and [MemStore]
    an implementation by a finite map with an availability flag that
    models the transient failures of the network store. *)

From S2P Require Import Prelude.

Local Open Scope string_scope.

(** The adapter: [Get] answers [Ok None] for an absent key. *)
Class BackingStore (St K V : Type) := {
  store_get : K -> St -> result (option V);
  store_put : K -> V -> St -> result St;
  store_delete : K -> St -> result St
}.

(** The laws the Config Core relies on.  A write that succeeded is read
    back, other keys are untouched, and a delete is idempotent. *)
Class BackingStoreLaws (St K V : Type) `{BackingStore St K V} := {
  get_put_eq : forall k v s s',
    store_put k v s = Ok s' -> store_get k s' = Ok (Some v);
  get_put_ne : forall k k' v s s',
    k <> k' -> store_put k v s = Ok s' -> store_get k' s' = store_get k' s;
  get_delete_eq : forall k s s',
    store_delete k s = Ok s' -> store_get k s' = Ok None;
  get_delete_ne : forall k k' s s',
    k <> k' -> store_delete k s = Ok s' -> store_get k' s' = store_get k' s;
  delete_delete : forall k s s',
    store_delete k s = Ok s' -> store_delete k s' = Ok s'
}.

Module MemStore.

(** The text of the error a store call returns when the store cannot be
    reached. *)
Definition unavailable : go_error := GoError "*errors.errorString" "store: unavailable".

Section MemStore.
Context {K V : Type} `{Countable K}.

Record t := mk { records : gmap K V; available : bool }.

Definition get (k : K) (s : t) : result (option V) :=
  if available s then Ok (records s !! k) else Err unavailable.

Definition put (k : K) (v : V) (s : t) : result t :=
  if available s then Ok (mk (<[k := v]> (records s)) true) else Err unavailable.

Definition del (k : K) (s : t) : result t :=
  if available s then Ok (mk (delete k (records s)) true) else Err unavailable.

(** The environment takes the store down or brings it back. *)
Definition set_available (b : bool) (s : t) : t := mk (records s) b.

#[export] Instance mem_backing_store : BackingStore t K V := {
  store_get := get;
  store_put := put;
  store_delete := del
}.

#[export] Instance mem_backing_store_laws : BackingStoreLaws t K V.
Proof.
  split; cbn; unfold get, put, del;
    intros *; try intros Hne; destruct (available _); intros; simplify_eq; cbn.
  - by rewrite lookup_insert_eq.
  - by rewrite lookup_insert_ne.
  - by rewrite lookup_delete_eq.
  - by rewrite lookup_delete_ne.
  - by rewrite delete_delete_eq.
Qed.

(** What a successful call did to the records. *)
Lemma get_records (k : K) (r : option V) (s : t) : get k s = Ok r -> records s !! k = r.
Proof. unfold get. by destruct (available s); intros [= ->]. Qed.

Lemma put_records (k : K) (v : V) (s s' : t) :
  put k v s = Ok s' -> records s' = <[k := v]> (records s).
Proof. unfold put. destruct (available s); [|done]. by intros [= <-]. Qed.

Lemma del_records (k : K) (s s' : t) : del k s = Ok s' -> records s' = delete k (records s).
Proof. unfold del. destruct (available s); [|done]. by intros [= <-]. Qed.
End MemStore.

End MemStore.
