(* ===== verification/Core.v ===== *)
(** * The Config Core: [handler.Config] and [handler.Watcher]

    The handler package of the service is not among the sources; this file
    models it from the spec (sections 3 and 4).  A [Key] is the composite
    key (namespace, path); an [Event] is a change event (a value or a
    tombstone, with its origin timestamp).  The operations are functions of
    the shared backing store (any [BackingStore], a Section variable), the
    instance's local cache ([GoCache.Cache]) and the clock [now] in
    nanoseconds:
    - [read] (spec 4.1) returns the new cache and the value or an error;
      its type shows that it never changes the store;
    - [update] (4.2) and [delete] (4.3) return the new store, the new
      cache, the events to publish and the result;
    - [apply_event] (4.4) returns the new cache only: an inbound event
      never reaches the store.
    Errors are the spec's taxonomy (section 7): validation, not found and
    transient. *)

From S2P Require Import Prelude GoStrings Proto Cache Store.

Local Open Scope string_scope.

Module Core.

(** ** Data *)

(** The composite key (namespace, path). *)
Definition Key : Type := string * string.

(** The well-known partition a key falls into when no namespace is given. *)
Definition GlobalNamespace : string := "global".

Definition key_of (ns path : string) : Key :=
  (if String.eqb ns "" then GlobalNamespace else ns, path).

(** A key with an empty path is invalid. *)
Definition valid_key (k : Key) : bool := negb (String.eqb k.2 "").

(** A change event: [ev_value] is [None] for a tombstone. *)
Record Event := mkEvent {
  ev_key : Key;
  ev_value : option ChangeSet.t;
  ev_ts : Z
}.

Inductive core_error :=
| ErrValidation
| ErrNotFound
| ErrTransient (e : go_error).

(** The error a client receives for each kind. *)
Definition to_go_error (e : core_error) : go_error :=
  match e with
  | ErrValidation => GoError "*errors.Error" "config: invalid key: path cannot be blank"
  | ErrNotFound => GoError "*errors.errorString" not_found_text
  | ErrTransient e => e
  end.

(** An explicit null (spec 4.1 step 3, 9): an empty payload or the literal
    [null]. *)
Definition is_null_payload (cs : ChangeSet.t) : bool :=
  String.eqb (ChangeSet.Data cs) "" || String.eqb (ChangeSet.Data cs) "null".

(** Seconds of a [UnixNano] time, the unit of event timestamps. *)
Definition unix_seconds (now : Z) : Z := (now / 1000000000)%Z.

Abbreviation Cache := (GoCache.Cache (K:=Key) (V:=ChangeSet.t)).

Section CoreOps.
Context {St : Type} `{BackingStore St Key ChangeSet.t}.

(** ** Read (spec 4.1) *)
Definition read (now : Z) (k : Key) (st : St) (c : Cache)
    : Cache * (ChangeSet.t + core_error) :=
  if negb (valid_key k) then (c, inr ErrValidation) else
  match GoCache.Get now k c with
  | Some cs => (c, inl cs)
  | None =>
      match store_get k st with
      | Err e => (c, inr (ErrTransient e))
      | Ok None => (c, inr ErrNotFound)
      | Ok (Some cs) =>
          if is_null_payload cs then (c, inr ErrNotFound)
          else (GoCache.Set_ now k cs GoCache.DefaultExpiration c, inl cs)
      end
  end.

(** ** Write (spec 4.2): validate, persist, update the cache, publish. *)
Definition update (now : Z) (k : Key) (cs : ChangeSet.t) (st : St) (c : Cache)
    : St * Cache * list Event * (unit + core_error) :=
  if negb (valid_key k) then (st, c, [], inr ErrValidation) else
  match store_put k cs st with
  | Err e => (st, c, [], inr (ErrTransient e))
  | Ok st' =>
      (st', GoCache.Set_ now k cs GoCache.DefaultExpiration c,
       [mkEvent k (Some cs) (ChangeSet.Timestamp cs)], inl tt)
  end.

(** ** Delete (spec 4.3): the cache is evicted and a tombstone published
    only when the store delete succeeded. *)
Definition delete (now : Z) (k : Key) (st : St) (c : Cache)
    : St * Cache * list Event * (unit + core_error) :=
  if negb (valid_key k) then (st, c, [], inr ErrValidation) else
  match store_delete k st with
  | Err e => (st, c, [], inr (ErrTransient e))
  | Ok st' =>
      (st', GoCache.Delete k c, [mkEvent k None (unix_seconds now)], inl tt)
  end.
End CoreOps.

(** ** Apply a received change event (spec 4.4) *)

(** A tombstone evicts unconditionally; a value is applied only when its
    timestamp is strictly newer than the cached value's, or nothing is
    cached. *)
Definition apply_event (now : Z) (ev : Event) (c : Cache) : Cache :=
  match ev_value ev with
  | None => GoCache.Delete (ev_key ev) c
  | Some cs =>
      match GoCache.Get now (ev_key ev) c with
      | Some cur =>
          if (ChangeSet.Timestamp cur <? ev_ts ev)%Z
          then GoCache.Set_ now (ev_key ev) cs GoCache.DefaultExpiration c
          else c
      | None => GoCache.Set_ now (ev_key ev) cs GoCache.DefaultExpiration c
      end
  end.

(** An event as [update] publishes it: its timestamp is its value's. *)
Definition wf_event (ev : Event) : Prop :=
  match ev_value ev with
  | Some cs => ev_ts ev = ChangeSet.Timestamp cs
  | None => True
  end.


(** Whether a value event for [k] with timestamp [ts] wins over the cache. *)
Definition newer (now : Z) (k : Key) (ts : Z) (c : Cache) : bool :=
  match GoCache.Get now k c with
  | Some cur => (ChangeSet.Timestamp cur <? ts)%Z
  | None => true
  end.

(** ** Lemmas on keys and on the cache operations the core composes *)

Lemma valid_key_true (k : Key) : valid_key k = true <-> k.2 <> "".
Proof. unfold valid_key. rewrite negb_true_iff, String.eqb_neq. done. Qed.

Lemma valid_key_false (k : Key) : valid_key k = false <-> k.2 = "".
Proof. unfold valid_key. rewrite negb_false_iff, String.eqb_eq. done. Qed.

Lemma valid_key_of (ns path : string) : path <> "" -> valid_key (key_of ns path) = true.
Proof. intros Hp. by apply valid_key_true. Qed.

Lemma Set_Set_eq (now : Z) (k : Key) (x y : ChangeSet.t) (d d' : Z) (c : Cache) :
  GoCache.Set_ now k x d (GoCache.Set_ now k y d' c) = GoCache.Set_ now k x d c.
Proof. unfold GoCache.Set_. simpl. by rewrite insert_insert_eq. Qed.

Lemma Set_Set_ne (now : Z) (k k' : Key) (x y : ChangeSet.t) (d d' : Z) (c : Cache) :
  k <> k' ->
  GoCache.Set_ now k x d (GoCache.Set_ now k' y d' c) =
  GoCache.Set_ now k' y d' (GoCache.Set_ now k x d c).
Proof. intros Hne. unfold GoCache.Set_. simpl. by rewrite insert_insert_ne. Qed.

Lemma Delete_Delete (k : Key) (c : Cache) : GoCache.Delete k (GoCache.Delete k c) = GoCache.Delete k c.
Proof. unfold GoCache.Delete. simpl. by rewrite delete_delete_eq. Qed.

Lemma apply_value (now : Z) (k : Key) (cs : ChangeSet.t) (ts : Z) (c : Cache) :
  apply_event now (mkEvent k (Some cs) ts) c =
    if newer now k ts c then GoCache.Set_ now k cs GoCache.DefaultExpiration c else c.
Proof. unfold apply_event, newer. simpl. by destruct (GoCache.Get now k c). Qed.

Lemma apply_value_fresh (now : Z) (k : Key) (cs : ChangeSet.t) (ts : Z) (c : Cache) :
  GoCache.Get now k c = None ->
  apply_event now (mkEvent k (Some cs) ts) c = GoCache.Set_ now k cs GoCache.DefaultExpiration c.
Proof. intros Hc. unfold apply_event. simpl. by rewrite Hc. Qed.

(** A value event that ties with the cached value is dropped. *)
Lemma apply_value_tie (now : Z) (k : Key) (cs cs' : ChangeSet.t) (ts : Z) (c : Cache) :
  ChangeSet.Timestamp cs = ts ->
  apply_event now (mkEvent k (Some cs') ts) (GoCache.Set_ now k cs GoCache.DefaultExpiration c) =
    GoCache.Set_ now k cs GoCache.DefaultExpiration c.
Proof.
  intros <-. unfold apply_event. simpl. rewrite GoCache.Get_Set_now.
  by rewrite Z.ltb_irrefl.
Qed.

Lemma newer_Set_eq (now : Z) (k : Key) (cs : ChangeSet.t) (ts : Z) (c : Cache) :
  newer now k ts (GoCache.Set_ now k cs GoCache.DefaultExpiration c) =
    (ChangeSet.Timestamp cs <? ts)%Z.
Proof. unfold newer. by rewrite GoCache.Get_Set_now. Qed.

Lemma newer_Set_ne (now : Z) (k k' : Key) (cs : ChangeSet.t) (ts : Z) (c : Cache) :
  k <> k' ->
  newer now k' ts (GoCache.Set_ now k cs GoCache.DefaultExpiration c) = newer now k' ts c.
Proof. intros Hne. unfold newer. by rewrite GoCache.Get_Set_ne. Qed.

(** A value that wins over the cache at [ts1] also wins at any later [ts2]. *)
Lemma newer_mono (now : Z) (k : Key) (ts1 ts2 : Z) (c : Cache) :
  (ts1 <= ts2)%Z -> newer now k ts1 c = true -> newer now k ts2 c = true.
Proof.
  unfold newer. destruct (GoCache.Get now k c); [|done].
  intros ? ?%Z.ltb_lt. apply Z.ltb_lt. lia.
Qed.

Lemma Get_apply_tombstone (now now' : Z) (k : Key) (ts : Z) (c : Cache) :
  GoCache.Get now' k (apply_event now (mkEvent k None ts) c) = None.
Proof. apply GoCache.Get_Delete_eq. Qed.

(** ** The effects of each operation, by cases *)

Section CoreCases.
Context {St : Type} `{BackingStore St Key ChangeSet.t}.

Lemma update_cases (now : Z) (k : Key) (cs : ChangeSet.t) (st st' : St) (c c' : Cache)
    (evs : list Event) (r : unit + core_error) :
  update now k cs st c = (st', c', evs, r) ->
  (st' = st /\ c' = c /\ evs = []) \/
  (store_put k cs st = Ok st' /\ c' = GoCache.Set_ now k cs GoCache.DefaultExpiration c /\
   evs = [mkEvent k (Some cs) (ChangeSet.Timestamp cs)]).
Proof.
  unfold update. destruct (negb _); [intros [= <- <- <- _]; by left|].
  destruct (store_put k cs st) eqn:Hp; intros [= <- <- <- _]; [by right|by left].
Qed.

Lemma delete_cases (now : Z) (k : Key) (st st' : St) (c c' : Cache)
    (evs : list Event) (r : unit + core_error) :
  delete now k st c = (st', c', evs, r) ->
  (st' = st /\ c' = c /\ evs = []) \/
  (store_delete k st = Ok st' /\ c' = GoCache.Delete k c /\
   evs = [mkEvent k None (unix_seconds now)]).
Proof.
  unfold delete. destruct (negb _); [intros [= <- <- <- _]; by left|].
  destruct (store_delete k st) eqn:Hp; intros [= <- <- <- _]; [by right|by left].
Qed.

(** A read keeps the cache or caches what the store holds; what it
    answers comes from the cache or from the store. *)
Lemma read_cases (now : Z) (k : Key) (st : St) (c c' : Cache) (r : ChangeSet.t + core_error) :
  read now k st c = (c', r) ->
  (c' = c \/ exists cs, store_get k st = Ok (Some cs) /\
                        c' = GoCache.Set_ now k cs GoCache.DefaultExpiration c) /\
  (forall cs, r = inl cs -> GoCache.Get now k c = Some cs \/ store_get k st = Ok (Some cs)).
Proof.
  unfold read. destruct (negb _); [by intros [= <- <-]; split; [left|]|].
  destruct (GoCache.Get now k c) as [cs|] eqn:Hg; [intros [= <- <-]; split; [by left|]; intros ? [= <-]; by left|].
  destruct (store_get k st) as [[cs|]|e] eqn:Hs; [|by intros [= <- <-]; split; [left|]..].
  destruct (is_null_payload cs); [by intros [= <- <-]; split; [left|]|].
  intros [= <- <-]. split; [right; by exists cs|]. intros ? [= <-]. by right.
Qed.
End CoreCases.

(** ** Properties of the handler operations *)

Section CoreProps.
Context {St : Type} `{BackingStoreLaws St Key ChangeSet.t}.

(** A write that fails has no effect: the store, the cache and the
    channel are untouched, and the error is a validation error for an
    empty path or the store's own error (spec 4.2 step 2, section 7). *)
Theorem update_failure_no_effect now k cs st c st' c' evs e :
  update now k cs st c = (st', c', evs, inr e) ->
  st' = st /\ c' = c /\ evs = [] /\
  ((e = ErrValidation /\ k.2 = "") \/
   (exists ge, e = ErrTransient ge /\ store_put k cs st = Err ge)).
Proof.
  unfold update. destruct (valid_key k) eqn:Hk; simpl.
  - destruct (store_put k cs st) as [st1|ge] eqn:Hp; [done|].
    intros [= <- <- <- <-]. split_and!; [done..|]. right. by exists ge.
  - intros [= <- <- <- <-]. split_and!; [done..|]. left.
    split; [done|]. by apply valid_key_false.
Qed.

(** A write that succeeds was made durable before it was published: the
    store holds the value, the local cache serves it at once, and
    exactly one change event carrying it is published (spec 4.2). *)
Theorem update_success now k cs st c st' c' evs :
  update now k cs st c = (st', c', evs, inl tt) ->
  k.2 <> "" /\ store_get k st' = Ok (Some cs) /\
  GoCache.Get now k c' = Some cs /\
  evs = [mkEvent k (Some cs) (ChangeSet.Timestamp cs)].
Proof.
  unfold update. destruct (valid_key k) eqn:Hk; simpl; [|done].
  destruct (store_put k cs st) as [st1|ge] eqn:Hp; [|done].
  intros [= <- <- <-]. split_and!.
  - by apply valid_key_true.
  - by eapply get_put_eq.
  - apply GoCache.Get_Set_now.
  - done.
Qed.

(** Read-after-write on one instance (spec 8): the next read returns the
    written value from the cache, whatever the store then holds and
    without the notification channel. *)
Theorem read_after_update now k cs st c st' c' evs st'' :
  update now k cs st c = (st', c', evs, inl tt) ->
  read now k st'' c' = (c', inl cs).
Proof.
  intros (Hk & _ & Hget & _)%update_success. unfold read.
  apply valid_key_true in Hk. by rewrite Hk, Hget.
Qed.

(** The error kinds of a read are distinct (spec 4.1, 7): "not found"
    means the store answered that the entry is absent or null, and a
    transient failure is the store's error. *)
Theorem read_error_kinds now k st c c' e :
  read now k st c = (c', inr e) ->
  c' = c /\
  match e with
  | ErrValidation => k.2 = ""
  | ErrNotFound => GoCache.Get now k c = None /\
      (store_get k st = Ok None \/
       exists cs, store_get k st = Ok (Some cs) /\ is_null_payload cs = true)
  | ErrTransient ge => GoCache.Get now k c = None /\ store_get k st = Err ge
  end.
Proof.
  unfold read. destruct (valid_key k) eqn:Hk; simpl.
  - destruct (GoCache.Get now k c) eqn:Hc; [done|].
    destruct (store_get k st) as [[cs|]|ge] eqn:Hs.
    + destruct (is_null_payload cs) eqn:Hn; [|done].
      intros [= <- <-]. split_and!; [done..|]. right. by exists cs.
    + intros [= <- <-]. by split_and!; [..|left].
    + by intros [= <- <-].
  - intros [= <- <-]. split; [done|]. by apply valid_key_false.
Qed.

(** Not found after delete (spec 8): once a delete succeeded, the next
    read on that instance reports "not found", not an error. *)
Theorem read_after_delete now now' k st c st' c' evs :
  delete now k st c = (st', c', evs, inl tt) ->
  read now' k st' c' = (c', inr ErrNotFound).
Proof.
  unfold delete, read. destruct (valid_key k) eqn:Hk; simpl; [|done].
  destruct (store_delete k st) as [st1|ge] eqn:Hd; [|done].
  intros [= <- <- _]. rewrite GoCache.Get_Delete_eq.
  by rewrite (get_delete_eq k st st1 Hd).
Qed.

(** Delete is idempotent (spec 4.3, 8): a delete that succeeded can be
    repeated, with the same store and cache. *)
Theorem delete_idempotent now now' k st c st' c' evs :
  delete now k st c = (st', c', evs, inl tt) ->
  delete now' k st' c' = (st', c', [mkEvent k None (unix_seconds now')], inl tt).
Proof.
  unfold delete. destruct (valid_key k) eqn:Hk; simpl; [|done].
  destruct (store_delete k st) as [st1|ge] eqn:Hd; [|done].
  intros [= <- <- _]. rewrite (delete_delete k st st1 Hd).
  by rewrite Delete_Delete.
Qed.

(** Bounded staleness (spec 3, 8): after a local write at [now], a write
    by another instance of [cs'] to the store is not seen while the
    cached entry lives, and is seen by the first read after the cache
    duration has elapsed, which falls back to the store. *)
Theorem read_staleness_bound now now' k cs cs' st c st1 c1 evs st2 :
  (0 <= now)%Z -> (0 < GoCache.defaultExpiration c)%Z ->
  update now k cs st c = (st1, c1, evs, inl tt) ->
  store_put k cs' st1 = Ok st2 ->
  is_null_payload cs' = false ->
  ((now' <= now + GoCache.defaultExpiration c)%Z ->
     read now' k st2 c1 = (c1, inl cs)) /\
  ((now + GoCache.defaultExpiration c < now')%Z ->
     (read now' k st2 c1).2 = inl cs').
Proof.
  intros Hnow Hd Hu Hp Hn.
  pose proof (update_success _ _ _ _ _ _ _ _ Hu) as (Hk & _ & _ & _).
  apply valid_key_true in Hk.
  unfold update in Hu. rewrite Hk in Hu. simpl in Hu.
  destruct (store_put k cs st) as [st1'|ge]; [|done].
  injection Hu as -> <- _.
  unfold read. rewrite Hk. simpl. split; intros Hle.
  - by rewrite GoCache.Get_Set_live.
  - rewrite GoCache.Get_Set_expires by done.
    by rewrite (get_put_eq k cs' st1 st2 Hp), Hn.
Qed.
(** A read through a cache that holds no live entry for the key answers
    what the store holds, whatever else the cache contains. *)
Lemma read_cold_cache (now : Z) (k : Key) (st : St) (c1 c2 : Cache) :
  GoCache.Get now k c1 = None -> GoCache.Get now k c2 = None ->
  snd (read now k st c1) = snd (read now k st c2).
Proof.
  intros H1 H2. unfold read. destruct (negb _); [done|]. rewrite H1, H2.
  destruct (store_get k st) as [[cs|]|e]; [|done..]. by destruct (is_null_payload cs).
Qed.
End CoreProps.

(** ** Properties of applying change events *)

(** A tombstone evicts the key, whatever its timestamp and whatever is
    cached (spec 4.4 step 1, 8). *)
Theorem apply_tombstone_evicts (now now' : Z) (ev : Event) (c : Cache) :
  ev_value ev = None -> GoCache.Get now' (ev_key ev) (apply_event now ev c) = None.
Proof.
  destruct ev as [k v ts]. simpl. intros ->. apply Get_apply_tombstone.
Qed.

(** Stale-event rejection (spec 3, 8): a value event not strictly newer
    than the cached value leaves the cache unchanged. *)
Theorem apply_stale_noop (now : Z) (ev : Event) (cur : ChangeSet.t) (c : Cache) :
  ev_value ev <> None ->
  GoCache.Get now (ev_key ev) c = Some cur ->
  (ev_ts ev <= ChangeSet.Timestamp cur)%Z ->
  apply_event now ev c = c.
Proof.
  destruct ev as [k [cs|] ts]; simpl; [|done]. intros _ Hc Hle.
  rewrite apply_value. unfold newer. rewrite Hc.
  by destruct (Z.ltb_spec (ChangeSet.Timestamp cur) ts); [lia|].
Qed.

(** Applying the same event twice is applying it once (spec 4.4). *)
Theorem apply_idempotent (now : Z) (ev : Event) (c : Cache) :
  wf_event ev -> apply_event now ev (apply_event now ev c) = apply_event now ev c.
Proof.
  destruct ev as [k [cs|] ts]; unfold wf_event; simpl.
  - intros ->. rewrite !apply_value.
    destruct (newer now k _ c) eqn:N; [|by rewrite N].
    rewrite newer_Set_eq, Z.ltb_irrefl. done.
  - intros _. apply Delete_Delete.
Qed.

(** Value events with distinct timestamps commute (spec 4.4): applying
    them in either order gives the same cache, so out-of-order delivery
    converges. *)
Theorem apply_commute (now : Z) (e1 e2 : Event) (c : Cache) :
  wf_event e1 -> wf_event e2 -> ev_value e1 <> None -> ev_value e2 <> None ->
  ev_ts e1 <> ev_ts e2 ->
  apply_event now e1 (apply_event now e2 c) = apply_event now e2 (apply_event now e1 c).
Proof.
  destruct e1 as [k1 [cs1|] t1], e2 as [k2 [cs2|] t2]; unfold wf_event; simpl;
    try done.
  intros -> -> _ _ Hne. rewrite !apply_value.
  destruct (decide (k1 = k2)) as [<-|Hk].
  - destruct (newer now k1 (ChangeSet.Timestamp cs2) c) eqn:N2,
             (newer now k1 (ChangeSet.Timestamp cs1) c) eqn:N1;
      rewrite ?newer_Set_eq, ?N1, ?N2;
      destruct (Z.ltb_spec (ChangeSet.Timestamp cs2) (ChangeSet.Timestamp cs1));
      destruct (Z.ltb_spec (ChangeSet.Timestamp cs1) (ChangeSet.Timestamp cs2));
      rewrite ?Set_Set_eq; try done; try lia.
    all: first
      [ by rewrite (newer_mono now k1 (ChangeSet.Timestamp cs1)
                     (ChangeSet.Timestamp cs2)) in N2 by (done || lia)
      | by rewrite (newer_mono now k1 (ChangeSet.Timestamp cs2)
                     (ChangeSet.Timestamp cs1)) in N1 by (done || lia) ].
  - destruct (newer now k2 (ChangeSet.Timestamp cs2) c) eqn:N2,
             (newer now k1 (ChangeSet.Timestamp cs1) c) eqn:N1;
      rewrite ?newer_Set_ne, ?N1, ?N2 by done; try done.
    by apply Set_Set_ne.
Qed.

(** Last-writer-wins (spec 8): of two value events for one key with
    timestamps [T1 < T2], applied in either order to a cache holding
    nothing as new as [T2], the [T2] value is the one cached. *)
Theorem apply_lww (now : Z) (k : Key) (cs1 cs2 : ChangeSet.t) (c : Cache) :
  (ChangeSet.Timestamp cs1 < ChangeSet.Timestamp cs2)%Z ->
  newer now k (ChangeSet.Timestamp cs2) c = true ->
  let e1 := mkEvent k (Some cs1) (ChangeSet.Timestamp cs1) in
  let e2 := mkEvent k (Some cs2) (ChangeSet.Timestamp cs2) in
  GoCache.Get now k (apply_event now e2 (apply_event now e1 c)) = Some cs2 /\
  GoCache.Get now k (apply_event now e1 (apply_event now e2 c)) = Some cs2.
Proof.
  intros Hlt N2 e1 e2. subst e1 e2.
  assert (GoCache.Get now k (apply_event now (mkEvent k (Some cs1) (ChangeSet.Timestamp cs1))
            (apply_event now (mkEvent k (Some cs2) (ChangeSet.Timestamp cs2)) c)) = Some cs2)
    as H21.
  { rewrite (apply_value now k cs2), N2, apply_value, newer_Set_eq.
    destruct (Z.ltb_spec (ChangeSet.Timestamp cs2) (ChangeSet.Timestamp cs1)); [lia|].
    apply GoCache.Get_Set_now. }
  split; [|done].
  by rewrite <- apply_commute by (unfold wf_event; simpl; done || lia).
Qed.

(** Ties are not resolved (spec 3 says ties keep the cached value): two
    events for one key with the same timestamp and different values leave
    different caches depending on their order of arrival, so two instances
    that receive them in different orders disagree until the entries
    expire.  The CLI's timestamps are whole seconds ([time.Now().Unix()]),
    so two [set]s within one second tie. *)
Theorem apply_tie_order_dependent :
  exists (e1 e2 : Event) (c : Cache),
    wf_event e1 /\ wf_event e2 /\ ev_key e1 = ev_key e2 /\ ev_ts e1 = ev_ts e2 /\
    GoCache.Get 0 (ev_key e1) (apply_event 0 e1 (apply_event 0 e2 c)) <>
    GoCache.Get 0 (ev_key e1) (apply_event 0 e2 (apply_event 0 e1 c)).
Proof.
  set (k := ("global", "feature.x") : Key).
  set (cs1 := ChangeSet.mk "true" "json" "cli" 100).
  set (cs2 := ChangeSet.mk "false" "json" "cli" 100).
  exists (mkEvent k (Some cs1) 100), (mkEvent k (Some cs2) 100),
    (GoCache.New 0 0 : Cache).
  split_and!; done.
Qed.

(** A tombstone overtaken by an older value does not converge (against
    spec 4.4, "applying events out of publish order produces the same
    final cache state as applying them in true timestamp order"): in
    publish order the key ends evicted, in the other order the deleted
    value is cached again, because the tombstone left no timestamp to
    compare with. *)
Theorem apply_tombstone_reorder :
  exists (k : Key) (cs : ChangeSet.t) (c : Cache),
    let v := mkEvent k (Some cs) (ChangeSet.Timestamp cs) in
    let t := mkEvent k None (ChangeSet.Timestamp cs + 1) in
    GoCache.Get 0 k (apply_event 0 t (apply_event 0 v c)) = None /\
    GoCache.Get 0 k (apply_event 0 v (apply_event 0 t c)) = Some cs.
Proof.
  exists ("global", "feature.x"), (ChangeSet.mk "true" "json" "cli" 100),
    (GoCache.New 0 0 : Cache).
  simpl. split; [apply Get_apply_tombstone|]. vm_compute. done.
Qed.

End Core.
