(* ===== verification/Cli.v ===== *)
(** * The command-line and wiring layer: [src/service/rtss_config/config.go]

    The package variables of [config.go] are the record [Globals] (with
    [handler.WatchTopic], the one variable of another package that [Run]
    writes).  [Commands] is the command tree with its flags, as data; the
    flags' [Destination]s are resolved into [Globals] by [parse_flags] (the
    part of urfave/cli the file relies on).  [Run] builds the service and
    its handler.  [setConfig], [getConfig] and [delConfig] are commands of
    the [prog] monad, generic in the state [S] of a [ConfigService]: their
    theorems are proved against the service's interface and its laws. *)

From S2P Require Import Prelude GoStrings Proto Cache Store Core.

Local Open Scope string_scope.

Module Cli.

(** ** Package state (lines 25-39) *)

Record Globals := mkGlobals {
  Name : string;
  Database : string;
  Namespace : string;
  MgoUrl : string;
  MgoDatabaseName : string;
  MgoTableName : string;
  CacheDuration : Z;
  CacheCleanupInterval : Z;
  WatchTopic : string
}.

(** The initial values of the [var] block; [handler.WatchTopic] keeps
    whatever its own package gives it. *)
Definition init_globals (watch_topic : string) : Globals :=
  mkGlobals "go.micro.rtss_config" "store" "global" "" "" "" 0 0 watch_topic.

(** ** Flags (lines 232-280) *)

Inductive FlagValue :=
| FString (s : string)
| FDuration (d : Z).

(** The [Destination] pointers of the flags. *)
Inductive Destination :=
| NoDestination
| ToCacheDuration
| ToCacheCleanupInterval
| ToMgoUrl
| ToMgoDatabaseName
| ToMgoTableName.

Record Flag := mkFlag {
  flag_name : string;
  flag_envvars : list string;
  flag_default : option FlagValue;
  flag_required : bool;
  flag_destination : Destination
}.

(** [time.Minute] in nanoseconds. *)
Definition Minute : Z := 60000000000.

Definition flag_namespace : Flag :=
  mkFlag "namespace" ["MICRO_CONFIG_NAMESPACE"] None false NoDestination.

Definition flag_watch_topic : Flag :=
  mkFlag "watch_topic" ["MICRO_CONFIG_WATCH_TOPIC"] None false NoDestination.

Definition flag_cache_duration : Flag :=
  mkFlag "cache_duration" ["MICRO_CONFIG_CACHE_DURATION"]
    (Some (FDuration (Minute * 5))) false ToCacheDuration.

Definition flag_cache_cleanup_interval : Flag :=
  mkFlag "cache_cleanup_interval" ["MICRO_CONFIG_CACHE_CLEANUP_INTERVAL"]
    (Some (FDuration (Minute * 2))) false ToCacheCleanupInterval.

Definition flag_mgo_url : Flag :=
  mkFlag "mgo_url" ["MICRO_CONFIG_MGO_URL"] None true ToMgoUrl.

Definition flag_mgo_database : Flag :=
  mkFlag "mgo_database" ["MICRO_CONFIG_MGO_DATABASE"]
    (Some (FString "rtss_config")) false ToMgoDatabaseName.

Definition flag_mgo_table : Flag :=
  mkFlag "mgo_table" ["MICRO_CONFIG_MGO_TABLE"]
    (Some (FString "micro_store")) false ToMgoTableName.

Definition config_flags : list Flag :=
  [flag_namespace; flag_watch_topic; flag_cache_duration;
   flag_cache_cleanup_interval; flag_mgo_url; flag_mgo_database; flag_mgo_table].

(** ** Flag resolution

    urfave/cli gives a flag the value of the command line, else of the
    first of its environment variables that is set, else its default, and
    writes it through the [Destination]; a [Required] flag with neither a
    command-line nor an environment value is an error.  [lookup_value] is
    Go's lookup of a name in a list of name/value pairs. *)

Fixpoint lookup_value (name : string) (kvs : list (string * FlagValue)) : option FlagValue :=
  match kvs with
  | [] => None
  | (n, v) :: kvs' => if String.eqb n name then Some v else lookup_value name kvs'
  end.

Fixpoint lookup_env (names : list string) (env : list (string * FlagValue)) : option FlagValue :=
  match names with
  | [] => None
  | n :: ns => match lookup_value n env with
               | Some v => Some v
               | None => lookup_env ns env
               end
  end.

Definition set_value (given env : list (string * FlagValue)) (f : Flag) : option FlagValue :=
  match lookup_value (flag_name f) given with
  | Some v => Some v
  | None => lookup_env (flag_envvars f) env
  end.

Definition flag_value (given env : list (string * FlagValue)) (f : Flag) : option FlagValue :=
  match set_value given env f with
  | Some v => Some v
  | None => flag_default f
  end.

(** Writing a value through a [Destination]. *)
Definition store_destination (d : Destination) (v : FlagValue) (g : Globals) : Globals :=
  match d, v with
  | ToCacheDuration, FDuration x =>
      mkGlobals (Name g) (Database g) (Namespace g) (MgoUrl g) (MgoDatabaseName g)
        (MgoTableName g) x (CacheCleanupInterval g) (WatchTopic g)
  | ToCacheCleanupInterval, FDuration x =>
      mkGlobals (Name g) (Database g) (Namespace g) (MgoUrl g) (MgoDatabaseName g)
        (MgoTableName g) (CacheDuration g) x (WatchTopic g)
  | ToMgoUrl, FString s =>
      mkGlobals (Name g) (Database g) (Namespace g) s (MgoDatabaseName g)
        (MgoTableName g) (CacheDuration g) (CacheCleanupInterval g) (WatchTopic g)
  | ToMgoDatabaseName, FString s =>
      mkGlobals (Name g) (Database g) (Namespace g) (MgoUrl g) s
        (MgoTableName g) (CacheDuration g) (CacheCleanupInterval g) (WatchTopic g)
  | ToMgoTableName, FString s =>
      mkGlobals (Name g) (Database g) (Namespace g) (MgoUrl g) (MgoDatabaseName g)
        s (CacheDuration g) (CacheCleanupInterval g) (WatchTopic g)
  | _, _ => g
  end.

Definition required_flag_error (name : string) : go_error :=
  GoError "*errors.errorString" ("Required flag " ++ GoStrings.go_quote name ++ " not set").

(** The parsed flags: the updated globals and the values the context
    answers [c.String] with, or the error of a missing required flag. *)
Fixpoint parse_flags (fs : list Flag) (given env : list (string * FlagValue)) (g : Globals)
    : result (Globals * list (string * FlagValue)) :=
  match fs with
  | [] => Ok (g, [])
  | f :: fs' =>
      if flag_required f && negb (bool_decide (is_Some (set_value given env f)))
      then Err (required_flag_error (flag_name f))
      else
        let g1 := match flag_value given env f with
                  | Some v => store_destination (flag_destination f) v g
                  | None => g
                  end in
        match parse_flags fs' given env g1 with
        | Err e => Err e
        | Ok (g2, vals) =>
            Ok (g2, match flag_value given env f with
                    | Some v => (flag_name f, v) :: vals
                    | None => vals
                    end)
        end
  end.

(** ** The command tree (lines 204-294) *)

Inductive Action := ActSet | ActGet | ActDel | ActRunService.

#[warnings="-register-all"]
Inductive Command := mkCommand {
  cmd_name : string;
  cmd_usage : string;
  cmd_action : option Action;
  cmd_subcommands : list Command;
  cmd_flags : list Flag
}.

(** What a plugin contributes to the command. *)
Record Plugin := mkPlugin { plugin_commands : list Command; plugin_flags : list Flag }.

Definition cmd_set : Command :=
  mkCommand "set" "Set a key-val; micro config set key val" (Some ActSet) [] [].
Definition cmd_get : Command :=
  mkCommand "get" "Get a value; micro config get key" (Some ActGet) [] [].
Definition cmd_del : Command :=
  mkCommand "del" "Delete a value; micro config del key" (Some ActDel) [] [].

(** The loop over [Plugins()] (lines 283-291). *)
Definition add_plugin (c : Command) (p : Plugin) : Command :=
  let subs := if (0 <? List.length (plugin_commands p))%nat
              then (cmd_subcommands c ++ plugin_commands p)%list else cmd_subcommands c in
  let flags := if (0 <? List.length (plugin_flags p))%nat
               then (cmd_flags c ++ plugin_flags p)%list else cmd_flags c in
  mkCommand (cmd_name c) (cmd_usage c) (cmd_action c) subs flags.

Definition Commands (plugins : list Plugin) : list Command :=
  let command := mkCommand "rtss_config" "Manage configuration values" (Some ActRunService)
                   [cmd_set; cmd_get; cmd_del] config_flags in
  [fold_left add_plugin plugins command].

(** urfave/cli runs the first subcommand whose name is the first argument. *)
Fixpoint find_command (name : string) (cs : list Command) : option Command :=
  match cs with
  | [] => None
  | c :: cs' => if String.eqb (cmd_name c) name then Some c else find_command name cs'
  end.

(** ** [Run] (lines 41-75) *)

Inductive StoreOption :=
| URI (s : string)
| StoreDatabase (s : string)
| StoreTable (s : string).

Inductive StoreImpl :=
| DefaultCmdStore
| MongoStore (opts : list StoreOption).

Inductive ServiceOption :=
| OptName (s : string)
| OptOther (tag : string).

(** [handler.Config{Store, Cache}] *)
Record HandlerConfig := mkHandler {
  h_store : StoreImpl;
  h_cache : GoCache.Cache (K:=Core.Key) (V:=ChangeSet.t)
}.

(** The service [Run] builds: its options, its RPC handler and the topic
    its [Watcher] subscribes to. *)
Record Service := mkService {
  svc_opts : list ServiceOption;
  svc_handler : HandlerConfig;
  svc_watch_topic : string
}.

(** [c.String(name)]: the value of a string flag of the context's
    lineage, or [""]. *)
Definition ctx_String (vals : list (string * FlagValue)) (name : string) : string :=
  match lookup_value name vals with
  | Some (FString s) => s
  | _ => ""
  end.

(** [micro.Name]: the last name option wins. *)
Definition service_name (opts : list ServiceOption) : string :=
  fold_left (fun n o => match o with OptName s => s | OptOther _ => n end) opts "go.micro".

(** Lines 42-44 and 46-48. *)
Definition run_overrides (vals : list (string * FlagValue)) (g : Globals) : Globals :=
  let name := if (0 <? String.length (ctx_String vals "server_name"))%nat
              then ctx_String vals "server_name" else Name g in
  let topic := if (0 <? String.length (ctx_String vals "watch_topic"))%nat
               then ctx_String vals "watch_topic" else WatchTopic g in
  mkGlobals name (Database g) (Namespace g) (MgoUrl g) (MgoDatabaseName g)
    (MgoTableName g) (CacheDuration g) (CacheCleanupInterval g) topic.

(** Lines 54-63: the handler is built with the default store of the
    command, which is then replaced by the MongoDB store. *)
Definition new_handler (g : Globals) : HandlerConfig :=
  let h := mkHandler DefaultCmdStore (GoCache.New (CacheDuration g) (CacheCleanupInterval g)) in
  let opts := [URI (MgoUrl g); StoreDatabase (MgoDatabaseName g); StoreTable (MgoTableName g)] in
  mkHandler (MongoStore opts) (h_cache h).

(** [fmt.Sprintf(format, a...)], which [log.Fatalf] applies to its
    arguments, for operands that are [error] values.  The format is
    scanned left to right: [%%] prints [%]; [%v] and [%s] print the next
    operand's [Error()], or [%!v(MISSING)] when none is left; a trailing
    [%] prints [%!(NOVERB)]; any other character is copied.  Operands
    left over are appended as [%!(EXTRA type=value, ...)].  Flags, widths
    and the other verbs (which print [%!c(type=value)] for an error
    here) are outside what [config.go] uses. *)
Definition verb_text (v : ascii) (e : go_error) : string :=
  if Ascii.eqb v "v" || Ascii.eqb v "s" then Error e
  else "%!" ++ String v ("(" ++ ErrType e ++ "=" ++ Error e ++ ")").

Fixpoint sprintf_scan (format : string) (args : list go_error) : string * list go_error :=
  match format with
  | EmptyString => (EmptyString, args)
  | String c rest =>
      if Ascii.eqb c "%" then
        match rest with
        | EmptyString => ("%!(NOVERB)", args)
        | String v rest' =>
            if Ascii.eqb v "%" then
              let '(o, a) := sprintf_scan rest' args in (String "%" o, a)
            else
              match args with
              | [] => let '(o, a) := sprintf_scan rest' [] in ("%!" ++ String v ("(MISSING)" ++ o), a)
              | e :: args' => let '(o, a) := sprintf_scan rest' args' in (verb_text v e ++ o, a)
              end
        end
      else let '(o, a) := sprintf_scan rest args in (String c o, a)
  end.

Definition extra_text (extra : list go_error) : string :=
  match extra with
  | [] => ""
  | _ => "%!(EXTRA " ++ String.concat ", " (map (fun e => ErrType e ++ "=" ++ Error e) extra) ++ ")"
  end.

Definition Sprintf (format : string) (args : list go_error) : string :=
  let '(o, extra) := sprintf_scan format args in o ++ extra_text extra.

Definition get_globals : prog Globals Globals := fun g => (g, [], Cont g).
Definition put_globals (g : Globals) : prog Globals unit := fun _ => (g, [], Cont tt).

(** [Run(c, srvOpts...)]: [run_err] is what the blocking [service.Run()]
    returns. *)
Definition Run (vals : list (string * FlagValue)) (srvOpts : list ServiceOption)
    (run_err : option go_error) : prog Globals Service :=
  g0 ← get_globals;
  let g := run_overrides vals g0 in
  put_globals g;;
  let svc := mkService (srvOpts ++ [OptName (Name g)])%list (new_handler g) (WatchTopic g) in
  log_info ("uri " ++ MgoUrl g);;
  log_info ("dbname " ++ MgoDatabaseName g);;
  log_info ("table " ++ MgoTableName g);;
  match run_err with
  | Some e => log_fatal (Sprintf "config Run the service error: " [e])
  | None => mret svc
  end.

(** The [Action] of the [rtss_config] command itself (lines 225-231):
    [unexpected] is what [helper.UnexpectedSubcommand(ctx)] returns (the
    helper is outside the sources); without an error the service runs. *)
Definition command_action (unexpected : option go_error) (vals : list (string * FlagValue))
    (srvOpts : list ServiceOption) (run_err : option go_error)
    : prog Globals (option go_error) :=
  match unexpected with
  | Some e => mret (Some e)
  | None => Run vals srvOpts run_err;; mret None
  end.

(** ** The sub-commands (lines 77-202) *)

(** [args.Get(n)]: [""] past the end. *)
Definition Args_Get (args : list string) (n : nat) : string := nth_default "" args n.

(** The service every sub-command's client calls, hard-coded in
    [proto.NewConfigService("go.micro.rtss_config", ...)] (lines 78, 117,
    169). *)
Definition client_service : string := "go.micro.rtss_config".

(** The text of a go-micro [errors.Error]: its JSON encoding. *)
Definition micro_error (id code detail status : string) : go_error :=
  let q := GoStrings.go_quote in
  GoError "*errors.Error"
    ("{" ++ q "id" ++ ":" ++ q id ++ "," ++ q "code" ++ ":" ++ code ++ "," ++
     q "detail" ++ ":" ++ q detail ++ "," ++ q "status" ++ ":" ++ q status ++ "}").

(** [strings.Contains(strings.ToLower(err.Error()), "not found")]
    (line 144). *)
Definition is_not_found_error (e : go_error) : bool :=
  GoStrings.Contains (GoStrings.ToLower (Error e)) "not found".

(** The change set of [setConfig] (lines 100-105): format [json], source
    [cli], stamped with [time.Now().Unix()]. *)
Definition set_changeset (val : string) (now : Z) : ChangeSet.t :=
  ChangeSet.mk val "json" "cli" (Core.unix_seconds now).

(** [&proto.UpdateRequest{...}] of [setConfig] (lines 93-107). *)
Definition set_request (g : Globals) (key val : string) (now : Z) : UpdateRequest.t :=
  UpdateRequest.mk (Some (Change.mk (Namespace g) key (Some (set_changeset val now)))).

Section Subcommands.
Context {S : Type} `{ConfigService S}.

(** [if args.Len() == 0 { fmt.Println(usage); os.Exit(1) }] *)
Definition require_args (usage : string) (args : list string) : prog S unit :=
  if (List.length args =? 0)%nat then println usage;; os_exit 1 else mret tt.

(** [if len(key) == 0 { log.Fatal("key cannot be blank") }] *)
Definition require_key (key : string) : prog S unit :=
  if (String.length key =? 0)%nat then log_fatal "key cannot be blank" else mret tt.

(** [setConfig] (lines 77-114); [now] is [time.Now()] in nanoseconds. *)
Definition setConfig (g : Globals) (now : Z) (args : list string) : prog S unit :=
  require_args "Required usage: micro config set key val" args;;
  let key := Args_Get args 0 in
  let val := Args_Get args 1 in
  r ← call (Update (set_request g key val now));
  match r with
  | Err e => println (Error e);; os_exit 1
  | Ok _ => mret tt
  end.

(** Lines 152-163: a response without a change set, or whose data is
    empty or [null], is reported as not found. *)
Definition print_change (rsp : ReadResponse.t) : prog S unit :=
  match ReadResponse.Change rsp with
  | None => println "not found";; os_exit 1
  | Some ch =>
      match Change.ChangeSet ch with
      | None => println "not found";; os_exit 1
      | Some cs =>
          let v := ChangeSet.Data cs in
          if (String.length v =? 0)%nat || String.eqb v "null"
          then println "not found";; os_exit 1
          else println v
      end
  end.

(** [getConfig] (lines 116-166). *)
Definition getConfig (g : Globals) (args : list string) : prog S unit :=
  require_args "Required usage: micro config get key" args;;
  let key := Args_Get args 0 in
  require_key key;;
  r ← call (Read (ReadRequest.mk (Namespace g) key));
  match r with
  | Err e =>
      if is_not_found_error e then println "not found";; os_exit 1
      else println (Error e);; os_exit 1
  | Ok rsp => print_change rsp
  end.

(** [delConfig] (lines 168-202); its usage line is the one of [get]. *)
Definition delConfig (g : Globals) (args : list string) : prog S unit :=
  require_args "Required usage: micro config get key" args;;
  let key := Args_Get args 0 in
  require_key key;;
  r ← call (Delete (DeleteRequest.mk (Some (Change.mk (Namespace g) key None))));
  match r with
  | Err e => println (Error e);; os_exit 1
  | Ok _ => mret tt
  end.
End Subcommands.

(** What a [Read] answer makes [getConfig] do (lines 140-163): print a
    value, report "not found", or print the error. *)
Inductive get_answer := Printed (v : string) | NotFound | Failed (msg : string).

Definition get_view (r : result ReadResponse.t) : get_answer :=
  match r with
  | Err e => if is_not_found_error e then NotFound else Failed (Error e)
  | Ok rsp =>
      match ReadResponse.Change rsp with
      | None => NotFound
      | Some ch =>
          match Change.ChangeSet ch with
          | None => NotFound
          | Some cs =>
              let v := ChangeSet.Data cs in
              if (String.length v =? 0)%nat || String.eqb v "null" then NotFound else Printed v
          end
      end
  end.

(** The lines [getConfig] prints and how it exits, for each answer. *)
Definition get_report (a : get_answer) : list line * outcome unit :=
  match a with
  | Printed v => ([Stdout v], Cont tt)
  | NotFound => ([Stdout "not found"], Exit 1)
  | Failed msg => ([Stdout msg], Exit 1)
  end.

(** The client stub when no server of [client_service] is registered:
    go-micro's selector finds no node and every call fails with this
    error of [go.micro.client]. *)
Definition no_service_error : go_error :=
  micro_error "go.micro.client" "500" ("service " ++ client_service ++ ": not found")
    "Internal Server Error".

#[export] Instance client_no_service : ConfigService unit := {
  Update := fun _ s => (s, Err no_service_error);
  Read := fun _ s => (s, Err no_service_error);
  Delete := fun _ s => (s, Err no_service_error)
}.

(** Concrete inputs of the witnesses: the package state at start, a
    renamed server and a namespace flag. *)
Definition g0 : Globals := init_globals "go.micro.rtss_config.watch".

Definition renamed : list (string * FlagValue) := [("server_name", FString "my.config")].

Definition tenant_flags : list (string * FlagValue) :=
  [("namespace", FString "tenant-a"); ("mgo_url", FString "mongodb://db:27017")].

(** ** Lemmas: the guards of the sub-commands *)

Section Guards.
Context {S : Type} `{ConfigService S}.

Lemma require_args_cons {B} usage a args (f : unit -> prog S B) st :
  (require_args usage (a :: args) ≫= f) st = f tt st.
Proof. apply prog_ret_bind. Qed.

Lemma require_args_nil {B} usage (f : unit -> prog S B) st :
  (require_args usage [] ≫= f) st = (st, [Stdout usage], Exit 1).
Proof. done. Qed.

Lemma require_key_ok {B} key (f : unit -> prog S B) st :
  key <> "" -> (require_key key ≫= f) st = f tt st.
Proof. intros Hk. destruct key as [|c key]; [done|]. apply prog_ret_bind. Qed.

Lemma require_key_blank {B} (f : unit -> prog S B) st :
  (require_key "" ≫= f) st = (st, [Logged Fatal "key cannot be blank"], Exit 1).
Proof. done. Qed.

(** A change set whose data is neither empty nor [null] is printed. *)
Lemma print_change_value ns path cs (st : S) :
  ChangeSet.Data cs <> "" -> ChangeSet.Data cs <> "null" ->
  print_change (ReadResponse.mk (Some (Change.mk ns path (Some cs)))) st =
    (st, [Stdout (ChangeSet.Data cs)], Cont tt).
Proof.
  intros He Hn. unfold print_change. simpl.
  assert ((String.length (ChangeSet.Data cs) =? 0)%nat = false) as ->
    by (destruct (ChangeSet.Data cs); done).
  by rewrite (proj2 (String.eqb_neq _ _) Hn).
Qed.

Lemma print_change_null ns path cs (st : S) :
  ChangeSet.Data cs = "" \/ ChangeSet.Data cs = "null" ->
  print_change (ReadResponse.mk (Some (Change.mk ns path (Some cs)))) st =
    (st, [Stdout "not found"], Exit 1).
Proof. unfold print_change. simpl. by intros [-> | ->]. Qed.

(** A successful [set] made exactly the [Update] call of [set_request]. *)
Lemma setConfig_ok g now key rest (s s1 : S) out :
  setConfig g now (key :: rest) s = (s1, out, Cont tt) ->
  Update (set_request g key (Args_Get rest 0) now) s = (s1, Ok tt) /\ out = [].
Proof.
  unfold setConfig. rewrite require_args_cons. go_run.
  destruct (Update _ s) as [s' [[]|e]]; simpl; [by intros [= -> <-]|done].
Qed.

Lemma delConfig_ok g key rest (s s1 : S) out :
  delConfig g (key :: rest) s = (s1, out, Cont tt) ->
  key <> "" /\
  Delete (DeleteRequest.mk (Some (Change.mk (Namespace g) key None))) s = (s1, Ok tt) /\
  out = [].
Proof.
  unfold delConfig. rewrite require_args_cons. simpl.
  destruct (String.eqb_spec key "") as [->|Hk]; [by rewrite require_key_blank|].
  rewrite require_key_ok by done. go_run.
  destruct (Delete _ s) as [s' [[]|e]]; simpl; [by intros [= -> <-]|done].
Qed.
End Guards.

(** ** The state a sub-command leaves: the service's state after at most
    one call *)

Section FinalState.
Context {S : Type} `{ConfigService S}.

Lemma print_change_state rsp (st : S) : fst (fst (print_change rsp st)) = st.
Proof.
  unfold print_change. destruct (ReadResponse.Change rsp) as [ch|]; [|done].
  destruct (Change.ChangeSet ch) as [cs|]; [|done]. simpl.
  by destruct (_ || _).
Qed.

Lemma getConfig_state g args (s : S) :
  fst (fst (getConfig g args s)) = s \/
  exists key, key <> "" /\
    fst (fst (getConfig g args s)) = fst (Read (ReadRequest.mk (Namespace g) key) s).
Proof.
  unfold getConfig. destruct args as [|key rest]; [by left|].
  rewrite require_args_cons. simpl.
  destruct (String.eqb_spec key "") as [->|Hk]; [rewrite require_key_blank; by left|].
  rewrite require_key_ok by done. go_run. right. exists key. split; [done|].
  destruct (Read _ s) as [s' [rsp|e]]; simpl.
  - destruct (print_change rsp s') as [[s'' o] r] eqn:Hp.
    pose proof (print_change_state rsp s') as Hs. rewrite Hp in Hs. by subst.
  - by destruct (is_not_found_error e).
Qed.

Lemma delConfig_state g args (s : S) :
  fst (fst (delConfig g args s)) = s \/
  exists key, key <> "" /\
    fst (fst (delConfig g args s)) =
      fst (Delete (DeleteRequest.mk (Some (Change.mk (Namespace g) key None))) s).
Proof.
  unfold delConfig. destruct args as [|key rest]; [by left|].
  rewrite require_args_cons. simpl.
  destruct (String.eqb_spec key "") as [->|Hk]; [rewrite require_key_blank; by left|].
  rewrite require_key_ok by done. go_run. right. exists key. split; [done|].
  by destruct (Delete _ s) as [s' [[]|e]].
Qed.

Lemma setConfig_state g now args (s : S) :
  fst (fst (setConfig g now args s)) = s \/
  exists key val,
    fst (fst (setConfig g now args s)) = fst (Update (set_request g key val now) s).
Proof.
  unfold setConfig. destruct args as [|key rest]; [by left|].
  rewrite require_args_cons. go_run. right. exists key, (Args_Get rest 0).
  by destruct (Update _ s) as [s' [[]|e]].
Qed.
End FinalState.

Section Observation.
Context {S : Type} `{ConfigService S}.

(** A [get] of a non-blank key: one [Read], then the report of its
    answer. *)
Lemma getConfig_report g key rest (s : S) :
  key <> "" ->
  getConfig g (key :: rest) s =
    (fst (Read (ReadRequest.mk (Namespace g) key) s),
     (get_report (get_view (snd (Read (ReadRequest.mk (Namespace g) key) s)))).1,
     (get_report (get_view (snd (Read (ReadRequest.mk (Namespace g) key) s)))).2).
Proof.
  intros Hk. unfold getConfig. rewrite require_args_cons. simpl.
  rewrite require_key_ok by done. go_run.
  destruct (Read _ s) as [s' [rsp|e]]; simpl; [|by destruct (is_not_found_error e)].
  unfold print_change. destruct (ReadResponse.Change rsp) as [ch|];
    [destruct (Change.ChangeSet ch) as [cs|]; [destruct (_ || _)|]|]; by go_run.
Qed.

(** What [get] prints and how it exits depends on the service only
    through the answer of its one [Read]. *)
Lemma getConfig_output g args (s1 s2 : S) :
  snd (Read (ReadRequest.mk (Namespace g) (Args_Get args 0)) s1) =
  snd (Read (ReadRequest.mk (Namespace g) (Args_Get args 0)) s2) ->
  snd (fst (getConfig g args s1)) = snd (fst (getConfig g args s2)) /\
  snd (getConfig g args s1) = snd (getConfig g args s2).
Proof.
  destruct args as [|key rest]; [done|].
  destruct (String.eqb_spec key "") as [->|Hk]; [by unfold getConfig; rewrite !require_args_cons|].
  change (Args_Get (key :: rest) 0) with key. rewrite !getConfig_report by done. by intros ->.
Qed.
(** A [get] that returns normally printed the data of the change set
    its [Read] answered. *)
Lemma getConfig_Cont g args (s s' : S) out :
  getConfig g args s = (s', out, Cont tt) ->
  exists s1 rsp ch cs,
    Read (ReadRequest.mk (Namespace g) (Args_Get args 0)) s = (s1, Ok rsp) /\
    ReadResponse.Change rsp = Some ch /\ Change.ChangeSet ch = Some cs /\
    out = [Stdout (ChangeSet.Data cs)].
Proof.
  unfold getConfig. destruct args as [|key rest]; [done|].
  rewrite require_args_cons. simpl.
  destruct (String.eqb_spec key "") as [->|Hk]; [by rewrite require_key_blank|].
  rewrite require_key_ok by done. go_run.
  destruct (Read _ s) as [s1 [rsp|e]]; simpl; [|by destruct (is_not_found_error e)].
  unfold print_change. destruct (ReadResponse.Change rsp) as [ch|] eqn:Hch; [|done].
  destruct (Change.ChangeSet ch) as [cs|] eqn:Hcs; [|done].
  destruct (_ || _); [done|]. intros [= _ <-]. by exists s1, rsp, ch, cs.
Qed.
End Observation.

(** ** Simulation: two services that answer alike are used alike

    If a relation [R] between the states of two services is kept by
    every call, [Update] and [Delete] answer equally and [Read] answers
    alike as [getConfig] sees it ([get_view]), then each sub-command prints
    the same lines, exits the same way and leaves related states. *)
Section Simulation.
Context {S T : Type} {HS : ConfigService S} {HT : ConfigService T} (R : S -> T -> Prop).
Hypothesis update_sim : forall req s t, R s t ->
  R (fst (Update req s)) (fst (Update req t)) /\ snd (Update req s) = snd (Update req t).
Hypothesis delete_sim : forall req s t, R s t ->
  R (fst (Delete req s)) (fst (Delete req t)) /\ snd (Delete req s) = snd (Delete req t).
Hypothesis read_sim : forall req s t, R s t ->
  R (fst (Read req s)) (fst (Read req t)) /\ get_view (snd (Read req s)) = get_view (snd (Read req t)).

(** Two runs related: states in [R], same lines, same outcome. *)
Definition run_sim {A} (x : S * list line * outcome A) (y : T * list line * outcome A) : Prop :=
  R x.1.1 y.1.1 /\ x.1.2 = y.1.2 /\ x.2 = y.2.

Lemma setConfig_sim g now args s t : R s t -> run_sim (setConfig g now args s) (setConfig g now args t).
Proof.
  intros Hr. unfold setConfig. destruct args as [|key rest]; [done|].
  rewrite !require_args_cons. go_run.
  destruct (update_sim (set_request g key (Args_Get rest 0) now) s t Hr) as [Hr' Heq].
  destruct (Update _ s) as [s' r1], (Update _ t) as [t' r2]. simpl in *. subst r2.
  by destruct r1; go_run.
Qed.

Lemma delConfig_sim g args s t : R s t -> run_sim (delConfig g args s) (delConfig g args t).
Proof.
  intros Hr. unfold delConfig. destruct args as [|key rest]; [done|].
  rewrite !require_args_cons. simpl.
  destruct (String.eqb_spec key "") as [->|Hk]; [by rewrite !require_key_blank|].
  rewrite !require_key_ok by done. go_run.
  destruct (delete_sim (DeleteRequest.mk (Some (Change.mk (Namespace g) key None))) s t Hr)
    as [Hr' Heq].
  destruct (Delete _ s) as [s' r1], (Delete _ t) as [t' r2]. simpl in *. subst r2.
  by destruct r1; go_run.
Qed.

Lemma getConfig_sim g args s t : R s t -> run_sim (getConfig g args s) (getConfig g args t).
Proof.
  intros Hr. destruct args as [|key rest]; [done|].
  destruct (String.eqb_spec key "") as [->|Hk]; [by unfold getConfig; rewrite !require_args_cons|].
  rewrite !getConfig_report by done.
  destruct (read_sim (ReadRequest.mk (Namespace g) key) s t Hr) as [Hr' Heq].
  unfold run_sim. simpl. by rewrite Heq.
Qed.
End Simulation.

(** ** Properties of the sub-commands, against the service's laws *)

Section SubcommandProps.
Context {S : Type} `{ConfigServiceLaws S}.

(** C1. Round trip (spec 6, 8): after [set key val] succeeded, [get key]
    prints [val] and returns, when the key is not blank and the value is
    neither empty nor [null]. *)
Theorem set_then_get g now key val rest s s1 out :
  key <> "" -> val <> "" -> val <> "null" ->
  setConfig g now (key :: val :: rest) s = (s1, out, Cont tt) ->
  exists s2, getConfig g [key] s1 = (s2, [Stdout val], Cont tt).
Proof.
  intros Hk Hv Hn (HU & _)%setConfig_ok.
  destruct (read_after_update _ _ _ _ _ Hk HU) as [s2 HR].
  exists s2. unfold getConfig. rewrite require_args_cons. simpl.
  rewrite require_key_ok by done. go_run. rewrite HR.
  by rewrite print_change_value.
Qed.

(** C7. A value that is empty or the literal [null] cannot be read back:
    [set key ""] or [set key null] succeeds, and [get key] then reports
    "not found" and exits 1, exactly as for an absent key (spec 9). *)
Theorem set_null_then_get_not_found g now key val rest s s1 out :
  key <> "" -> val = "" \/ val = "null" ->
  setConfig g now (key :: val :: rest) s = (s1, out, Cont tt) ->
  exists s2, getConfig g [key] s1 = (s2, [Stdout "not found"], Exit 1).
Proof.
  intros Hk Hv (HU & _)%setConfig_ok.
  destruct (read_after_update _ _ _ _ _ Hk HU) as [s2 HR].
  exists s2. unfold getConfig. rewrite require_args_cons. simpl.
  rewrite require_key_ok by done. go_run. rewrite HR.
  by rewrite print_change_null.
Qed.

(** C3. After [del key] succeeded, [get key] prints "not found" and exits 1
    (spec 8, "not-found on absent key"). *)
Theorem del_then_get g key rest s s1 out :
  delConfig g (key :: rest) s = (s1, out, Cont tt) ->
  exists s2, getConfig g [key] s1 = (s2, [Stdout "not found"], Exit 1).
Proof.
  intros (Hk & HD & _)%delConfig_ok.
  destruct (read_after_delete _ _ _ _ HD) as (s2 & e & HR & He).
  exists s2. unfold getConfig. rewrite require_args_cons. simpl.
  rewrite require_key_ok by done. go_run. rewrite HR. simpl.
  unfold is_not_found_error. unfold not_found_text in He. by rewrite He.
Qed.

(** C13. Delete idempotence from the CLI (spec 8): after a [del key]
    that returned normally, a second [del key] also succeeds silently, and
    a [get key] after both prints "not found" and exits 1. *)
Theorem del_twice g key rest s s1 out :
  delConfig g (key :: rest) s = (s1, out, Cont tt) ->
  exists s2 s3, delConfig g (key :: rest) s1 = (s2, [], Cont tt) /\
    getConfig g [key] s2 = (s3, [Stdout "not found"], Exit 1).
Proof.
  intros (Hk & HD & _)%delConfig_ok.
  destruct (delete_after_delete _ _ _ _ HD) as [s2 HD2].
  destruct (read_after_delete _ _ _ _ HD2) as (s3 & e & HR & He).
  exists s2, s3. split.
  - unfold delConfig. rewrite require_args_cons. simpl.
    rewrite require_key_ok by done. go_run. by rewrite HD2.
  - unfold getConfig. rewrite require_args_cons. simpl.
    rewrite require_key_ok by done. go_run. rewrite HR. simpl.
    unfold is_not_found_error. unfold not_found_text in He. by rewrite He.
Qed.
End SubcommandProps.

(** ** Error paths of the sub-commands *)

Section ErrorPaths.
Context {S : Type} `{ConfigService S}.

(** C12. [get] and [del] refuse a blank key before any call (lines 129-131,
    181-183): [log.Fatal] logs and exits 1, and the service's state is
    untouched. *)
Theorem blank_key_refused g rest (s : S) :
  getConfig g ("" :: rest) s = (s, [Logged Fatal "key cannot be blank"], Exit 1) /\
  delConfig g ("" :: rest) s = (s, [Logged Fatal "key cannot be blank"], Exit 1).
Proof.
  unfold getConfig, delConfig. rewrite !require_args_cons. simpl.
  by rewrite !require_key_blank.
Qed.

(** [del] with no argument prints the usage line of [get] (line 174):
    the message names the wrong sub-command. *)
Theorem del_usage_names_get g (s : S) :
  delConfig g [] s = (s, [Stdout "Required usage: micro config get key"], Exit 1).
Proof. done. Qed.

(** C9. [get] on a failed [Read] (lines 143-150): it prints "not found" when
    the error text contains "not found" in any case, and the error text
    otherwise, and exits 1 either way. *)
Theorem get_read_error g key (s s' : S) e :
  key <> "" ->
  Read (ReadRequest.mk (Namespace g) key) s = (s', Err e) ->
  getConfig g [key] s =
    (s', [Stdout (if is_not_found_error e then "not found" else Error e)], Exit 1).
Proof.
  intros Hk HR. unfold getConfig. rewrite require_args_cons. simpl.
  rewrite require_key_ok by done. go_run. rewrite HR. simpl.
  by destruct (is_not_found_error e).
Qed.
End ErrorPaths.

(** C10. The classification of line 144 is a case-insensitive search for
    "not found" in the error's text. *)
Theorem is_not_found_error_spec (e : go_error) :
  is_not_found_error e = true <->
  exists pre mid post, Error e = pre ++ mid ++ post /\ GoStrings.ToLower mid = "not found".
Proof. apply GoStrings.Contains_ToLower_spec. Qed.

(** C4. Infrastructure failure reported as absence (against spec 7, which
    asks the CLI to tell "not found" from a generic error): when no server
    is reachable, [get] prints "not found" and exits 1, the same output as
    for a key that does not exist. *)
Theorem get_no_service_reports_not_found g key rest (s : unit) :
  key <> "" ->
  getConfig g (key :: rest) s = (s, [Stdout "not found"], Exit 1).
Proof.
  intros Hk. unfold getConfig. rewrite require_args_cons. simpl.
  rewrite require_key_ok by done. go_run. by vm_compute.
Qed.

(** ** Properties of [Run], the flags and the command tree *)

Lemma service_name_last opts n : service_name (opts ++ [OptName n])%list = n.
Proof. unfold service_name. by rewrite fold_left_app. Qed.

(** C14. What [Run] builds when the service runs and stops cleanly (lines
    41-75): the server is registered under [Name], overridden by a
    non-empty [server_name] flag (the last [micro.Name] option wins over
    any given by the caller); the subscriber listens on [WatchTopic],
    overridden by [watch_topic]; the handler's store is the MongoDB store
    over the three [mgo_*] globals and its cache is
    [cache.New(CacheDuration, CacheCleanupInterval)]. *)
Theorem Run_builds_service vals opts g g' logs svc :
  Run vals opts None g = (g', logs, Cont svc) ->
  Name g' = (if String.eqb (ctx_String vals "server_name") "" then Name g
             else ctx_String vals "server_name") /\
  service_name (svc_opts svc) = Name g' /\
  svc_watch_topic svc = WatchTopic g' /\
  h_store (svc_handler svc) =
    MongoStore [URI (MgoUrl g); StoreDatabase (MgoDatabaseName g); StoreTable (MgoTableName g)] /\
  h_cache (svc_handler svc) = GoCache.New (CacheDuration g) (CacheCleanupInterval g) /\
  logs = [Logged Info ("uri " ++ MgoUrl g); Logged Info ("dbname " ++ MgoDatabaseName g);
          Logged Info ("table " ++ MgoTableName g)].
Proof.
  unfold Run. go_run. intros [= <- <- <-]. simpl.
  split_and!; [|apply service_name_last|done..].
  unfold run_overrides. simpl.
  by destruct (ctx_String vals "server_name").
Qed.

(** C17. When [service.Run()] fails, [Run] logs at fatal level and exits 1
    with [fmt.Sprintf] of line 73's format and the error: the format has
    no verb, so the error is appended as [%!(EXTRA type=text)] instead of
    being formatted, where a [%v] in the format would have printed its
    text. *)
Theorem Run_fatal vals opts g e :
  (exists g' logs,
    Run vals opts (Some e) g = (g', (logs ++ [Logged Fatal
      ("config Run the service error: %!(EXTRA " ++ ErrType e ++ "=" ++ Error e ++ ")")])%list,
      Exit 1)) /\
  Sprintf "config Run the service error: %v" [e] = "config Run the service error: " ++ Error e.
Proof.
  split.
  - unfold Run. go_run. eexists _, [_; _; _]. unfold Sprintf. simpl. rewrite !GoStrings.string_app_assoc.
    reflexivity.
  - unfold Sprintf. simpl. rewrite !GoStrings.string_app_nil_r. reflexivity.
Qed.

(** The name [Run] registers the server under, when [server_name] is set. *)
Lemma Run_registers_server_name vals opts g g' logs svc :
  ctx_String vals "server_name" <> "" ->
  Run vals opts None g = (g', logs, Cont svc) ->
  service_name (svc_opts svc) = ctx_String vals "server_name".
Proof.
  intros Hne. unfold Run. go_run. intros [= <- _ <-]. simpl.
  rewrite service_name_last. unfold run_overrides. simpl.
  by destruct (ctx_String vals "server_name").
Qed.

Lemma store_destination_keeps d v g :
  Name (store_destination d v g) = Name g /\
  Namespace (store_destination d v g) = Namespace g /\
  WatchTopic (store_destination d v g) = WatchTopic g.
Proof. by destruct d, v. Qed.

(** Unfolds [parse_flags] over the flag table of [Commands]. *)
Ltac parse_config_flags :=
  unfold config_flags;
  cbn [parse_flags flag_required flag_namespace flag_watch_topic flag_cache_duration
       flag_cache_cleanup_interval flag_mgo_url flag_mgo_database flag_mgo_table andb negb].

(** No flag writes [Namespace]. *)
Lemma parse_flags_Namespace fs given env g g' vals :
  parse_flags fs given env g = Ok (g', vals) -> Namespace g' = Namespace g.
Proof.
  revert g vals. induction fs as [|f fs IH]; intros g vals; simpl.
  - by intros [= <- <-].
  - destruct (flag_required f && _); [done|].
    destruct (parse_flags fs given env _) as [[g2 vals2]|e] eqn:Hp; [|done].
    intros [= <- _]. rewrite (IH _ _ Hp).
    destruct (flag_value given env f); [|done]. apply store_destination_keeps.
Qed.

(** C15. The [namespace] flag and [MICRO_CONFIG_NAMESPACE] have no effect
    (lines 233-237): no flag writes [Namespace] and [Run] does not read
    the flag, so after the flags are parsed and [Run] applies its
    overrides, the namespace every sub-command sends is the one the
    package started with, ["global"]. *)
Theorem namespace_flag_ignored fs given env g g' vals :
  parse_flags fs given env g = Ok (g', vals) ->
  Namespace (run_overrides vals g') = Namespace g.
Proof. intros Hp. exact (parse_flags_Namespace _ _ _ _ _ _ Hp). Qed.

(** C18. [mgo_url] is required (line 263): without a command-line or
    environment value the flags do not parse, whatever the others. *)
Theorem mgo_url_required given env g :
  set_value given env flag_mgo_url = None ->
  parse_flags config_flags given env g = Err (required_flag_error "mgo_url").
Proof. intros H. parse_config_flags. by rewrite H. Qed.

(** C19. The defaults of lines 248, 255, 270 and 277: a five-minute cache, a
    two-minute sweep, database [rtss_config] and table [micro_store]. *)
Theorem flag_defaults given env g u :
  set_value given env flag_mgo_url = Some (FString u) ->
  set_value given env flag_cache_duration = None ->
  set_value given env flag_cache_cleanup_interval = None ->
  set_value given env flag_mgo_database = None ->
  set_value given env flag_mgo_table = None ->
  exists g' vals, parse_flags config_flags given env g = Ok (g', vals) /\
    CacheDuration g' = (Minute * 5)%Z /\ CacheCleanupInterval g' = (Minute * 2)%Z /\
    MgoUrl g' = u /\ MgoDatabaseName g' = "rtss_config" /\ MgoTableName g' = "micro_store".
Proof.
  intros Hu Hd Hc Hdb Ht. parse_config_flags. rewrite Hu. unfold flag_value.
  rewrite Hu, Hd, Hc, Hdb, Ht. cbn.
  destruct (set_value given env flag_namespace), (set_value given env flag_watch_topic);
    cbn; by eexists _, _.
Qed.

(** Appending plugins keeps the command's name and the prefix of its
    sub-commands and flags. *)
Lemma add_plugins_prefix plugins c :
  exists subs flags,
    cmd_subcommands (fold_left add_plugin plugins c) = (cmd_subcommands c ++ subs)%list /\
    cmd_flags (fold_left add_plugin plugins c) = (cmd_flags c ++ flags)%list /\
    cmd_name (fold_left add_plugin plugins c) = cmd_name c.
Proof.
  revert c. induction plugins as [|p ps IH]; intros c; simpl.
  - exists [], []. by rewrite !app_nil_r.
  - destruct (IH (add_plugin c p)) as (subs & flags & -> & -> & ->).
    unfold add_plugin. simpl.
    exists ((if (0 <? List.length (plugin_commands p))%nat then plugin_commands p else []) ++ subs)%list,
           ((if (0 <? List.length (plugin_flags p))%nat then plugin_flags p else []) ++ flags)%list.
    split_and!; [..|done];
      destruct (0 <? _)%nat; by rewrite ?app_assoc, ?app_nil_r.
Qed.

(** C20. Plugins extend the command but cannot shadow it (lines 283-291): the
    built-in [set], [get] and [del] are found first, and the flags of
    [Commands] keep their place before the plugins'. *)
Theorem builtins_not_shadowed plugins :
  exists c, Commands plugins = [c] /\
    cmd_name c = "rtss_config" /\
    find_command "set" (cmd_subcommands c) = Some cmd_set /\
    find_command "get" (cmd_subcommands c) = Some cmd_get /\
    find_command "del" (cmd_subcommands c) = Some cmd_del /\
    exists more, cmd_flags c = (config_flags ++ more)%list.
Proof.
  unfold Commands.
  destruct (add_plugins_prefix plugins
    (mkCommand "rtss_config" "Manage configuration values" (Some ActRunService)
       [cmd_set; cmd_get; cmd_del] config_flags)) as (subs & flags & Hs & Hf & Hn).
  eexists. split; [done|]. rewrite Hs, Hf, Hn. by split_and!; [..|exists flags].
Qed.

(** ** Witnesses on concrete inputs *)

Lemma get_read_error_witness :
  getConfig g0 ["feature.x"] tt =
    (tt, [Stdout (if is_not_found_error no_service_error then "not found"
                  else Error no_service_error)], Exit 1).
Proof. apply (get_read_error g0 "feature.x" tt tt no_service_error); [done|reflexivity]. Defined.

Lemma get_no_service_reports_not_found_witness :
  getConfig g0 ["feature.x"] tt = (tt, [Stdout "not found"], Exit 1).
Proof. apply (get_no_service_reports_not_found g0 "feature.x" [] tt). done. Defined.

Lemma Run_builds_service_witness :
  exists g' logs svc, Run [] [] None g0 = (g', logs, Cont svc) /\
    service_name (svc_opts svc) = "go.micro.rtss_config".
Proof.
  destruct (Run [] [] None g0) as [[g' logs] [svc|c]] eqn:HR;
    [|vm_compute in HR; discriminate].
  exists g', logs, svc. split; [done|].
  destruct (Run_builds_service [] [] g0 g' logs svc HR) as (Hn & Hs & _).
  rewrite Hs, Hn. reflexivity.
Defined.

Lemma namespace_flag_ignored_witness :
  exists g' vals, parse_flags config_flags tenant_flags [] g0 = Ok (g', vals) /\
    Namespace (run_overrides vals g') = "global".
Proof.
  destruct (parse_flags config_flags tenant_flags [] g0) as [[g' vals]|e] eqn:HP;
    [|vm_compute in HP; discriminate].
  exists g', vals. split; [done|].
  exact (namespace_flag_ignored config_flags tenant_flags [] g0 g' vals HP).
Defined.

Lemma mgo_url_required_witness :
  parse_flags config_flags [("namespace", FString "tenant-a")] [] g0 =
    Err (required_flag_error "mgo_url").
Proof. apply mgo_url_required. reflexivity. Defined.

Lemma flag_defaults_witness :
  exists g' vals,
    parse_flags config_flags [("mgo_url", FString "mongodb://db:27017")] [] g0 = Ok (g', vals) /\
    CacheDuration g' = (Minute * 5)%Z /\ CacheCleanupInterval g' = (Minute * 2)%Z /\
    MgoUrl g' = "mongodb://db:27017" /\ MgoDatabaseName g' = "rtss_config" /\
    MgoTableName g' = "micro_store".
Proof. apply flag_defaults; reflexivity. Defined.

End Cli.
