(* ===== verification/System.v ===== *)
(** * The service assembled: the RPC handler over the Config Core

    [World] is one running instance of the service as [Run] builds it: the
    backing store (a [MemStore]), the instance's cache, the change events
    it has published and the clock.  [handle_update], [handle_read] and
    [handle_delete] are the RPC methods of [handler.Config] (modelled from
    the spec): they decode the request, call the Config Core and encode
    its result.  They make [World] a [ConfigService], and the Core's
    theorems discharge [ConfigServiceLaws], so every theorem of [Cli]
    holds of the CLI talking to this service.  A [Deployment] pairs an
    instance with the name its server registered under; [dial] is the
    client stub of [proto.NewConfigService], which reaches the server
    only when that name is the one the CLI dials.  The witnesses of the
    development's theorems run the CLI against it on concrete inputs. *)

From S2P Require Import Prelude GoStrings Proto Cache Store Core Cli.

Local Open Scope string_scope.

Module System.

#[local] Existing Instance MemStore.mem_backing_store.
#[local] Existing Instance MemStore.mem_backing_store_laws.

Abbreviation Store := (MemStore.t (K:=Core.Key) (V:=ChangeSet.t)).

Record World := mkWorld {
  w_store : Store;
  w_cache : Core.Cache;
  w_bus : list Core.Event;
  w_now : Z
}.

(** The result of the core as the RPC returns it. *)
Definition to_result {A} (r : A + Core.core_error) : result A :=
  match r with
  | inl a => Ok a
  | inr e => Err (Core.to_go_error e)
  end.

(** [handler.Config.Update]: a request without a change or a change set
    is invalid. *)
Definition handle_update (req : UpdateRequest.t) (w : World) : World * result unit :=
  match UpdateRequest.Change req with
  | Some ch =>
      match Change.ChangeSet ch with
      | Some cs =>
          let '(st', c', evs, r) :=
            Core.update (w_now w) (Core.key_of (Change.Namespace ch) (Change.Path ch)) cs
              (w_store w) (w_cache w) in
          (mkWorld st' c' (w_bus w ++ evs) (w_now w), to_result r)
      | None => (w, Err (Core.to_go_error Core.ErrValidation))
      end
  | None => (w, Err (Core.to_go_error Core.ErrValidation))
  end.

(** [handler.Config.Read] *)
Definition handle_read (req : ReadRequest.t) (w : World) : World * result ReadResponse.t :=
  let ns := ReadRequest.Namespace req in
  let path := ReadRequest.Path req in
  let '(c', r) := Core.read (w_now w) (Core.key_of ns path) (w_store w) (w_cache w) in
  (mkWorld (w_store w) c' (w_bus w) (w_now w),
   to_result (match r with
              | inl cs => inl (ReadResponse.mk (Some (Change.mk ns path (Some cs))))
              | inr e => inr e
              end)).

(** [handler.Config.Delete] *)
Definition handle_delete (req : DeleteRequest.t) (w : World) : World * result unit :=
  match DeleteRequest.Change req with
  | Some ch =>
      let '(st', c', evs, r) :=
        Core.delete (w_now w) (Core.key_of (Change.Namespace ch) (Change.Path ch))
          (w_store w) (w_cache w) in
      (mkWorld st' c' (w_bus w ++ evs) (w_now w), to_result r)
  | None => (w, Err (Core.to_go_error Core.ErrValidation))
  end.

#[export] Instance world_service : ConfigService World := {
  Update := handle_update;
  Read := handle_read;
  Delete := handle_delete
}.

(** A fresh instance as [Run] starts it with the default flags: an empty
    store, the five-minute cache, no event, the clock at [now]. *)
Definition boot (now : Z) : World :=
  mkWorld (MemStore.mk ∅ true) (GoCache.New (Cli.Minute * 5) (Cli.Minute * 2)) [] now.

(** The output of a CLI command: its printed lines and how it ended. *)
Definition cli_output {A} (r : World * list line * outcome A) : list line * outcome A :=
  (snd (fst r), snd r).

(** The clock of the witnesses: 100 seconds after the epoch. *)
Definition now0 : Z := 100000000000.

(** The package state after the default flags are parsed with an
    [mgo_url]: what [Run] starts from (see [Cli.flag_defaults]). *)
Definition g_run : Cli.Globals :=
  Cli.mkGlobals "go.micro.rtss_config" "store" "global" "mongodb://db:27017"
    "rtss_config" "micro_store" (Cli.Minute * 5) (Cli.Minute * 2) "go.micro.rtss_config.watch".

(** The change set another instance writes in the witnesses. *)
Definition cs_false : ChangeSet.t := ChangeSet.mk "false" "json" "cli" 101.

(** Half a second after [now0]: the same second for [time.Now().Unix()]. *)
Definition now0_half : Z := now0 + 500000000.

(** A deployment as the client sees it: the name the server registered
    under ([micro.Name], set by [Run]) and the instance behind it. *)
Record Deployment := mkDeployment { registered : string; d_world : World }.

(** The client stub of [proto.NewConfigService(name, client)] (lines 78,
    117, 169): go-micro's selector sends the call to the server registered
    under the name the CLI dials, [Cli.client_service]; when none is, the
    call fails with the selector's error. *)
Definition dial {A} (d : Deployment) (call : World -> World * result A) : Deployment * result A :=
  if String.eqb (registered d) Cli.client_service
  then let '(w', r) := call (d_world d) in (mkDeployment (registered d) w', r)
  else (d, Err Cli.no_service_error).

#[export] Instance deployment_service : ConfigService Deployment := {
  Update := fun req d => dial d (handle_update req);
  Read := fun req d => dial d (handle_read req);
  Delete := fun req d => dial d (handle_delete req)
}.

(** ** The handler keeps the service's promises *)

Lemma to_result_ok {A} (r : A + Core.core_error) (a : A) : to_result r = Ok a -> r = inl a.
Proof. destruct r; simpl; congruence. Qed.

(** The Config Core implements the contract the CLI relies on: the laws
    follow from [Core.read_after_update], [Core.read_after_delete] and
    [Core.delete_idempotent]. *)
#[export] Instance world_service_laws : ConfigServiceLaws World.
Proof.
  split.
  - intros ns path cs w w' Hp. cbn. unfold handle_update. simpl.
    destruct (Core.update _ _ _ _ _) as [[[st' c'] evs] r] eqn:HU.
    intros [= <- Hr]. apply to_result_ok in Hr as ->.
    unfold handle_read. simpl.
    rewrite (Core.read_after_update _ _ _ _ _ _ _ _ _ HU). by eexists.
  - intros ns path w w'. cbn. unfold handle_delete. simpl.
    destruct (Core.delete _ _ _ _) as [[[st' c'] evs] r] eqn:HD.
    intros [= <- Hr]. apply to_result_ok in Hr as ->.
    unfold handle_read. simpl.
    rewrite (Core.read_after_delete _ (w_now w) _ _ _ _ _ _ HD).
    by eexists _, _.
  - intros ns path w w'. cbn. unfold handle_delete. simpl.
    destruct (Core.delete _ _ _ _) as [[[st' c'] evs] r] eqn:HD.
    intros [= <- Hr]. apply to_result_ok in Hr as ->. simpl.
    rewrite (Core.delete_idempotent _ (w_now w) _ _ _ _ _ _ HD). by eexists.
Qed.

(** ** The CLI against the handler: witnesses on concrete inputs *)

Lemma set_then_get_witness :
  exists s2, Cli.getConfig Cli.g0 ["feature.x"]
    (fst (fst (Cli.setConfig Cli.g0 now0 ["feature.x"; "true"] (boot now0)))) =
    (s2, [Stdout "true"], Cont tt).
Proof.
  eapply (Cli.set_then_get Cli.g0 now0 "feature.x" "true" [] (boot now0));
    [done|done|done|vm_compute; reflexivity].
Defined.

Lemma set_null_then_get_not_found_witness :
  exists s2, Cli.getConfig Cli.g0 ["feature.x"]
    (fst (fst (Cli.setConfig Cli.g0 now0 ["feature.x"; "null"] (boot now0)))) =
    (s2, [Stdout "not found"], Exit 1).
Proof.
  eapply (Cli.set_null_then_get_not_found Cli.g0 now0 "feature.x" "null" [] (boot now0));
    [done|by right|vm_compute; reflexivity].
Defined.

Lemma del_then_get_witness :
  exists s2, Cli.getConfig Cli.g0 ["feature.x"]
    (fst (fst (Cli.delConfig Cli.g0 ["feature.x"] (boot now0)))) =
    (s2, [Stdout "not found"], Exit 1).
Proof.
  eapply (Cli.del_then_get Cli.g0 "feature.x" [] (boot now0)). vm_compute. reflexivity.
Defined.

Lemma del_twice_witness :
  exists s2 s3, Cli.delConfig Cli.g0 ["feature.x"]
    (fst (fst (Cli.delConfig Cli.g0 ["feature.x"] (boot now0)))) = (s2, [], Cont tt) /\
    Cli.getConfig Cli.g0 ["feature.x"] s2 = (s3, [Stdout "not found"], Exit 1).
Proof.
  eapply (Cli.del_twice Cli.g0 "feature.x" [] (boot now0)). vm_compute. reflexivity.
Defined.

(** ** End-to-end properties of the service [Run] builds *)

Lemma update_world g now key val (w w1 : World) :
  handle_update (Cli.set_request g key val now) w = (w1, Ok tt) ->
  exists st' c' evs,
    Core.update (w_now w) (Core.key_of (Cli.Namespace g) key)
      (Cli.set_changeset val now) (w_store w) (w_cache w)
      = (st', c', evs, inl tt) /\
    w1 = mkWorld st' c' (w_bus w ++ evs) (w_now w).
Proof.
  unfold handle_update. simpl.
  destruct (Core.update _ _ _ _ _) as [[[st' c'] evs] r] eqn:HU.
  intros [= <- Hr]. apply to_result_ok in Hr as ->. by exists st', c', evs.
Qed.

Lemma get_world_value g key (w : World) c' cs :
  key <> "" -> ChangeSet.Data cs <> "" -> ChangeSet.Data cs <> "null" ->
  Core.read (w_now w) (Core.key_of (Cli.Namespace g) key) (w_store w) (w_cache w) = (c', inl cs) ->
  exists w', Cli.getConfig g [key] w = (w', [Stdout (ChangeSet.Data cs)], Cont tt).
Proof.
  intros Hk He Hn HR. unfold Cli.getConfig. rewrite Cli.require_args_cons. simpl.
  rewrite Cli.require_key_ok by done. go_run. unfold handle_read. simpl.
  rewrite HR. simpl. rewrite Cli.print_change_value by done. by eexists.
Qed.

Lemma is_null_payload_false cs :
  ChangeSet.Data cs <> "" -> ChangeSet.Data cs <> "null" -> Core.is_null_payload cs = false.
Proof.
  intros He Hn. unfold Core.is_null_payload.
  by rewrite (proj2 (String.eqb_neq _ _) He), (proj2 (String.eqb_neq _ _) Hn).
Qed.

(** C2. Staleness is bounded by [--cache_duration] (spec 3, 8): on an
    instance whose cache is the one [Run] builds, after [set key val], a
    value [cs'] written to the store by another instance is not seen by
    [get key] while the cached entry lives, and is printed by the first
    [get] after [CacheDuration] has elapsed. *)
Theorem cli_staleness_bound g now key val cs' (w w1 : World) out st2 t :
  (0 <= w_now w)%Z -> (0 < Cli.CacheDuration g)%Z ->
  w_cache w = Cli.h_cache (Cli.new_handler g) ->
  key <> "" -> val <> "" -> val <> "null" ->
  ChangeSet.Data cs' <> "" -> ChangeSet.Data cs' <> "null" ->
  Cli.setConfig g now [key; val] w = (w1, out, Cont tt) ->
  MemStore.put (Core.key_of (Cli.Namespace g) key) cs' (w_store w1) = Ok st2 ->
  ((t <= w_now w + Cli.CacheDuration g)%Z ->
     exists w3, Cli.getConfig g [key] (mkWorld st2 (w_cache w1) (w_bus w1) t) =
       (w3, [Stdout val], Cont tt)) /\
  ((w_now w + Cli.CacheDuration g < t)%Z ->
     exists w3, Cli.getConfig g [key] (mkWorld st2 (w_cache w1) (w_bus w1) t) =
       (w3, [Stdout (ChangeSet.Data cs')], Cont tt)).
Proof.
  intros Hnow Hd Hc Hk Hv Hn Hv' Hn' (HU & _)%Cli.setConfig_ok Hp.
  destruct (update_world _ _ _ _ _ _ HU) as (st' & c' & evs & HC & ->). simpl in Hp |- *.
  assert (GoCache.defaultExpiration (w_cache w) = Cli.CacheDuration g) as Hde.
  { rewrite Hc. simpl. destruct (Z.eqb_spec (Cli.CacheDuration g) 0); [lia|done]. }
  destruct (Core.read_staleness_bound (w_now w) t _ _ cs' (w_store w) (w_cache w) _ _ _ st2
              Hnow ltac:(lia) HC Hp (is_null_payload_false _ Hv' Hn')) as [Hlive Hexp].
  rewrite Hde in Hlive, Hexp. split; intros Ht.
  - apply (get_world_value g key (mkWorld st2 c' _ t) c' (Cli.set_changeset val now));
      [done..|].
    simpl. by apply Hlive.
  - specialize (Hexp Ht). simpl.
    destruct (Core.read t _ st2 c') as [c'' r] eqn:HR. simpl in Hexp. subst r.
    by apply (get_world_value g key (mkWorld st2 c' _ t) c'').
Qed.

Lemma cli_staleness_bound_witness :
  let w1 := fst (fst (Cli.setConfig g_run now0 ["feature.x"; "true"] (boot now0))) in
  let st2 := MemStore.mk (<[Core.key_of "global" "feature.x" := cs_false]>
                            (MemStore.records (w_store w1))) true in
  (exists w3, Cli.getConfig g_run ["feature.x"] (mkWorld st2 (w_cache w1) (w_bus w1) (now0 + 1)) =
     (w3, [Stdout "true"], Cont tt)) /\
  (exists w3, Cli.getConfig g_run ["feature.x"]
       (mkWorld st2 (w_cache w1) (w_bus w1) (now0 + Cli.Minute * 6)) =
     (w3, [Stdout "false"], Cont tt)).
Proof.
  intros w1 st2. split.
  - apply (cli_staleness_bound g_run now0 "feature.x" "true" cs_false (boot now0) w1 [] st2
             (now0 + 1)); try done; try (vm_compute; reflexivity).
  - apply (cli_staleness_bound g_run now0 "feature.x" "true" cs_false (boot now0) w1 [] st2
             (now0 + Cli.Minute * 6)); try done; try (vm_compute; reflexivity).
Defined.

(** The event a successful [set] publishes: its value with the CLI's
    timestamp in seconds. *)
Lemma set_publishes g now key val (w w1 : World) out :
  Cli.setConfig g now [key; val] w = (w1, out, Cont tt) ->
  w_bus w1 = (w_bus w ++
    [Core.mkEvent (Core.key_of (Cli.Namespace g) key)
       (Some (Cli.set_changeset val now)) (ChangeSet.Timestamp (Cli.set_changeset val now))])%list.
Proof.
  intros (HU & _)%Cli.setConfig_ok.
  destruct (update_world _ _ _ _ _ _ HU) as (st' & c' & evs & HC & ->).
  by destruct (Core.update_success _ _ _ _ _ _ _ _ HC) as (_ & _ & _ & ->).
Qed.

(** C5. Two [set]s of different values within one second do not converge
    (spec 3 keeps the cached value on a tie; the CLI stamps
    [time.Now().Unix()], line 104): an instance that has nothing cached
    ends with the value of whichever event it receives first. *)
Theorem same_second_sets_diverge g key v1 v2 now1 now2 (wa wa1 wb wb1 : World) o1 o2 :
  Core.unix_seconds now1 = Core.unix_seconds now2 -> v1 <> v2 ->
  Cli.setConfig g now1 [key; v1] wa = (wa1, o1, Cont tt) ->
  Cli.setConfig g now2 [key; v2] wb = (wb1, o2, Cont tt) ->
  exists e1 e2, w_bus wa1 = (w_bus wa ++ [e1])%list /\ w_bus wb1 = (w_bus wb ++ [e2])%list /\
    forall nowc (c : Core.Cache),
      GoCache.Get nowc (Core.key_of (Cli.Namespace g) key) c = None ->
      GoCache.Get nowc (Core.key_of (Cli.Namespace g) key)
        (Core.apply_event nowc e1 (Core.apply_event nowc e2 c)) <>
      GoCache.Get nowc (Core.key_of (Cli.Namespace g) key)
        (Core.apply_event nowc e2 (Core.apply_event nowc e1 c)).
Proof.
  intros Hts Hv Ha Hb. rewrite (set_publishes _ _ _ _ _ _ _ Ha), (set_publishes _ _ _ _ _ _ _ Hb).
  eexists _, _. split_and!; [done..|]. intros nowc c Hc.
  rewrite !(Core.apply_value_fresh nowc _ _ _ c) by done.
  rewrite !Core.apply_value_tie by (simpl; lia).
  rewrite !GoCache.Get_Set_now. intros [= ?]. by apply Hv.
Qed.

(** C11. Sets at different seconds converge (spec 4.4): whatever the order in
    which an instance receives the two events, its cache ends the same. *)
Theorem distinct_second_sets_commute g key v1 v2 now1 now2 (wa wa1 wb wb1 : World) o1 o2 :
  Core.unix_seconds now1 <> Core.unix_seconds now2 ->
  Cli.setConfig g now1 [key; v1] wa = (wa1, o1, Cont tt) ->
  Cli.setConfig g now2 [key; v2] wb = (wb1, o2, Cont tt) ->
  exists e1 e2, w_bus wa1 = (w_bus wa ++ [e1])%list /\ w_bus wb1 = (w_bus wb ++ [e2])%list /\
    forall nowc (c : Core.Cache),
      Core.apply_event nowc e1 (Core.apply_event nowc e2 c) =
      Core.apply_event nowc e2 (Core.apply_event nowc e1 c).
Proof.
  intros Hts Ha Hb. rewrite (set_publishes _ _ _ _ _ _ _ Ha), (set_publishes _ _ _ _ _ _ _ Hb).
  eexists _, _. split_and!; [done..|]. intros nowc c.
  by apply Core.apply_commute.
Qed.

(** The tombstone a successful [del] publishes, and the store it leaves. *)
Lemma del_publishes g key (w1 w2 : World) out :
  Cli.delConfig g [key] w1 = (w2, out, Cont tt) ->
  key <> "" /\ MemStore.available (w_store w2) = true /\
  MemStore.records (w_store w2) !! Core.key_of (Cli.Namespace g) key = None /\
  exists ts, w_bus w2 = (w_bus w1 ++ [Core.mkEvent (Core.key_of (Cli.Namespace g) key) None ts])%list.
Proof.
  intros (Hk & HD & _)%Cli.delConfig_ok. cbn in HD. unfold handle_delete, Core.delete in HD.
  simpl in HD. rewrite Core.valid_key_of in HD by done. simpl in HD.
  change (store_delete ?k ?st) with (MemStore.del k st) in HD. unfold MemStore.del in HD.
  destruct (MemStore.available (w_store w1)); simpl in HD; [|done].
  injection HD as <-. simpl. split_and!; [done|done|apply lookup_delete_eq|by eexists].
Qed.

(** A [get] of a key neither cached nor stored prints "not found". *)
Lemma get_not_found g key (w : World) :
  key <> "" -> MemStore.available (w_store w) = true ->
  MemStore.records (w_store w) !! Core.key_of (Cli.Namespace g) key = None ->
  GoCache.Get (w_now w) (Core.key_of (Cli.Namespace g) key) (w_cache w) = None ->
  exists w', Cli.getConfig g [key] w = (w', [Stdout "not found"], Exit 1).
Proof.
  intros Hk Ha Hr Hg. rewrite Cli.getConfig_report by done. cbn. unfold handle_read, Core.read.
  simpl. rewrite Core.valid_key_of by done. simpl. rewrite Hg.
  change (store_get ?k ?st) with (MemStore.get k st). unfold MemStore.get. rewrite Ha, Hr.
  by eexists.
Qed.

(** C6. A deleted value comes back (against spec 4.4's convergence claim):
    when an instance has run [set key val] and then [del key], another
    instance that receives the two events in publish order answers
    [get key] with "not found", whatever its cache held; one that
    receives the tombstone first caches the deleted value again, however
    old its timestamp, and prints it while the store has no entry. *)
Theorem deleted_value_resurrected g now key val (w w1 w2 : World) o1 o2 :
  val <> "" -> val <> "null" ->
  Cli.setConfig g now [key; val] w = (w1, o1, Cont tt) ->
  Cli.delConfig g [key] w1 = (w2, o2, Cont tt) ->
  exists ev tomb, w_bus w2 = (w_bus w ++ [ev; tomb])%list /\
    forall nowb (c : Core.Cache),
      (exists w', Cli.getConfig g [key]
          (mkWorld (w_store w2) (Core.apply_event nowb tomb (Core.apply_event nowb ev c)) [] nowb) =
        (w', [Stdout "not found"], Exit 1)) /\
      (exists w', Cli.getConfig g [key]
          (mkWorld (w_store w2) (Core.apply_event nowb ev (Core.apply_event nowb tomb c)) [] nowb) =
        (w', [Stdout val], Cont tt)).
Proof.
  intros Hv Hn Hset Hdel. pose proof (set_publishes _ _ _ _ _ _ _ Hset) as Hb1.
  destruct (del_publishes _ _ _ _ _ Hdel) as (Hk & Ha & Hnone & ts & Hb2).
  eexists _, _. split; [by rewrite Hb2, Hb1, <- app_assoc|]. intros nowb c. split.
  - apply get_not_found; [done..|]. apply Core.Get_apply_tombstone.
  - rewrite Core.apply_value_fresh by apply Core.Get_apply_tombstone.
    eapply (get_world_value g key _ _ (Cli.set_changeset val now)); [done|exact Hv|exact Hn|]. simpl.
    unfold Core.read. rewrite Core.valid_key_of by done. simpl.
    by rewrite GoCache.Get_Set_now.
Qed.

(** C8. [set] has no blank-key guard (lines 87-107; [get] and [del] have
    one, lines 129-131 and 181-183): with an empty key it sends the
    [Update] with an empty path to the service, whose handler rejects it;
    the CLI prints the server's validation error and exits 1, and the
    instance is unchanged. *)
Theorem set_blank_key_reaches_server g now rest (w : World) :
  Cli.setConfig g now ("" :: rest) w = (w, [Stdout (Error (Core.to_go_error Core.ErrValidation))], Exit 1).
Proof.
  unfold Cli.setConfig. rewrite Cli.require_args_cons. go_run. cbn.
  unfold handle_update, Core.update. simpl.
  unfold Core.valid_key. simpl.
  destruct w. simpl. by rewrite app_nil_r.
Qed.

(** C16. The CLI cannot reach a renamed server: with a non-empty
    [server_name] other than [go.micro.rtss_config], [Run] registers the
    service under that name, while [set], [get] and [del] dial
    [go.micro.rtss_config] (lines 78, 117, 169).  Whatever the instance
    holds, [get] of every key then prints "not found" (the selector's
    error contains those words, line 144) and [set] of every key fails
    with the selector's error; the deployment is unchanged. *)
Theorem server_name_unreachable vals opts g g' logs svc (w : World) key rest :
  Cli.ctx_String vals "server_name" <> "" ->
  Cli.ctx_String vals "server_name" <> Cli.client_service ->
  Cli.Run vals opts None g = (g', logs, Cont svc) -> key <> "" ->
  Cli.getConfig g' (key :: rest) (mkDeployment (Cli.service_name (Cli.svc_opts svc)) w) =
    (mkDeployment (Cli.service_name (Cli.svc_opts svc)) w, [Stdout "not found"], Exit 1) /\
  forall now rest', Cli.setConfig g' now (key :: rest') (mkDeployment (Cli.service_name (Cli.svc_opts svc)) w) =
    (mkDeployment (Cli.service_name (Cli.svc_opts svc)) w, [Stdout (Error Cli.no_service_error)], Exit 1).
Proof.
  intros Hne Hc HR Hk.
  assert (String.eqb (Cli.service_name (Cli.svc_opts svc)) Cli.client_service = false) as Hd.
  { rewrite (Cli.Run_registers_server_name _ _ _ _ _ _ Hne HR). by apply String.eqb_neq. }
  split.
  - rewrite Cli.getConfig_report by done. cbn. unfold dial. simpl. rewrite Hd. simpl.
    reflexivity.
  - intros now rest'. unfold Cli.setConfig. rewrite Cli.require_args_cons. go_run. cbn.
    unfold dial. simpl. by rewrite Hd.
Qed.

Lemma same_second_sets_diverge_witness :
  let wa1 := fst (fst (Cli.setConfig Cli.g0 now0 ["feature.x"; "true"] (boot now0))) in
  let wb1 := fst (fst (Cli.setConfig Cli.g0 now0_half ["feature.x"; "false"] (boot now0))) in
  exists e1 e2, w_bus wa1 = [e1] /\ w_bus wb1 = [e2] /\
    forall nowc (c : Core.Cache),
      GoCache.Get nowc (Core.key_of "global" "feature.x") c = None ->
      GoCache.Get nowc (Core.key_of "global" "feature.x")
        (Core.apply_event nowc e1 (Core.apply_event nowc e2 c)) <>
      GoCache.Get nowc (Core.key_of "global" "feature.x")
        (Core.apply_event nowc e2 (Core.apply_event nowc e1 c)).
Proof.
  intros wa1 wb1.
  apply (same_second_sets_diverge Cli.g0 "feature.x" "true" "false" now0 now0_half
           (boot now0) wa1 (boot now0) wb1 [] []);
    [reflexivity|done|vm_compute; reflexivity|vm_compute; reflexivity].
Defined.

Lemma distinct_second_sets_commute_witness :
  let wa1 := fst (fst (Cli.setConfig Cli.g0 now0 ["feature.x"; "true"] (boot now0))) in
  let wb1 := fst (fst (Cli.setConfig Cli.g0 (now0 + Cli.Minute) ["feature.x"; "false"]
                         (boot now0))) in
  exists e1 e2, w_bus wa1 = [e1] /\ w_bus wb1 = [e2] /\
    forall nowc (c : Core.Cache),
      Core.apply_event nowc e1 (Core.apply_event nowc e2 c) =
      Core.apply_event nowc e2 (Core.apply_event nowc e1 c).
Proof.
  intros wa1 wb1.
  apply (distinct_second_sets_commute Cli.g0 "feature.x" "true" "false" now0
           (now0 + Cli.Minute) (boot now0) wa1 (boot now0) wb1 [] []);
    [done|vm_compute; reflexivity|vm_compute; reflexivity].
Defined.

Lemma deleted_value_resurrected_witness :
  let w1 := fst (fst (Cli.setConfig Cli.g0 now0 ["feature.x"; "true"] (boot now0))) in
  let w2 := fst (fst (Cli.delConfig Cli.g0 ["feature.x"] w1)) in
  exists ev tomb, w_bus w2 = ([] ++ [ev; tomb])%list /\
    forall nowb (c : Core.Cache),
      (exists w', Cli.getConfig Cli.g0 ["feature.x"]
          (mkWorld (w_store w2) (Core.apply_event nowb tomb (Core.apply_event nowb ev c)) [] nowb) =
        (w', [Stdout "not found"], Exit 1)) /\
      (exists w', Cli.getConfig Cli.g0 ["feature.x"]
          (mkWorld (w_store w2) (Core.apply_event nowb ev (Core.apply_event nowb tomb c)) [] nowb) =
        (w', [Stdout "true"], Cont tt)).
Proof.
  intros w1 w2.
  apply (deleted_value_resurrected Cli.g0 now0 "feature.x" "true" (boot now0) w1 w2 [] []);
    [done|done|vm_compute; reflexivity|vm_compute; reflexivity].
Defined.

Lemma server_name_unreachable_witness :
  exists g' logs svc, Cli.Run Cli.renamed [] None Cli.g0 = (g', logs, Cont svc) /\
    Cli.getConfig g' ["feature.x"] (mkDeployment (Cli.service_name (Cli.svc_opts svc)) (boot now0)) =
      (mkDeployment (Cli.service_name (Cli.svc_opts svc)) (boot now0), [Stdout "not found"], Exit 1) /\
    forall now rest', Cli.setConfig g' now ("feature.x" :: rest')
        (mkDeployment (Cli.service_name (Cli.svc_opts svc)) (boot now0)) =
      (mkDeployment (Cli.service_name (Cli.svc_opts svc)) (boot now0),
       [Stdout (Error Cli.no_service_error)], Exit 1).
Proof.
  destruct (Cli.Run Cli.renamed [] None Cli.g0) as [[g' logs] [svc|c]] eqn:HR;
    [|vm_compute in HR; discriminate].
  exists g', logs, svc. split; [done|].
  apply (server_name_unreachable Cli.renamed [] Cli.g0 g' logs svc (boot now0) "feature.x" []);
    [by vm_compute|by vm_compute|exact HR|done].
Defined.

End System.
