(* ===== verification/Cluster.v ===== *)
(** * Several instances of the service: a step relation

    Spec section 2: every instance runs the Config Core over the one
    shared backing store; the notification channel broadcasts every
    change event to every instance, at least once, in any order.  A
    [Cluster] holds the shared store, one cache per instance, every event
    published so far (delivery does not consume an event, so it may be
    delivered again) and the clock.  [step] is one move of the system:
    a CLI command of [config.go] ([set], [get] or [del]) served by
    instance [i], the delivery of any published event to any instance,
    the janitor's sweep on an instance, the passing of time, or the store
    going down or coming back.

    The invariants, proved by induction on [reachable], are the spec's:
    no event with an empty path is published and no such key is stored
    (spec 3), and every cached entry expires at most [CacheDuration]
    after the current time.  From them: once [CacheDuration] has passed,
    every instance's [get] answers what the store holds.  Independently
    of the invariant: a successful [set] publishes its event, and its
    delivery to an instance that caches nothing newer makes that
    instance's [get] print the new value. *)

From S2P Require Import Prelude GoStrings Proto Cache Store Core Cli System.

Local Open Scope string_scope.

Module Cluster.

#[local] Existing Instance MemStore.mem_backing_store.
#[local] Existing Instance MemStore.mem_backing_store_laws.
#[local] Existing Instance System.world_service.

Record Cluster := mkCluster {
  cl_store : System.Store;
  cl_caches : list Core.Cache;
  cl_bus : list Core.Event;
  cl_now : Z
}.

(** Instance [i] as a [World]: the shared store, its cache, no event
    published yet by this call, the cluster's clock. *)
Definition node_world (cl : Cluster) (c : Core.Cache) : System.World :=
  System.mkWorld (cl_store cl) c [] (cl_now cl).

(** A CLI command served by instance [i]: the store and the instance's
    cache are updated and the events it published are broadcast. *)
Definition run_on (cl : Cluster) (i : nat) (cmd : prog System.World unit) : option Cluster :=
  match cl_caches cl !! i with
  | None => None
  | Some c =>
      let w' := fst (fst (cmd (node_world cl c))) in
      Some (mkCluster (System.w_store w') (<[i := System.w_cache w']> (cl_caches cl))
              (cl_bus cl ++ System.w_bus w') (cl_now cl))
  end.

Definition with_cache (cl : Cluster) (i : nat) (c : Core.Cache) : Cluster :=
  mkCluster (cl_store cl) (<[i := c]> (cl_caches cl)) (cl_bus cl) (cl_now cl).

(** [dt] nanoseconds pass. *)
Definition tick (cl : Cluster) (dt : Z) : Cluster :=
  mkCluster (cl_store cl) (cl_caches cl) (cl_bus cl) (cl_now cl + dt).

Inductive step (g : Cli.Globals) : Cluster -> Cluster -> Prop :=
| step_set cl cl' i now args :
    run_on cl i (Cli.setConfig g now args) = Some cl' -> step g cl cl'
| step_get cl cl' i args :
    run_on cl i (Cli.getConfig g args) = Some cl' -> step g cl cl'
| step_del cl cl' i args :
    run_on cl i (Cli.delConfig g args) = Some cl' -> step g cl cl'
| step_deliver cl i c ev :
    cl_caches cl !! i = Some c -> ev ∈ cl_bus cl ->
    step g cl (with_cache cl i (Core.apply_event (cl_now cl) ev c))
| step_sweep cl i c :
    cl_caches cl !! i = Some c ->
    step g cl (with_cache cl i (GoCache.DeleteExpired (cl_now cl) c))
| step_tick cl dt :
    (0 <= dt)%Z -> step g cl (tick cl dt)
| step_availability cl b :
    step g cl (mkCluster (MemStore.set_available b (cl_store cl)) (cl_caches cl)
                 (cl_bus cl) (cl_now cl)).

(** [n] instances started by [Run] with the globals [g], at time [now]. *)
Definition init (g : Cli.Globals) (n : nat) (now : Z) : Cluster :=
  mkCluster (MemStore.mk ∅ true) (replicate n (Cli.h_cache (Cli.new_handler g))) [] now.

Inductive reachable (g : Cli.Globals) : Cluster -> Prop :=
| reach_init n now : (0 <= now)%Z -> reachable g (init g n now)
| reach_step cl cl' : reachable g cl -> step g cl cl' -> reachable g cl'.

(** Two instances started with the default flags of [config.go] at
    [System.now0]; then instance 0 runs [micro config set max_conn 10]. *)
Definition demo0 : Cluster := init System.g_run 2 System.now0.

Definition demo1 : Cluster :=
  default demo0 (run_on demo0 0 (Cli.setConfig System.g_run System.now0 ["max_conn"; "10"])).

Definition demo_key : Core.Key := Core.key_of "global" "max_conn".

(** A cache as [Run] creates it, and instance 0's cache in [demo1]. *)
Definition fresh_cache : Core.Cache := Cli.h_cache (Cli.new_handler System.g_run).

Definition demo_cache0 : Core.Cache :=
  GoCache.Set_ System.now0 demo_key (Cli.set_changeset "10" System.now0)
    GoCache.DefaultExpiration fresh_cache.

(** ** The invariant *)

Definition valid_event (ev : Core.Event) : Prop :=
  (Core.ev_key ev).2 <> "" /\ Core.wf_event ev.

(** A cached entry expires, and no later than [d] after [now]. *)
Definition item_bounded (now d : Z) (it : GoCache.Item (V:=ChangeSet.t)) : Prop :=
  (0 < GoCache.Expiration it <= now + d)%Z.

Definition cache_ok (now d : Z) (c : Core.Cache) : Prop :=
  GoCache.defaultExpiration c = d /\
  map_Forall (fun _ it => item_bounded now d it) (GoCache.items c).

Definition store_ok (st : System.Store) : Prop :=
  map_Forall (fun (k : Core.Key) _ => k.2 <> "") (MemStore.records st).

(** An instance's world at the time [now]: the handlers never move the
    clock. *)
Definition world_ok (d now : Z) (w : System.World) : Prop :=
  System.w_now w = now /\ (0 <= now)%Z /\ store_ok (System.w_store w) /\
  cache_ok now d (System.w_cache w) /\ Forall valid_event (System.w_bus w).

Definition cluster_ok (d : Z) (cl : Cluster) : Prop :=
  (0 <= cl_now cl)%Z /\ store_ok (cl_store cl) /\
  Forall (cache_ok (cl_now cl) d) (cl_caches cl) /\ Forall valid_event (cl_bus cl).

(** ** Lemmas: each operation keeps the invariant *)

Lemma cache_ok_Set (now d : Z) (k : Core.Key) (x : ChangeSet.t) (c : Core.Cache) :
  (0 <= now)%Z -> (0 < d)%Z -> cache_ok now d c ->
  cache_ok now d (GoCache.Set_ now k x GoCache.DefaultExpiration c).
Proof.
  intros Hnow Hd [Hde Hall]. split; [done|]. simpl.
  apply map_Forall_insert_2; [|done]. unfold item_bounded. simpl.
  rewrite GoCache.expiration_of_default by lia. lia.
Qed.

Lemma cache_ok_Delete (now d : Z) (k : Core.Key) (c : Core.Cache) :
  cache_ok now d c -> cache_ok now d (GoCache.Delete k c).
Proof. intros [Hde Hall]. split; [done|]. by apply map_Forall_delete. Qed.

Lemma cache_ok_DeleteExpired (now now' d : Z) (c : Core.Cache) :
  cache_ok now d c -> cache_ok now d (GoCache.DeleteExpired now' c).
Proof.
  intros [Hde Hall]. split; [done|]. intros k it Hk. simpl in Hk.
  apply map_lookup_filter_Some in Hk as [Hk _]. by apply (Hall k).
Qed.

Lemma cache_ok_later (now now' d : Z) (c : Core.Cache) :
  (now <= now')%Z -> cache_ok now d c -> cache_ok now' d c.
Proof.
  intros Hle [Hde Hall]. split; [done|]. intros k it Hk.
  specialize (Hall k it Hk). unfold item_bounded in *. lia.
Qed.

Lemma cache_ok_apply (now d : Z) (ev : Core.Event) (c : Core.Cache) :
  (0 <= now)%Z -> (0 < d)%Z -> cache_ok now d c -> cache_ok now d (Core.apply_event now ev c).
Proof.
  intros Hnow Hd Hc. unfold Core.apply_event.
  destruct (Core.ev_value ev); [|by apply cache_ok_Delete].
  destruct (GoCache.Get _ _ _); [destruct (_ <? _)%Z|]; try done; by apply cache_ok_Set.
Qed.

Lemma core_update_ok (now d : Z) (k : Core.Key) (cs : ChangeSet.t) (st st' : System.Store)
    (c c' : Core.Cache) (evs : list Core.Event) (r : unit + Core.core_error) :
  (0 <= now)%Z -> (0 < d)%Z -> store_ok st -> cache_ok now d c ->
  Core.update now k cs st c = (st', c', evs, r) ->
  store_ok st' /\ cache_ok now d c' /\ Forall valid_event evs.
Proof.
  intros Hnow Hd Hst Hc. unfold Core.update.
  destruct (Core.valid_key k) eqn:Hk; simpl; [|by intros [= <- <- <- _]].
  destruct (MemStore.put k cs st) as [st1|e] eqn:Hp; simpl; [|by intros [= <- <- <- _]].
  intros [= <- <- <- _]. apply Core.valid_key_true in Hk. split_and!.
  - unfold store_ok. rewrite (MemStore.put_records _ _ _ _ Hp). by apply map_Forall_insert_2.
  - by apply cache_ok_Set.
  - repeat constructor; done.
Qed.

Lemma core_read_ok (now d : Z) (k : Core.Key) (st : System.Store) (c c' : Core.Cache)
    (r : ChangeSet.t + Core.core_error) :
  (0 <= now)%Z -> (0 < d)%Z -> cache_ok now d c ->
  Core.read now k st c = (c', r) -> cache_ok now d c'.
Proof.
  intros Hnow Hd Hc. unfold Core.read.
  destruct (negb _); [by intros [= <- _]|].
  destruct (GoCache.Get _ _ _); [by intros [= <- _]|].
  destruct (store_get k st) as [[cs|]|e]; simpl; [|by intros [= <- _]..].
  destruct (Core.is_null_payload cs); [by intros [= <- _]|].
  intros [= <- _]. by apply cache_ok_Set.
Qed.

Lemma core_delete_ok (now d : Z) (k : Core.Key) (st st' : System.Store)
    (c c' : Core.Cache) (evs : list Core.Event) (r : unit + Core.core_error) :
  store_ok st -> cache_ok now d c ->
  Core.delete now k st c = (st', c', evs, r) ->
  store_ok st' /\ cache_ok now d c' /\ Forall valid_event evs.
Proof.
  intros Hst Hc. unfold Core.delete.
  destruct (Core.valid_key k) eqn:Hk; simpl; [|by intros [= <- <- <- _]].
  destruct (MemStore.del k st) as [st1|e] eqn:Hp; simpl; [|by intros [= <- <- <- _]].
  intros [= <- <- <- _]. apply Core.valid_key_true in Hk. split_and!.
  - unfold store_ok. rewrite (MemStore.del_records _ _ _ Hp). by apply map_Forall_delete.
  - by apply cache_ok_Delete.
  - repeat constructor; done.
Qed.

Lemma handle_update_ok (d t : Z) (req : UpdateRequest.t) (w : System.World) :
  (0 < d)%Z -> world_ok d t w -> world_ok d t (fst (System.handle_update req w)).
Proof.
  intros Hd (<- & Hnow & Hst & Hc & Hbus). unfold System.handle_update.
  destruct (UpdateRequest.Change req) as [ch|]; [|done].
  destruct (Change.ChangeSet ch) as [cs|]; [|done].
  destruct (Core.update _ _ _ _ _) as [[[st' c'] evs] r] eqn:Hu. simpl.
  destruct (core_update_ok _ d _ _ _ _ _ _ _ _ Hnow Hd Hst Hc Hu) as (? & ? & ?).
  split_and!; [done..|]. by apply Forall_app.
Qed.

Lemma handle_read_ok (d t : Z) (req : ReadRequest.t) (w : System.World) :
  (0 < d)%Z -> world_ok d t w -> world_ok d t (fst (System.handle_read req w)).
Proof.
  intros Hd (<- & Hnow & Hst & Hc & Hbus). unfold System.handle_read.
  destruct (Core.read _ _ _ _) as [c' r] eqn:Hr. simpl.
  split_and!; [done..| |done]. by eapply core_read_ok.
Qed.

Lemma handle_delete_ok (d t : Z) (req : DeleteRequest.t) (w : System.World) :
  world_ok d t w -> world_ok d t (fst (System.handle_delete req w)).
Proof.
  intros (<- & Hnow & Hst & Hc & Hbus). unfold System.handle_delete.
  destruct (DeleteRequest.Change req) as [ch|]; [|done].
  destruct (Core.delete _ _ _ _) as [[[st' c'] evs] r] eqn:Hu. simpl.
  destruct (core_delete_ok _ d _ _ _ _ _ _ _ Hst Hc Hu) as (? & ? & ?).
  split_and!; [done..|]. by apply Forall_app.
Qed.

(** Every CLI command keeps the invariant of the instance it runs on. *)
Lemma setConfig_keeps_ok (d t : Z) g now args (w : System.World) :
  (0 < d)%Z -> world_ok d t w -> world_ok d t (fst (fst (Cli.setConfig g now args w))).
Proof.
  intros Hd Hw. destruct (Cli.setConfig_state g now args w) as [->|(key & val & ->)]; [done|].
  by apply handle_update_ok.
Qed.

Lemma getConfig_keeps_ok (d t : Z) g args (w : System.World) :
  (0 < d)%Z -> world_ok d t w -> world_ok d t (fst (fst (Cli.getConfig g args w))).
Proof.
  intros Hd Hw. destruct (Cli.getConfig_state g args w) as [->|(key & _ & ->)]; [done|].
  by apply handle_read_ok.
Qed.

Lemma delConfig_keeps_ok (d t : Z) g args (w : System.World) :
  world_ok d t w -> world_ok d t (fst (fst (Cli.delConfig g args w))).
Proof.
  intros Hw. destruct (Cli.delConfig_state g args w) as [->|(key & _ & ->)]; [done|].
  by apply handle_delete_ok.
Qed.

Lemma node_world_ok (d : Z) (cl : Cluster) (i : nat) (c : Core.Cache) :
  cluster_ok d cl -> cl_caches cl !! i = Some c -> world_ok d (cl_now cl) (node_world cl c).
Proof.
  intros (Hnow & Hst & Hcs & _) Hc. split_and!; try done.
  by eapply Forall_lookup_1.
Qed.

Lemma run_on_ok (d : Z) (cl cl' : Cluster) (i : nat) (cmd : prog System.World unit) :
  (forall w, world_ok d (cl_now cl) w -> world_ok d (cl_now cl) (fst (fst (cmd w)))) ->
  cluster_ok d cl -> run_on cl i cmd = Some cl' -> cluster_ok d cl'.
Proof.
  intros Hcmd Hok. unfold run_on. destruct (cl_caches cl !! i) as [c|] eqn:Hc; [|done].
  intros [= <-]. destruct (Hcmd _ (node_world_ok d cl i c Hok Hc)) as (Hn & _ & Hst & Hcc & Hbus).
  destruct Hok as (Hnow & _ & Hcs & Hb). split_and!; simpl; try done.
  - by apply Forall_insert.
  - by apply Forall_app.
Qed.

Lemma with_cache_ok (d : Z) (cl : Cluster) (i : nat) (c : Core.Cache) :
  cluster_ok d cl -> cache_ok (cl_now cl) d c -> cluster_ok d (with_cache cl i c).
Proof. intros (? & ? & ? & ?) Hc. split_and!; try done. by apply Forall_insert. Qed.

Lemma step_ok (g : Cli.Globals) (cl cl' : Cluster) :
  (0 < Cli.CacheDuration g)%Z -> cluster_ok (Cli.CacheDuration g) cl ->
  step g cl cl' -> cluster_ok (Cli.CacheDuration g) cl'.
Proof.
  intros Hd Hok Hstep. destruct Hstep as [cl cl' i now args Hr|cl cl' i args Hr
    |cl cl' i args Hr|cl i c ev Hc Hev|cl i c Hc|cl dt Hdt|cl b].
  - eapply run_on_ok; [|done..]. intros. by apply setConfig_keeps_ok.
  - eapply run_on_ok; [|done..]. intros. by apply getConfig_keeps_ok.
  - eapply run_on_ok; [|done..]. intros. by apply delConfig_keeps_ok.
  - apply with_cache_ok; [done|]. destruct Hok as (? & _ & Hcs & _).
    apply cache_ok_apply; [done..|]. by eapply Forall_lookup_1.
  - apply with_cache_ok; [done|]. destruct Hok as (_ & _ & Hcs & _).
    apply cache_ok_DeleteExpired. by eapply Forall_lookup_1.
  - destruct Hok as (? & ? & Hcs & ?). split_and!; simpl; try done; [lia|].
    eapply Forall_impl; [done|]. intros c. apply cache_ok_later. lia.
  - by destruct Hok as (? & ? & ? & ?).
Qed.

Lemma init_ok (g : Cli.Globals) (n : nat) (now : Z) :
  (0 < Cli.CacheDuration g)%Z -> (0 <= now)%Z -> cluster_ok (Cli.CacheDuration g) (init g n now).
Proof.
  intros Hd Hnow. split_and!; simpl; try done.
  - apply Forall_replicate. split; [|by apply map_Forall_empty].
    simpl. destruct (Cli.CacheDuration g =? 0)%Z eqn:E; [lia|done].
Qed.

(** Once [d] has passed, a cache of the invariant holds no live entry. *)
Lemma cache_ok_cold (now now' d : Z) (k : Core.Key) (c : Core.Cache) :
  (now + d < now')%Z -> cache_ok now d c -> GoCache.Get now' k c = None.
Proof.
  intros Hlt [_ Hall]. destruct (GoCache.Get now' k c) as [v|] eqn:Hg; [|done].
  apply GoCache.Get_Some in Hg as (it & Hit & Hexp & _).
  specialize (Hall k it Hit). unfold item_bounded, GoCache.expired in *.
  apply andb_false_iff in Hexp as [Hexp|Hexp]; apply Z.ltb_ge in Hexp; lia.
Qed.

Lemma cluster_ok_reachable (g : Cli.Globals) (cl : Cluster) :
  (0 < Cli.CacheDuration g)%Z -> reachable g cl -> cluster_ok (Cli.CacheDuration g) cl.
Proof.
  intros Hd Hr. induction Hr as [n now Hnow|cl cl' _ IH Hs].
  - by apply init_ok.
  - by eapply step_ok.
Qed.

Lemma handle_read_cold (req : ReadRequest.t) (st : System.Store) (c1 c2 : Core.Cache)
    (bus : list Core.Event) (now : Z) :
  GoCache.Get now (Core.key_of (ReadRequest.Namespace req) (ReadRequest.Path req)) c1 = None ->
  GoCache.Get now (Core.key_of (ReadRequest.Namespace req) (ReadRequest.Path req)) c2 = None ->
  snd (System.handle_read req (System.mkWorld st c1 bus now)) =
  snd (System.handle_read req (System.mkWorld st c2 bus now)).
Proof.
  intros H1 H2. pose proof (Core.read_cold_cache now _ st c1 c2 H1 H2) as Hr.
  unfold System.handle_read. simpl.
  destruct (Core.read _ _ _ c1), (Core.read _ _ _ c2). simpl in *. by subst.
Qed.

Lemma reachable_demo1 : reachable System.g_run demo1.
Proof.
  apply (reach_step _ demo0); [apply reach_init; unfold System.now0; lia|].
  eapply (step_set _ _ _ 0 System.now0 ["max_conn"; "10"]). vm_compute. reflexivity.
Qed.

(** A value event that is newer than what the cache holds is served by
    the next read of its key. *)
Lemma read_after_apply (now : Z) (k : Core.Key) (cs : ChangeSet.t) (ts : Z)
    (st : System.Store) (c : Core.Cache) :
  k.2 <> "" -> Core.newer now k ts c = true ->
  exists c', Core.read now k st (Core.apply_event now (Core.mkEvent k (Some cs) ts) c) = (c', inl cs).
Proof.
  intros Hk Hn. rewrite Core.apply_value, Hn. unfold Core.read.
  rewrite (proj2 (Core.valid_key_true k) Hk), GoCache.Get_Set_now. by eexists.
Qed.

(** A [set] that returned normally left its change set in the store. *)
Lemma set_stored (g : Cli.Globals) (now : Z) (key val : string) (w w1 : System.World)
    (out : list line) :
  Cli.setConfig g now [key; val] w = (w1, out, Cont tt) ->
  MemStore.get (Core.key_of (Cli.Namespace g) key) (System.w_store w1) =
    Ok (Some (Cli.set_changeset val now)).
Proof.
  intros (HU & _)%Cli.setConfig_ok.
  destruct (System.update_world _ _ _ _ _ _ HU) as (st' & c' & evs & HC & ->).
  by destruct (Core.update_success _ _ _ _ _ _ _ _ HC) as (_ & ? & _).
Qed.

(** A read that misses the cache answers what the store holds. *)
Lemma read_miss (now : Z) (k : Core.Key) (cs : ChangeSet.t) (st : System.Store) (c : Core.Cache) :
  k.2 <> "" -> ChangeSet.Data cs <> "" -> ChangeSet.Data cs <> "null" ->
  GoCache.Get now k c = None -> MemStore.get k st = Ok (Some cs) ->
  exists c', Core.read now k st c = (c', inl cs).
Proof.
  intros Hk He Hn Hg Hs. unfold Core.read.
  rewrite (proj2 (Core.valid_key_true k) Hk), Hg. simpl. rewrite Hs.
  rewrite System.is_null_payload_false by done. by eexists.
Qed.

(** ** The theorems of the system *)

(** C21. In every reachable state of the system, every entry an
    instance has cached expires, and no later than [CacheDuration] after
    the current time: a cache never serves an entry for ever. *)
Theorem cached_entries_expire (g : Cli.Globals) (cl : Cluster) (i : nat) (c : Core.Cache)
    (k : Core.Key) (it : GoCache.Item) :
  (0 < Cli.CacheDuration g)%Z -> reachable g cl ->
  cl_caches cl !! i = Some c -> GoCache.items c !! k = Some it ->
  (0 < GoCache.Expiration it <= cl_now cl + Cli.CacheDuration g)%Z.
Proof.
  intros Hd Hr Hc Hit. destruct (cluster_ok_reachable g cl Hd Hr) as (_ & _ & Hcs & _).
  destruct (Forall_lookup_1 _ _ _ _ Hcs Hc) as [_ Hall]. exact (Hall k it Hit).
Qed.

(** C22. In every reachable state, no key with an empty path is in the
    shared store, and every published change event has a non-empty path
    and carries its value's timestamp (spec 3, 4.2). *)
Theorem no_blank_path_reachable (g : Cli.Globals) (cl : Cluster) :
  (0 < Cli.CacheDuration g)%Z -> reachable g cl ->
  (forall (k : Core.Key) v, MemStore.records (cl_store cl) !! k = Some v -> k.2 <> "") /\
  Forall (fun ev => (Core.ev_key ev).2 <> "" /\ Core.wf_event ev) (cl_bus cl).
Proof.
  intros Hd Hr. destruct (cluster_ok_reachable g cl Hd Hr) as (_ & Hst & _ & Hbus).
  split; [exact Hst|exact Hbus].
Qed.

(** C23. Eventual coherence without events: from any reachable state,
    once more than [CacheDuration] has passed, the [get] command served by
    any instance prints and exits exactly as on a freshly started
    instance, that is, it answers what the shared store holds. *)
Theorem get_converges (g : Cli.Globals) (cl : Cluster) (dt : Z) (i : nat) (c : Core.Cache)
    (args : list string) :
  (0 < Cli.CacheDuration g)%Z -> reachable g cl -> (Cli.CacheDuration g < dt)%Z ->
  cl_caches cl !! i = Some c ->
  System.cli_output (Cli.getConfig g args (node_world (tick cl dt) c)) =
  System.cli_output (Cli.getConfig g args (node_world (tick cl dt) (Cli.h_cache (Cli.new_handler g)))).
Proof.
  intros Hd Hr Hdt Hc. destruct (cluster_ok_reachable g cl Hd Hr) as (_ & _ & Hcs & _).
  pose proof (Forall_lookup_1 _ _ _ _ Hcs Hc) as Hok.
  destruct (Cli.getConfig_output g args (node_world (tick cl dt) c)
              (node_world (tick cl dt) (Cli.h_cache (Cli.new_handler g)))) as [H1 H2].
  - apply handle_read_cold; [|apply GoCache.Get_New].
    eapply cache_ok_cold; [|exact Hok]. simpl. lia.
  - unfold System.cli_output. by rewrite H1, H2.
Qed.

Lemma cached_entries_expire_witness :
  (0 < GoCache.Expiration (GoCache.mkItem (Cli.set_changeset "10" System.now0)
                             (System.now0 + Cli.Minute * 5))
     <= cl_now demo1 + Cli.CacheDuration System.g_run)%Z.
Proof.
  exact (cached_entries_expire System.g_run demo1 0 demo_cache0 demo_key
           (GoCache.mkItem (Cli.set_changeset "10" System.now0) (System.now0 + Cli.Minute * 5))
           ltac:(vm_compute; reflexivity) reachable_demo1
           ltac:(vm_compute; reflexivity) ltac:(vm_compute; reflexivity)).
Defined.

Lemma no_blank_path_reachable_witness :
  MemStore.records (cl_store demo1) !! demo_key <> None /\
  Forall (fun ev => (Core.ev_key ev).2 <> "" /\ Core.wf_event ev) (cl_bus demo1).
Proof.
  split; [vm_compute; discriminate|].
  apply (no_blank_path_reachable System.g_run demo1); [vm_compute; reflexivity|exact reachable_demo1].
Defined.

Lemma get_converges_witness :
  GoCache.Get (cl_now demo1) demo_key demo_cache0 <> None /\
  System.cli_output (Cli.getConfig System.g_run ["max_conn"]
    (node_world (tick demo1 (Cli.Minute * 5 + 1)) fresh_cache)) = ([Stdout "10"], Cont tt) /\
  System.cli_output (Cli.getConfig System.g_run ["max_conn"]
    (node_world (tick demo1 (Cli.Minute * 5 + 1)) demo_cache0)) =
  System.cli_output (Cli.getConfig System.g_run ["max_conn"]
    (node_world (tick demo1 (Cli.Minute * 5 + 1)) (Cli.h_cache (Cli.new_handler System.g_run)))).
Proof.
  split; [vm_compute; discriminate|]. split; [vm_compute; reflexivity|].
  exact (get_converges System.g_run demo1 (Cli.Minute * 5 + 1) 0 demo_cache0 ["max_conn"]
           ltac:(vm_compute; reflexivity) reachable_demo1
           ltac:(vm_compute; reflexivity) ltac:(vm_compute; reflexivity)).
Defined.

(** C25. Propagation of a write: when [micro config set key val]
    succeeds on instance [i], its change event is on the bus, and once it
    is delivered to an instance [j] whose cache holds nothing newer for the
    key, [micro config get key] on [j] prints [val], even if [j] had
    cached an older value of the key. *)
Theorem set_delivered_then_get (g : Cli.Globals) (cl cl1 : Cluster) (i j : nat)
    (ci cj : Core.Cache) (now : Z) (key val : string) (w1 : System.World) (out : list line) :
  key <> "" -> val <> "" -> val <> "null" ->
  cl_caches cl !! i = Some ci ->
  Cli.setConfig g now [key; val] (node_world cl ci) = (w1, out, Cont tt) ->
  run_on cl i (Cli.setConfig g now [key; val]) = Some cl1 ->
  cl_caches cl1 !! j = Some cj ->
  Core.newer (cl_now cl1) (Core.key_of (Cli.Namespace g) key) (Core.unix_seconds now) cj = true ->
  let ev := Core.mkEvent (Core.key_of (Cli.Namespace g) key)
              (Some (Cli.set_changeset val now)) (Core.unix_seconds now) in
  let cj' := Core.apply_event (cl_now cl1) ev cj in
  step g cl1 (with_cache cl1 j cj') /\
  exists w', Cli.getConfig g [key] (node_world (with_cache cl1 j cj') cj') =
             (w', [Stdout val], Cont tt).
Proof.
  intros Hk Hv Hnull Hci Hset Hrun Hcj Hnew ev cj'.
  assert (ev ∈ cl_bus cl1) as Hin.
  { unfold run_on in Hrun. rewrite Hci, Hset in Hrun. injection Hrun as <-. simpl.
    rewrite (System.set_publishes _ _ _ _ _ _ _ Hset). apply elem_of_app. right.
    apply elem_of_app. right. by apply list_elem_of_singleton. }
  split; [by apply step_deliver|].
  destruct (read_after_apply (cl_now cl1) (Core.key_of (Cli.Namespace g) key)
              (Cli.set_changeset val now) (Core.unix_seconds now) (cl_store cl1) cj Hk Hnew)
    as [c' Hread].
  exact (System.get_world_value g key (node_world (with_cache cl1 j cj') cj') c'
           (Cli.set_changeset val now) Hk Hv Hnull Hread).
Qed.

Lemma set_delivered_then_get_witness :
  let cj' := Core.apply_event (cl_now demo1)
               (Core.mkEvent demo_key (Some (Cli.set_changeset "10" System.now0))
                  (Core.unix_seconds System.now0)) fresh_cache in
  step System.g_run demo1 (with_cache demo1 1 cj') /\
  exists w', Cli.getConfig System.g_run ["max_conn"] (node_world (with_cache demo1 1 cj') cj') =
             (w', [Stdout "10"], Cont tt).
Proof.
  apply (set_delivered_then_get System.g_run demo0 demo1 0 1 fresh_cache fresh_cache System.now0
           "max_conn" "10"
           (fst (fst (Cli.setConfig System.g_run System.now0 ["max_conn"; "10"]
                        (node_world demo0 fresh_cache)))) []);
    first [discriminate | vm_compute; reflexivity].
Defined.

(** C26. The end-to-end scenario of spec 8: after [micro config set key
    val] succeeded on instance [i], any instance [j] that holds no live
    cache entry for the key (it never received the event, or the entry
    expired) falls back to the shared store, and its [get key] prints
    [val]. *)
Theorem second_instance_reads_store (g : Cli.Globals) (cl cl1 : Cluster) (i j : nat)
    (ci cj : Core.Cache) (now : Z) (key val : string) (w1 : System.World) (out : list line) :
  key <> "" -> val <> "" -> val <> "null" ->
  cl_caches cl !! i = Some ci ->
  Cli.setConfig g now [key; val] (node_world cl ci) = (w1, out, Cont tt) ->
  run_on cl i (Cli.setConfig g now [key; val]) = Some cl1 ->
  cl_caches cl1 !! j = Some cj ->
  GoCache.Get (cl_now cl1) (Core.key_of (Cli.Namespace g) key) cj = None ->
  exists w', Cli.getConfig g [key] (node_world cl1 cj) = (w', [Stdout val], Cont tt).
Proof.
  intros Hk Hv Hnull Hci Hset Hrun Hcj Hmiss.
  pose proof (set_stored _ _ _ _ _ _ _ Hset) as Hst.
  assert (cl_store cl1 = System.w_store w1) as Hs1.
  { unfold run_on in Hrun. rewrite Hci, Hset in Hrun. by injection Hrun as <-. }
  rewrite <- Hs1 in Hst.
  destruct (read_miss _ (Core.key_of (Cli.Namespace g) key) (Cli.set_changeset val now) _ _
              Hk Hv Hnull Hmiss Hst) as [c' Hread].
  exact (System.get_world_value g key (node_world cl1 cj) c' (Cli.set_changeset val now)
           Hk Hv Hnull Hread).
Qed.

Lemma second_instance_reads_store_witness :
  exists w', Cli.getConfig System.g_run ["max_conn"] (node_world demo1 fresh_cache) =
             (w', [Stdout "10"], Cont tt).
Proof.
  apply (second_instance_reads_store System.g_run demo0 demo1 0 1 fresh_cache fresh_cache
           System.now0 "max_conn" "10"
           (fst (fst (Cli.setConfig System.g_run System.now0 ["max_conn"; "10"]
                        (node_world demo0 fresh_cache)))) []);
    first [discriminate | vm_compute; reflexivity].
Defined.

End Cluster.
