(* ===== verification/Provenance.v ===== *)
(** * Where the values a deployment serves come from

    A second invariant of [Cluster.reachable]: every value in the shared
    store and in any instance's cache is the change set of a [set]
    command, and that command's change event is on the bus.  Only
    [setConfig] writes values ([delConfig] publishes tombstones, [getConfig]
    caches what the store holds, a delivered event caches its value), so
    whatever [micro config get] prints on any instance, at any reachable
    state, is the value of some [micro config set] of that key, stamped
    with the second of its clock. *)

From S2P Require Import Prelude GoStrings Proto Cache Store Core Cli System Cluster.


Module Provenance.

#[local] Existing Instance MemStore.mem_backing_store.
#[local] Existing Instance MemStore.mem_backing_store_laws.
#[local] Existing Instance System.world_service.

Import Cluster.

Create HintDb prov.

(** [cs] was written for [k] by a [set] whose event is on [bus]. *)
Definition published (bus : list Core.Event) (k : Core.Key) (cs : ChangeSet.t) : Prop :=
  exists v t, cs = Cli.set_changeset v t /\
    Core.mkEvent k (Some cs) (Core.unix_seconds t) ∈ bus.

(** The events a [set] or a [del] publishes. *)
Definition cli_event (ev : Core.Event) : Prop :=
  Core.ev_value ev = None \/
  exists v t, ev = Core.mkEvent (Core.ev_key ev) (Some (Cli.set_changeset v t)) (Core.unix_seconds t).

Definition store_from (bus : list Core.Event) (st : System.Store) : Prop :=
  map_Forall (published bus) (MemStore.records st).

Definition cache_from (bus : list Core.Event) (c : Core.Cache) : Prop :=
  map_Forall (fun k it => published bus k (GoCache.Object it)) (GoCache.items c).

(** An instance's world, the events of the rest of the system being
    [bus]. *)
Definition world_prov (bus : list Core.Event) (w : System.World) : Prop :=
  store_from (bus ++ System.w_bus w) (System.w_store w) /\
  cache_from (bus ++ System.w_bus w) (System.w_cache w) /\
  Forall cli_event (System.w_bus w).

Definition cluster_prov (cl : Cluster) : Prop :=
  store_from (cl_bus cl) (cl_store cl) /\
  Forall (cache_from (cl_bus cl)) (cl_caches cl) /\
  Forall cli_event (cl_bus cl).

(** ** Monotonicity and the cache operations *)

Lemma published_mono (b1 b2 : list Core.Event) (k : Core.Key) (cs : ChangeSet.t) :
  b1 ⊆ b2 -> published b1 k cs -> published b2 k cs.
Proof. intros Hsub (v & t & -> & Hin). exists v, t. split; [done|]. by apply Hsub. Qed.

Lemma store_from_mono (b1 b2 : list Core.Event) (st : System.Store) :
  b1 ⊆ b2 -> store_from b1 st -> store_from b2 st.
Proof. intros Hsub Hst. eapply map_Forall_impl; [done|]. intros k cs. by apply published_mono. Qed.

Lemma cache_from_mono (b1 b2 : list Core.Event) (c : Core.Cache) :
  b1 ⊆ b2 -> cache_from b1 c -> cache_from b2 c.
Proof. intros Hsub Hc. eapply map_Forall_impl; [done|]. intros k it. by apply published_mono. Qed.

Lemma cache_from_Set (bus : list Core.Event) (now : Z) (k : Core.Key) (cs : ChangeSet.t) (c : Core.Cache) :
  published bus k cs -> cache_from bus c ->
  cache_from bus (GoCache.Set_ now k cs GoCache.DefaultExpiration c).
Proof. intros Hp Hc. by apply map_Forall_insert_2. Qed.

Lemma cache_from_Delete (bus : list Core.Event) (k : Core.Key) (c : Core.Cache) :
  cache_from bus c -> cache_from bus (GoCache.Delete k c).
Proof. apply map_Forall_delete. Qed.

Lemma cache_from_DeleteExpired (bus : list Core.Event) (now : Z) (c : Core.Cache) :
  cache_from bus c -> cache_from bus (GoCache.DeleteExpired now c).
Proof.
  intros Hc k it Hk. simpl in Hk. apply map_lookup_filter_Some in Hk as [Hk _]. by apply (Hc k).
Qed.

Lemma sub_app (b1 b2 b3 : list Core.Event) : b1 ++ b2 ⊆ b1 ++ b2 ++ b3.
Proof. intros x. rewrite !elem_of_app. tauto. Qed.

Lemma sub_app_r (b1 b2 : list Core.Event) : b1 ⊆ b1 ++ b2.
Proof. intros x. rewrite elem_of_app. tauto. Qed.

Lemma in_app_last (b1 b2 : list Core.Event) (ev : Core.Event) : ev ∈ b1 ++ b2 ++ [ev].
Proof. rewrite !elem_of_app, list_elem_of_singleton. tauto. Qed.

#[local] Hint Resolve cache_from_Set cache_from_Delete cache_from_DeleteExpired : prov.

(** ** Each handler keeps the invariant of an instance *)

Lemma handle_update_prov (bus : list Core.Event) g key val now (w : System.World) :
  world_prov bus w -> world_prov bus (fst (System.handle_update (Cli.set_request g key val now) w)).
Proof.
  intros (Hst & Hc & Hev). unfold System.handle_update. simpl.
  destruct (Core.update _ _ _ _ _) as [[[st' c'] evs] r] eqn:Hu. simpl.
  apply Core.update_cases in Hu as [(-> & -> & ->)|(Hp & -> & ->)]; [by rewrite app_nil_r|].
  assert (published (bus ++ System.w_bus w ++ [Core.mkEvent (Core.key_of (Cli.Namespace g) key)
      (Some (Cli.set_changeset val now)) (Core.unix_seconds now)]) (Core.key_of (Cli.Namespace g) key)
      (Cli.set_changeset val now)) as Hpub by (exists val, now; split; [done|apply in_app_last]).
  assert (bus ++ System.w_bus w ⊆ bus ++ System.w_bus w ++
      [Core.mkEvent (Core.key_of (Cli.Namespace g) key) (Some (Cli.set_changeset val now))
         (Core.unix_seconds now)]) as Hsub by apply sub_app.
  split_and!.
  - unfold store_from. simpl. rewrite (MemStore.put_records _ _ _ _ Hp).
    apply map_Forall_insert_2; [done|]. by eapply store_from_mono.
  - apply cache_from_Set; [done|]. by eapply cache_from_mono.
  - apply Forall_app. split; [done|]. apply Forall_singleton. right. by exists val, now.
Qed.

Lemma handle_read_prov (bus : list Core.Event) (req : ReadRequest.t) (w : System.World) :
  world_prov bus w -> world_prov bus (fst (System.handle_read req w)).
Proof.
  intros (Hst & Hc & Hev). unfold System.handle_read.
  destruct (Core.read _ _ _ _) as [c' r] eqn:Hr. simpl.
  apply Core.read_cases in Hr as [[->|(cs & Hg & ->)] _]; [done|].
  split_and!; try done. apply cache_from_Set; [|done].
  apply (Hst _ _ (MemStore.get_records _ _ _ Hg)).
Qed.

Lemma handle_delete_prov (bus : list Core.Event) (req : DeleteRequest.t) (w : System.World) :
  world_prov bus w -> world_prov bus (fst (System.handle_delete req w)).
Proof.
  intros (Hst & Hc & Hev). unfold System.handle_delete.
  destruct (DeleteRequest.Change req) as [ch|]; [|done].
  destruct (Core.delete _ _ _ _) as [[[st' c'] evs] r] eqn:Hu. simpl.
  apply Core.delete_cases in Hu as [(-> & -> & ->)|(Hp & -> & ->)]; [by rewrite app_nil_r|].
  match goal with |- context [System.w_bus w ++ [?ev]] =>
    pose proof (sub_app bus (System.w_bus w) [ev]) as Hsub end.
  split_and!.
  - unfold store_from. simpl. rewrite (MemStore.del_records _ _ _ Hp).
    apply map_Forall_delete. by eapply store_from_mono.
  - apply cache_from_Delete. by eapply cache_from_mono.
  - apply Forall_app. split; [done|]. apply Forall_singleton. by left.
Qed.

Lemma setConfig_prov (bus : list Core.Event) g now args (w : System.World) :
  world_prov bus w -> world_prov bus (fst (fst (Cli.setConfig g now args w))).
Proof.
  intros Hw. destruct (Cli.setConfig_state g now args w) as [->|(key & val & ->)]; [done|].
  by apply handle_update_prov.
Qed.

Lemma getConfig_prov (bus : list Core.Event) g args (w : System.World) :
  world_prov bus w -> world_prov bus (fst (fst (Cli.getConfig g args w))).
Proof.
  intros Hw. destruct (Cli.getConfig_state g args w) as [->|(key & _ & ->)]; [done|].
  by apply handle_read_prov.
Qed.

Lemma delConfig_prov (bus : list Core.Event) g args (w : System.World) :
  world_prov bus w -> world_prov bus (fst (fst (Cli.delConfig g args w))).
Proof.
  intros Hw. destruct (Cli.delConfig_state g args w) as [->|(key & _ & ->)]; [done|].
  by apply handle_delete_prov.
Qed.

(** ** The invariant of the deployment *)

Lemma cache_from_apply (bus : list Core.Event) (now : Z) (ev : Core.Event) (c : Core.Cache) :
  ev ∈ bus -> cli_event ev -> cache_from bus c -> cache_from bus (Core.apply_event now ev c).
Proof.
  intros Hin [Hnone|(v & t & Hev)] Hc; unfold Core.apply_event.
  - rewrite Hnone. by apply cache_from_Delete.
  - assert (published bus (Core.ev_key ev) (Cli.set_changeset v t)) as Hp
      by (exists v, t; split; [done|by rewrite <- Hev]).
    rewrite Hev. simpl. destruct (GoCache.Get _ _ _); [destruct (_ <? _)%Z|];
      try done; by apply cache_from_Set.
Qed.

Lemma node_world_prov (cl : Cluster) (i : nat) (c : Core.Cache) :
  cluster_prov cl -> cl_caches cl !! i = Some c -> world_prov (cl_bus cl) (node_world cl c).
Proof.
  intros (Hst & Hcs & Hev) Hc. unfold world_prov. simpl. rewrite app_nil_r.
  split_and!; [done| |done]. by eapply Forall_lookup_1.
Qed.

Lemma run_on_prov (cl cl' : Cluster) (i : nat) (cmd : prog System.World unit) :
  (forall w, world_prov (cl_bus cl) w -> world_prov (cl_bus cl) (fst (fst (cmd w)))) ->
  cluster_prov cl -> run_on cl i cmd = Some cl' -> cluster_prov cl'.
Proof.
  intros Hcmd Hok. unfold run_on. destruct (cl_caches cl !! i) as [c|] eqn:Hc; [|done].
  intros [= <-]. destruct (Hcmd _ (node_world_prov cl i c Hok Hc)) as (Hst & Hc' & Hev').
  destruct Hok as (_ & Hcs & Hev). split_and!; simpl; [done| |by apply Forall_app].
  apply Forall_insert; [|done]. eapply Forall_impl; [done|].
  intros c''. apply cache_from_mono, sub_app_r.
Qed.

Lemma with_cache_prov (cl : Cluster) (i : nat) (c : Core.Cache) :
  cluster_prov cl -> cache_from (cl_bus cl) c -> cluster_prov (with_cache cl i c).
Proof. intros (? & ? & ?) Hc. split_and!; try done. by apply Forall_insert. Qed.

Lemma step_prov (g : Cli.Globals) (cl cl' : Cluster) :
  cluster_prov cl -> step g cl cl' -> cluster_prov cl'.
Proof.
  intros Hok Hstep. destruct Hstep as [cl cl' i now args Hr|cl cl' i args Hr
    |cl cl' i args Hr|cl i c ev Hc Hev|cl i c Hc|cl dt Hdt|cl b].
  - eapply run_on_prov; [|done..]. intros. by apply setConfig_prov.
  - eapply run_on_prov; [|done..]. intros. by apply getConfig_prov.
  - eapply run_on_prov; [|done..]. intros. by apply delConfig_prov.
  - apply with_cache_prov; [done|]. destruct Hok as (_ & Hcs & Hb).
    apply cache_from_apply; [done| |by eapply Forall_lookup_1].
    by eapply Forall_forall.
  - apply with_cache_prov; [done|]. destruct Hok as (_ & Hcs & _).
    apply cache_from_DeleteExpired. by eapply Forall_lookup_1.
  - done.
  - done.
Qed.

Lemma prov_reachable (g : Cli.Globals) (cl : Cluster) : reachable g cl -> cluster_prov cl.
Proof.
  intros Hr. induction Hr as [n now Hnow|cl cl' _ IH Hs]; [|by eapply step_prov].
  split_and!; simpl; [by apply map_Forall_empty| |done].
  apply Forall_replicate, map_Forall_empty.
Qed.

(** A [Read] answered with a change set: the Core's read returned it. *)
Lemma handle_read_value (req : ReadRequest.t) (w w1 : System.World) rsp ch cs :
  System.handle_read req w = (w1, Ok rsp) ->
  ReadResponse.Change rsp = Some ch -> Change.ChangeSet ch = Some cs ->
  exists c', Core.read (System.w_now w)
    (Core.key_of (ReadRequest.Namespace req) (ReadRequest.Path req))
    (System.w_store w) (System.w_cache w) = (c', inl cs).
Proof.
  unfold System.handle_read. destruct (Core.read _ _ _ _) as [c' [cs'|e]].
  - intros [= _ <-] [= <-] [= <-]. by exists c'.
  - by intros [= _ _].
Qed.

(** ** What [get] prints *)

(** C24. In every reachable state of a deployment, if [micro config get
    key] served by any instance prints a line and returns normally, the
    line is the value of some [micro config set key v] run at some time
    [t], whose change event (stamped [t] in seconds) was published: an
    instance never serves a value that no [set] wrote, whether it comes
    from its cache, from the store or from a delivered event. *)
Theorem get_prints_written (g : Cli.Globals) (cl : Cluster) (i : nat) (c : Core.Cache)
    (args : list string) (w' : System.World) (out : list line) :
  reachable g cl -> cl_caches cl !! i = Some c ->
  Cli.getConfig g args (node_world cl c) = (w', out, Cont tt) ->
  exists v t, out = [Stdout v] /\
    Core.mkEvent (Core.key_of (Cli.Namespace g) (Cli.Args_Get args 0))
      (Some (Cli.set_changeset v t)) (Core.unix_seconds t) ∈ cl_bus cl.
Proof.
  intros Hr Hc Hget. destruct (prov_reachable g cl Hr) as (Hst & Hcs & _).
  apply Cli.getConfig_Cont in Hget as (w1 & rsp & ch & cs & HR & Hch & Hcs' & ->).
  destruct (handle_read_value _ _ _ _ _ _ HR Hch Hcs') as [c' Hread].
  apply Core.read_cases in Hread as [_ Hfrom]. simpl in Hfrom.
  assert (published (cl_bus cl) (Core.key_of (Cli.Namespace g) (Cli.Args_Get args 0)) cs)
    as (v & t & -> & Hin).
  { destruct (Hfrom cs eq_refl) as [Hg|Hg].
    - apply GoCache.Get_Some in Hg as (it & Hit & _ & <-).
      exact (Forall_lookup_1 _ _ _ _ Hcs Hc _ _ Hit).
    - exact (Hst _ _ (MemStore.get_records _ _ _ Hg)). }
  by exists v, t.
Qed.

Lemma get_prints_written_witness :
  exists v t, [Stdout "10"] = [Stdout v] /\
    Core.mkEvent (Core.key_of "global" "max_conn")
      (Some (Cli.set_changeset v t)) (Core.unix_seconds t) ∈ cl_bus demo1.
Proof.
  eapply (get_prints_written System.g_run demo1 1 _ ["max_conn"]);
    [exact reachable_demo1|vm_compute; reflexivity|vm_compute; reflexivity].
Defined.

End Provenance.
