(* ===== verification/Refinement.v ===== *)
(** * One instance refines a plain key-value map

    The abstract specification of the service (spec 4.1-4.3 without the
    cache): a finite map from composite keys to change sets, with
    [Update] storing, [Read] answering the stored change set or
    "not found" (absent, empty or [null]), and [Delete] removing; a blank
    path is refused.  [KV.kv_service] is that map as a [ConfigService].

    [Refinement.refines w m] relates an instance [w] of [System] to a map
    [m]: the store holds [m], it is reachable, and every entry of the
    cache, live or expired, is the store's value for its key.  Each RPC
    handler keeps the relation and answers as the map does, up to what
    [getConfig] makes of a [Read] ([Cli.get_view]); by the generic
    simulation lemmas of [Cli], every sub-command prints the same lines
    and exits the same way on the instance and on the map.  The theorem
    [session_refines] lifts this to any session of [set], [get] and
    [del] commands interleaved with the passing of time and the janitor's
    sweeps: the cache is invisible to a user of a lone instance.

    The relation fails at the level of the RPC itself: a [Read] of a key
    whose stored payload is [null] answers the payload on a cache hit and
    "not found" on a miss ([read_null_depends_on_cache]); only the CLI's
    own test hides the difference. *)

From S2P Require Import Prelude GoStrings Proto Cache Store Core Cli System.

Local Open Scope string_scope.

Module KV.

Abbreviation Map := (gmap Core.Key ChangeSet.t).

Definition invalid : go_error := Core.to_go_error Core.ErrValidation.

Definition kv_update (req : UpdateRequest.t) (m : Map) : Map * result unit :=
  match UpdateRequest.Change req with
  | Some ch =>
      match Change.ChangeSet ch with
      | Some cs =>
          let k := Core.key_of (Change.Namespace ch) (Change.Path ch) in
          if Core.valid_key k then (<[k := cs]> m, Ok tt) else (m, Err invalid)
      | None => (m, Err invalid)
      end
  | None => (m, Err invalid)
  end.

Definition kv_read (req : ReadRequest.t) (m : Map) : Map * result ReadResponse.t :=
  let ns := ReadRequest.Namespace req in
  let path := ReadRequest.Path req in
  let k := Core.key_of ns path in
  if negb (Core.valid_key k) then (m, Err invalid) else
  match m !! k with
  | Some cs =>
      if Core.is_null_payload cs then (m, Err (Core.to_go_error Core.ErrNotFound))
      else (m, Ok (ReadResponse.mk (Some (Change.mk ns path (Some cs)))))
  | None => (m, Err (Core.to_go_error Core.ErrNotFound))
  end.

Definition kv_delete (req : DeleteRequest.t) (m : Map) : Map * result unit :=
  match DeleteRequest.Change req with
  | Some ch =>
      let k := Core.key_of (Change.Namespace ch) (Change.Path ch) in
      if Core.valid_key k then (delete k m, Ok tt) else (m, Err invalid)
  | None => (m, Err invalid)
  end.

#[export] Instance kv_service : ConfigService Map := {
  Update := kv_update;
  Read := kv_read;
  Delete := kv_delete
}.

End KV.

Module Refinement.

#[local] Existing Instance MemStore.mem_backing_store.
#[local] Existing Instance MemStore.mem_backing_store_laws.
#[local] Existing Instance System.world_service.
#[local] Existing Instance KV.kv_service.

(** Every cached entry, live or expired, is the stored value. *)
Definition coherent (r : KV.Map) (c : Core.Cache) : Prop :=
  map_Forall (fun k it => r !! k = Some (GoCache.Object it)) (GoCache.items c).

Definition refines (w : System.World) (m : KV.Map) : Prop :=
  MemStore.records (System.w_store w) = m /\
  MemStore.available (System.w_store w) = true /\
  coherent m (System.w_cache w).

(** ** Sessions

    A session is what a user does at a terminal against one instance: the
    [micro config set], [get] and [del] commands, each run as a process
    of its own (an [os.Exit] ends that command, not the session), with
    time passing and the cache's janitor sweeping in between. *)
Inductive Cmd :=
| CSet (now : Z) (args : list string)
| CGet (args : list string)
| CDel (args : list string)
| CTick (dt : Z)
| CSweep.

Definition report {S A} (r : S * list line * outcome A) : S * (list line * outcome A) :=
  (r.1.1, (r.1.2, r.2)).

Definition step_impl (g : Cli.Globals) (c : Cmd) (w : System.World)
    : System.World * (list line * outcome unit) :=
  match c with
  | CSet now args => report (Cli.setConfig g now args w)
  | CGet args => report (Cli.getConfig g args w)
  | CDel args => report (Cli.delConfig g args w)
  | CTick dt =>
      (System.mkWorld (System.w_store w) (System.w_cache w) (System.w_bus w) (System.w_now w + dt),
       ([], Cont tt))
  | CSweep =>
      (System.mkWorld (System.w_store w) (GoCache.DeleteExpired (System.w_now w) (System.w_cache w))
         (System.w_bus w) (System.w_now w), ([], Cont tt))
  end.

Definition step_spec (g : Cli.Globals) (c : Cmd) (m : KV.Map) : KV.Map * (list line * outcome unit) :=
  match c with
  | CSet now args => report (Cli.setConfig g now args m)
  | CGet args => report (Cli.getConfig g args m)
  | CDel args => report (Cli.delConfig g args m)
  | CTick _ | CSweep => (m, ([], Cont tt))
  end.

Fixpoint run_impl (g : Cli.Globals) (cs : list Cmd) (w : System.World)
    : list (list line * outcome unit) :=
  match cs with
  | [] => []
  | c :: cs' => let '(w', o) := step_impl g c w in o :: run_impl g cs' w'
  end.

Fixpoint run_spec (g : Cli.Globals) (cs : list Cmd) (m : KV.Map)
    : list (list line * outcome unit) :=
  match cs with
  | [] => []
  | c :: cs' => let '(m', o) := step_spec g c m in o :: run_spec g cs' m'
  end.

(** The commands that only let time pass or sweep the cache. *)
Definition idle (c : Cmd) : Prop :=
  match c with CTick _ | CSweep => True | _ => False end.

(** A session on a freshly booted instance: set, read back, let ten
    minutes pass and the janitor sweep, read back, delete, read. *)
Definition demo_session : list Cmd :=
  [CSet System.now0 ["max_conn"; "10"]; CGet ["max_conn"]; CTick (Cli.Minute * 10); CSweep;
   CGet ["max_conn"]; CDel ["max_conn"]; CGet ["max_conn"]].

(** ** The cache stays coherent *)

Lemma coherent_insert (r : KV.Map) (c : Core.Cache) (now d : Z) (k : Core.Key) (cs : ChangeSet.t) :
  coherent r c -> coherent (<[k := cs]> r) (GoCache.Set_ now k cs d c).
Proof.
  intros Hc k' it. simpl. destruct (decide (k = k')) as [<-|Hne].
  - rewrite !lookup_insert_eq. by intros [= <-].
  - rewrite !lookup_insert_ne by done. apply Hc.
Qed.

Lemma coherent_Set (r : KV.Map) (c : Core.Cache) (now d : Z) (k : Core.Key) (cs : ChangeSet.t) :
  r !! k = Some cs -> coherent r c -> coherent r (GoCache.Set_ now k cs d c).
Proof. intros Hk Hc. rewrite <- (insert_id r k cs Hk). by apply coherent_insert. Qed.

Lemma coherent_delete (r : KV.Map) (c : Core.Cache) (k : Core.Key) :
  coherent r c -> coherent (delete k r) (GoCache.Delete k c).
Proof.
  intros Hc k' it. simpl. destruct (decide (k = k')) as [<-|Hne].
  - by rewrite lookup_delete_eq.
  - rewrite !lookup_delete_ne by done. apply Hc.
Qed.

Lemma coherent_DeleteExpired (r : KV.Map) (c : Core.Cache) (now : Z) :
  coherent r c -> coherent r (GoCache.DeleteExpired now c).
Proof. intros Hc k it Hk. simpl in Hk. apply map_lookup_filter_Some in Hk as [Hk _]. by apply Hc. Qed.

(** A cache hit answers the stored value. *)
Lemma coherent_hit (r : KV.Map) (c : Core.Cache) (now : Z) (k : Core.Key) (cs : ChangeSet.t) :
  coherent r c -> GoCache.Get now k c = Some cs -> r !! k = Some cs.
Proof. intros Hc (it & Hit & _ & <-)%GoCache.Get_Some. exact (Hc k it Hit). Qed.

(** ** Each handler refines the map *)

Lemma length_zero_eqb (v : string) : (String.length v =? 0)%nat = String.eqb v "".
Proof. by destruct v. Qed.

(** The relation reads only the store and the cache. *)
Lemma refines_world (w : System.World) (m : KV.Map) (b : list Core.Event) (n : Z) :
  refines w m -> refines (System.mkWorld (System.w_store w) (System.w_cache w) b n) m.
Proof. done. Qed.

(** What [getConfig] makes of a change set, and of "not found". *)
Lemma view_changeset (ns path : string) (cs : ChangeSet.t) :
  Cli.get_view (Ok (ReadResponse.mk (Some (Change.mk ns path (Some cs))))) =
  if Core.is_null_payload cs then Cli.NotFound else Cli.Printed (ChangeSet.Data cs).
Proof. unfold Cli.get_view, Core.is_null_payload. simpl. by rewrite length_zero_eqb. Qed.

Lemma view_not_found : Cli.get_view (Err (Core.to_go_error Core.ErrNotFound)) = Cli.NotFound.
Proof. vm_compute. reflexivity. Qed.

Lemma handle_update_sim (req : UpdateRequest.t) (w : System.World) (m : KV.Map) :
  refines w m ->
  refines (fst (System.handle_update req w)) (fst (KV.kv_update req m)) /\
  snd (System.handle_update req w) = snd (KV.kv_update req m).
Proof.
  intros (Hr & Ha & Hc). unfold System.handle_update, KV.kv_update.
  destruct (UpdateRequest.Change req) as [ch|]; [|done].
  destruct (Change.ChangeSet ch) as [cs|]; [|done].
  unfold Core.update. destruct (Core.valid_key _); simpl; [|done].
  unfold MemStore.put. rewrite Ha. cbn -[GoCache.Set_ coherent]. subst m.
  split; [|done]. split; [done|split; [done|]]. by apply coherent_insert.
Qed.

Lemma handle_delete_sim (req : DeleteRequest.t) (w : System.World) (m : KV.Map) :
  refines w m ->
  refines (fst (System.handle_delete req w)) (fst (KV.kv_delete req m)) /\
  snd (System.handle_delete req w) = snd (KV.kv_delete req m).
Proof.
  intros (Hr & Ha & Hc). unfold System.handle_delete, KV.kv_delete.
  destruct (DeleteRequest.Change req) as [ch|]; [|done].
  unfold Core.delete. destruct (Core.valid_key _); simpl; [|done].
  unfold MemStore.del. rewrite Ha. cbn -[GoCache.Delete coherent]. subst m.
  split; [|done]. split; [done|split; [done|]]. by apply coherent_delete.
Qed.

Lemma handle_read_sim (req : ReadRequest.t) (w : System.World) (m : KV.Map) :
  refines w m ->
  refines (fst (System.handle_read req w)) (fst (KV.kv_read req m)) /\
  Cli.get_view (snd (System.handle_read req w)) = Cli.get_view (snd (KV.kv_read req m)).
Proof.
  intros Href. pose proof Href as (Hr & Ha & Hc).
  unfold System.handle_read, KV.kv_read, Core.read.
  destruct (negb _); [split; [by apply refines_world|done]|].
  destruct (GoCache.Get _ _ _) as [cs|] eqn:Hg.
  - pose proof (coherent_hit _ _ _ _ _ Hc Hg) as Hm. rewrite Hm.
    cbn -[Cli.get_view Core.is_null_payload Core.to_go_error refines].
    split; [by destruct (Core.is_null_payload cs); apply refines_world|].
    by destruct (Core.is_null_payload cs) eqn:Hn; cbn [snd]; rewrite ?view_not_found, !view_changeset, Hn.
  - simpl. unfold MemStore.get. rewrite Ha, Hr.
    destruct (m !! _) as [cs|] eqn:Hm; [|split; [by apply refines_world|done]]. simpl.
    destruct (Core.is_null_payload cs) eqn:Hn; [split; [by apply refines_world|done]|]. simpl.
    split; [|done]. split; [done|split; [done|]]. by apply coherent_Set.
Qed.

(** ** Every command, and every session, refines the map *)

Lemma step_refines (g : Cli.Globals) (c : Cmd) (w : System.World) (m : KV.Map) :
  refines w m ->
  refines (fst (step_impl g c w)) (fst (step_spec g c m)) /\
  snd (step_impl g c w) = snd (step_spec g c m).
Proof.
  intros Hr. destruct c as [now args|args|args|dt|]; simpl.
  - destruct (@Cli.setConfig_sim _ _ System.world_service KV.kv_service refines handle_update_sim g now args w m Hr) as (? & Ho & Hx).
    unfold report. by rewrite Ho, Hx.
  - destruct (@Cli.getConfig_sim _ _ System.world_service KV.kv_service refines handle_read_sim g args w m Hr) as (? & Ho & Hx).
    unfold report. by rewrite Ho, Hx.
  - destruct (@Cli.delConfig_sim _ _ System.world_service KV.kv_service refines handle_delete_sim g args w m Hr) as (? & Ho & Hx).
    unfold report. by rewrite Ho, Hx.
  - split; [by apply refines_world|done].
  - destruct Hr as (? & ? & Hc). split; [|done]. split_and!; [done..|]. by apply coherent_DeleteExpired.
Qed.

(** C27. Refinement: on a lone instance whose store is reachable, every
    session of [micro config set], [get] and [del] commands, interleaved
    with any passing of time and any janitor sweeps, prints the same
    lines and exits the same way, command by command, as the same session
    against a plain key-value map holding the store's contents: the
    go-cache layer of the Config Core is invisible to the CLI. *)
Theorem session_refines (g : Cli.Globals) (cs : list Cmd) (w : System.World) (m : KV.Map) :
  refines w m -> run_impl g cs w = run_spec g cs m.
Proof.
  revert w m. induction cs as [|c cs IH]; intros w m Hr; [done|]. simpl.
  destruct (step_refines g c w m Hr) as [Hr' Ho].
  destruct (step_impl g c w) as [w' o], (step_spec g c m) as [m' o']. simpl in *.
  subst o'. f_equal. by apply IH.
Qed.

Lemma refines_boot (now : Z) : refines (System.boot now) ∅.
Proof. split_and!; [done|done|apply map_Forall_empty]. Qed.

(** Idle commands print nothing and keep the relation with the same map. *)
Lemma idle_run (g : Cli.Globals) (mid rest : list Cmd) (w : System.World) (m : KV.Map) :
  Forall idle mid -> refines w m ->
  exists w', refines w' m /\
    run_impl g (mid ++ rest) w = (map (fun _ => ([], Cont tt)) mid ++ run_impl g rest w')%list.
Proof.
  revert w. induction mid as [|c mid IH]; intros w Hidle Hr; [by exists w|].
  apply Forall_cons in Hidle as [Hc Hidle].
  destruct (step_refines g c w m Hr) as [Hr' Ho].
  destruct c as [| | |dt|]; try done; simpl in *;
    destruct (IH _ Hidle Hr') as (w' & ? & ->); by exists w'.
Qed.

(** The map's side of [set] and of a [get] after it. *)
Lemma spec_set (g : Cli.Globals) (now : Z) (key val : string) (m : KV.Map) :
  key <> "" ->
  step_spec g (CSet now [key; val]) m =
    (<[Core.key_of (Cli.Namespace g) key := Cli.set_changeset val now]> m, ([], Cont tt)).
Proof.
  intros Hk. unfold step_spec, report, Cli.setConfig. rewrite Cli.require_args_cons. go_run.
  simpl. by rewrite Core.valid_key_of by done.
Qed.

Lemma kv_read_value (ns key : string) (cs : ChangeSet.t) (m : KV.Map) :
  key <> "" -> Core.is_null_payload cs = false -> m !! Core.key_of ns key = Some cs ->
  KV.kv_read (ReadRequest.mk ns key) m = (m, Ok (ReadResponse.mk (Some (Change.mk ns key (Some cs))))).
Proof.
  intros Hk Hn Hm. unfold KV.kv_read. cbn [ReadRequest.Namespace ReadRequest.Path].
  by rewrite Core.valid_key_of, Hm, Hn.
Qed.

Lemma spec_get_value (g : Cli.Globals) (key : string) (cs : ChangeSet.t) (m : KV.Map) :
  key <> "" -> ChangeSet.Data cs <> "" -> ChangeSet.Data cs <> "null" ->
  m !! Core.key_of (Cli.Namespace g) key = Some cs ->
  snd (step_spec g (CGet [key]) m) = ([Stdout (ChangeSet.Data cs)], Cont tt).
Proof.
  intros Hk Hv Hn Hm. pose proof (System.is_null_payload_false cs Hv Hn) as Hnull.
  unfold step_spec, report. rewrite Cli.getConfig_report by done.
  change (Read ?req m) with (KV.kv_read req m). rewrite (kv_read_value _ key cs m) by done.
  cbn [snd fst]. rewrite view_changeset, Hnull. done.
Qed.

(** C28. On a lone instance whose store is reachable, after [micro config
    set key val] succeeds, [micro config get key] prints [val] however
    much time passes and however often the janitor sweeps in between,
    though the cached entry expires: an expired entry sends the read to
    the store, which holds the value. *)
Theorem set_then_get_any_delay (g : Cli.Globals) (w : System.World) (m : KV.Map) (now : Z)
    (key val : string) (mid : list Cmd) :
  refines w m -> key <> "" -> val <> "" -> val <> "null" -> Forall idle mid ->
  last (run_impl g (CSet now [key; val] :: mid ++ [CGet [key]])%list w) = Some ([Stdout val], Cont tt).
Proof.
  intros Hr Hk Hv Hn Hidle.
  destruct (step_refines g (CSet now [key; val]) w m Hr) as [Hr1 _].
  rewrite spec_set in Hr1 by done. cbn [run_impl].
  destruct (step_impl g (CSet now [key; val]) w) as [w1 o1]. cbn [fst] in Hr1.
  destruct (idle_run g mid [CGet [key]] w1 _ Hidle Hr1) as (w2 & Hr2 & ->).
  destruct (step_refines g (CGet [key]) w2 _ Hr2) as [_ Ho].
  cbn [run_impl]. destruct (step_impl g (CGet [key]) w2) as [w3 o3]. cbn [snd] in Ho. subst o3.
  rewrite app_comm_cons, last_snoc. f_equal.
  apply (spec_get_value g key (Cli.set_changeset val now)); [done..|].
  apply lookup_insert_eq.
Qed.

(** C29. The [Read] of the Config Core does not refine the map's: after a
    successful [Update] of a key with an empty or [null] payload, the
    instance that wrote it answers the payload itself on its next [Read]
    (a cache hit, spec 4.1 step 1), while an instance with a cold cache
    over the same store answers "not found" (step 3).  Only the CLI's own
    test of the payload ([print_change]) hides the difference. *)
Theorem read_null_depends_on_cache (now : Z) (k : Core.Key) (cs : ChangeSet.t)
    (st st' : System.Store) (c c' : Core.Cache) (evs : list Core.Event) (d ci : Z) :
  Core.is_null_payload cs = true -> Core.update now k cs st c = (st', c', evs, inl tt) ->
  Core.read now k st' c' = (c', inl cs) /\
  Core.read now k st' (GoCache.New d ci) = (GoCache.New d ci, inr Core.ErrNotFound).
Proof.
  intros Hnull HU. destruct (Core.update_success _ _ _ _ _ _ _ _ HU) as (Hk & Hst & Hg & _).
  unfold Core.read. rewrite (proj2 (Core.valid_key_true k) Hk), Hg, GoCache.Get_New, Hst, Hnull.
  done.
Qed.

Lemma session_refines_witness :
  run_impl System.g_run demo_session (System.boot System.now0) =
    [([], Cont tt); ([Stdout "10"], Cont tt); ([], Cont tt); ([], Cont tt);
     ([Stdout "10"], Cont tt); ([], Cont tt); ([Stdout "not found"], Exit 1)] /\
  run_impl System.g_run demo_session (System.boot System.now0) =
    run_spec System.g_run demo_session ∅.
Proof.
  split; [vm_compute; reflexivity|].
  exact (session_refines System.g_run demo_session (System.boot System.now0) ∅
           (refines_boot System.now0)).
Defined.

Lemma set_then_get_any_delay_witness :
  last (run_impl System.g_run
          (CSet System.now0 ["max_conn"; "10"] :: [CTick (Cli.Minute * 10); CSweep] ++ [CGet ["max_conn"]])%list
          (System.boot System.now0)) = Some ([Stdout "10"], Cont tt).
Proof.
  exact (set_then_get_any_delay System.g_run (System.boot System.now0) ∅ System.now0
           "max_conn" "10" [CTick (Cli.Minute * 10); CSweep] (refines_boot System.now0)
           ltac:(discriminate) ltac:(discriminate) ltac:(discriminate)
           ltac:(repeat constructor)).
Defined.

Lemma read_null_depends_on_cache_witness :
  let k := Core.key_of "global" "feature.x" in
  let cs := Cli.set_changeset "null" System.now0 in
  let w := System.boot System.now0 in
  Core.read System.now0 k (MemStore.mk (<[k := cs]> ∅) true)
    (GoCache.Set_ System.now0 k cs GoCache.DefaultExpiration (System.w_cache w)) =
    (GoCache.Set_ System.now0 k cs GoCache.DefaultExpiration (System.w_cache w), inl cs) /\
  Core.read System.now0 k (MemStore.mk (<[k := cs]> ∅) true) (GoCache.New (Cli.Minute * 5) (Cli.Minute * 2)) =
    (GoCache.New (Cli.Minute * 5) (Cli.Minute * 2), inr Core.ErrNotFound).
Proof.
  exact (read_null_depends_on_cache System.now0 (Core.key_of "global" "feature.x")
           (Cli.set_changeset "null" System.now0) (System.w_store (System.boot System.now0))
           (MemStore.mk (<[Core.key_of "global" "feature.x" := Cli.set_changeset "null" System.now0]> ∅) true)
           (System.w_cache (System.boot System.now0))
           (GoCache.Set_ System.now0 (Core.key_of "global" "feature.x") (Cli.set_changeset "null" System.now0)
              GoCache.DefaultExpiration (System.w_cache (System.boot System.now0)))
           [Core.mkEvent (Core.key_of "global" "feature.x") (Some (Cli.set_changeset "null" System.now0))
              (ChangeSet.Timestamp (Cli.set_changeset "null" System.now0))]
           (Cli.Minute * 5) (Cli.Minute * 2) ltac:(reflexivity) ltac:(reflexivity)).
Defined.

End Refinement.
