(* ===== verification/Delivery.v ===== *)
(** * Termination of change-event delivery

    Spec 4.4: events arrive at least once, possibly duplicated and out of
    order, and the last-writer-wins rule makes their application converge.
    [delivers bus now c c'] is one delivery, at the instant [now], of an
    event of [bus] that changes the cache [c] (a delivery that changes
    nothing is a duplicate and is not counted).

    Without tombstones the rule does make delivery terminate: each
    delivery that changes the cache applies an event that was still
    winning ([applicable]) and no event that was losing starts to win, so
    the number of winning events of the bus ([pending]) decreases; hence
    [delivers] is well founded and a cache changes at most [length bus]
    times ([deliveries_bounded]).  With tombstones it does not: a value
    and the tombstone that deleted it can be delivered alternately for
    ever, each delivery changing the cache ([tombstone_delivery_cycles]). *)

From S2P Require Import Prelude Proto Cache Core Cli.
From Stdlib Require Import Wf_nat.

Local Open Scope string_scope.

Module Delivery.

Definition delivers (bus : list Core.Event) (now : Z) (c c' : Core.Cache) : Prop :=
  exists ev, ev ∈ bus /\ c' = Core.apply_event now ev c /\ c' <> c.

(** An event as [setConfig]'s [Update] publishes it: the change set of
    [set_changeset v t], stamped with its second [t]. *)
Definition set_event (ev : Core.Event) : Prop :=
  exists v t, ev = Core.mkEvent (Core.ev_key ev) (Some (Cli.set_changeset v t)) (Core.unix_seconds t).

(** A value event that would still win over the cache. *)
Definition applicable (now : Z) (c : Core.Cache) (ev : Core.Event) : bool :=
  match Core.ev_value ev with
  | Some _ => Core.newer now (Core.ev_key ev) (Core.ev_ts ev) c
  | None => false
  end.

Definition pending (bus : list Core.Event) (now : Z) (c : Core.Cache) : nat :=
  List.length (List.filter (applicable now c) bus).

(** [n] deliveries in a row. *)
Inductive deliveries (bus : list Core.Event) (now : Z) : nat -> Core.Cache -> Core.Cache -> Prop :=
| deliveries_0 c : deliveries bus now 0 c c
| deliveries_S n c c' c'' :
    delivers bus now c c' -> deliveries bus now n c' c'' -> deliveries bus now (S n) c c''.

(** The events of [set feature.x true] at second 100 and of a later
    [del feature.x], and a fresh five-minute cache. *)
Definition demo_key : Core.Key := Core.key_of "global" "feature.x".

Definition demo_value : Core.Event :=
  Core.mkEvent demo_key (Some (Cli.set_changeset "true" 100000000000)) (Core.unix_seconds 100000000000).

Definition demo_tombstone : Core.Event := Core.mkEvent demo_key None (Core.unix_seconds 101000000000).

Definition fresh : Core.Cache := GoCache.New 300000000000 120000000000.

(** ** A delivery that changes the cache consumes a winning event *)

Lemma delivery_applies (now : Z) (ev : Core.Event) (c : Core.Cache) :
  Core.ev_value ev <> None -> Core.apply_event now ev c <> c -> applicable now c ev = true.
Proof.
  destruct ev as [k [cs|] ts]; [|done]. intros _. unfold applicable. simpl.
  rewrite Core.apply_value. by destruct (Core.newer now k ts c).
Qed.

Lemma applicable_consumed (now : Z) (ev : Core.Event) (c : Core.Cache) :
  Core.wf_event ev -> applicable now c ev = true -> applicable now (Core.apply_event now ev c) ev = false.
Proof.
  destruct ev as [k [cs|] ts]; [|done]. unfold Core.wf_event, applicable. simpl. intros -> Hn.
  rewrite Core.apply_value, Hn, Core.newer_Set_eq. apply Z.ltb_irrefl.
Qed.

(** No event starts to win because another one was applied. *)
Lemma applicable_mono (now : Z) (ev e : Core.Event) (c : Core.Cache) :
  Core.wf_event ev -> applicable now c ev = true ->
  applicable now (Core.apply_event now ev c) e = true -> applicable now c e = true.
Proof.
  destruct ev as [k [cs|] ts]; [|done]. unfold Core.wf_event, applicable. simpl. intros Hts Hn.
  rewrite Core.apply_value, Hn. destruct (Core.ev_value e); [|done].
  destruct (decide (k = Core.ev_key e)) as [<-|Hne].
  - rewrite Core.newer_Set_eq, <- Hts. intros ?%Z.ltb_lt. eapply Core.newer_mono; [|done]. lia.
  - by rewrite Core.newer_Set_ne.
Qed.

Lemma pending_decreases (bus : list Core.Event) (now : Z) (c c' : Core.Cache) :
  Forall (fun ev => Core.ev_value ev <> None /\ Core.wf_event ev) bus ->
  delivers bus now c c' -> pending bus now c' < pending bus now c.
Proof.
  intros Hbus (ev & Hin & -> & Hne).
  destruct (proj1 (Forall_forall _ _) Hbus ev Hin) as [Hval Hwf].
  pose proof (delivery_applies now ev c Hval Hne) as Happ.
  apply length_filter_lt.
  - apply Forall_forall. intros e _. by apply applicable_mono.
  - apply Exists_exists. exists ev. split; [done|]. split; [done|]. by apply applicable_consumed.
Qed.

Lemma pending_le_length (bus : list Core.Event) (now : Z) (c : Core.Cache) :
  pending bus now c <= List.length bus.
Proof.
  unfold pending. induction bus as [|e bus IH]; [done|]. simpl.
  destruct (applicable now c e); simpl; lia.
Qed.

Lemma set_event_value (ev : Core.Event) :
  set_event ev -> Core.ev_value ev <> None /\ Core.wf_event ev.
Proof. intros (v & t & ->). split; [done|]. done. Qed.

(** A relation with a cycle is not well founded. *)
Lemma cycle_not_wf {A} (R : A -> A -> Prop) (a b : A) : R a b -> R b a -> ~ well_founded R.
Proof.
  intros Hab Hba Hwf.
  assert (forall x, Acc R x -> x <> a /\ x <> b) as Hacc.
  { intros x Hx. induction Hx as [x _ IH]. split; intros ->.
    - by destruct (IH b Hba) as [_ ?].
    - by destruct (IH a Hab) as [? _]. }
  by destruct (Hacc a (Hwf a)) as [? _].
Qed.

(** ** Delivery terminates without tombstones, not with them *)

(** C30. Termination: at a given instant, if every event on the bus was
    published by a [set] (no [del] has run), there is no infinite
    sequence of deliveries that each change an instance's cache, whatever
    the duplicates and the order. *)
Theorem delivery_terminates (bus : list Core.Event) (now : Z) :
  Forall set_event bus -> well_founded (fun c' c => delivers bus now c c').
Proof.
  intros Hbus. apply (well_founded_lt_compat _ (pending bus now)).
  intros c' c Hd. apply (pending_decreases bus now c c'); [|done].
  eapply Forall_impl; [exact Hbus|]. apply set_event_value.
Qed.

(** C31. Bound: when only [set]s have published, a cache changes at most
    [length bus] times by deliveries, duplicates included. *)
Theorem deliveries_bounded (bus : list Core.Event) (now : Z) (n : nat) (c c' : Core.Cache) :
  Forall set_event bus -> deliveries bus now n c c' -> n <= List.length bus.
Proof.
  intros Hbus Hn. pose proof (Forall_impl _ _ _ Hbus set_event_value) as Hval.
  transitivity (pending bus now c); [|apply pending_le_length].
  induction Hn as [c|n c c1 c2 Hd _ IH]; [lia|].
  pose proof (pending_decreases bus now c c1 Hval Hd). lia.
Qed.

(** C32. With tombstones delivery need not terminate: the value of a
    [set] and the tombstone of the [del] that followed it, both on the
    bus, can be delivered alternately for ever to a fresh cache, each
    delivery changing it (the value is resurrected each time; spec 4.4
    claims convergence under any order and duplication). *)
Theorem tombstone_delivery_cycles (now : Z) :
  ~ well_founded (fun c' c => delivers [demo_value; demo_tombstone] now c c').
Proof.
  set (c1 := Core.apply_event now demo_value fresh).
  assert (c1 <> fresh) as Hne.
  { intros Heq. apply (f_equal (fun c => GoCache.items c !! demo_key)) in Heq.
    unfold c1 in Heq. vm_compute in Heq. discriminate. }
  apply (cycle_not_wf _ fresh c1).
  - exists demo_tombstone. split; [by right; left|]. split; [|done].
    unfold c1, demo_value. rewrite Core.apply_value_fresh by apply GoCache.Get_New.
    unfold Core.apply_event, GoCache.Delete, GoCache.Set_. simpl.
    by rewrite delete_insert_eq, delete_empty.
  - exists demo_value. split; [by left|]. split; [done|]. by intros ->.
Qed.

Lemma delivery_terminates_witness :
  well_founded (fun c' c => delivers [demo_value] 0 c c').
Proof.
  apply delivery_terminates. repeat constructor. by exists "true", 100000000000%Z.
Defined.

Lemma deliveries_bounded_witness :
  deliveries [demo_value] 0 1 fresh (Core.apply_event 0 demo_value fresh) /\ 1 <= List.length [demo_value].
Proof.
  assert (deliveries [demo_value] 0 1 fresh (Core.apply_event 0 demo_value fresh)) as H.
  { eapply deliveries_S; [|apply deliveries_0]. exists demo_value. split; [by left|].
    split; [done|]. intros Heq. apply (f_equal (fun c => GoCache.items c !! demo_key)) in Heq.
    vm_compute in Heq. discriminate. }
  split; [exact H|].
  refine (deliveries_bounded [demo_value] 0 1 fresh _ _ H).
  repeat constructor. by exists "true", 100000000000%Z.
Defined.

End Delivery.
