(* ===== verification/Concurrency.v ===== *)
(** * Requests, events and the janitor interleaved on one instance (spec 5)

    Spec 5: the Config Core serves concurrent [Read], [Write] and
    [Delete] requests with no ordering between them, applies change
    events from the notification channel interleaved with them, and a
    read may block on the store between its cache miss (4.1 step 2) and
    the filling of the cache (step 4); go-cache's janitor, started by
    [Run] with [CacheCleanupInterval], sweeps the same cache meanwhile.
    [Inst] is one instance with its in-flight reads: a read thread is
    [PStart k] before it looks at the cache and [PFetched k r] once it
    has the store's answer [r].  [exec] performs one labelled step: a
    new read, a read's lookup-and-fetch, a read's fill-and-answer, an
    atomic write or delete of the Core, time passing, a sweep, or the
    application of a change event.  [run] performs a schedule and
    records every answer with the value the store held at that moment.

    - [read_split_equiv]: a read whose steps run back to back is
      [Core.read].
    - [read_fill_race]: the fill does not look at what happened since the
      fetch.  On any instance, a read that fetched the old value before a
      write fills the cache with it after the write, and a read that
      starts after the write has completed, up to [CacheDuration] later,
      answers the old value (spec 8, read-after-write, and spec 5, "never
      older than either input").
    - [local_write_undoes_event]: a local write sets the cache without
      the timestamp comparison, so on any instance the order in which it
      and a newer remote event reach the cache decides what the cache
      keeps.
    - [race_free_linearizable]: without such a write (no write or delete
      of a key while a read of it holds a fetched answer) and with every
      change event carrying the value the store then holds for its key,
      every answer is the store's value at the moment it is given, and
      [getConfig] prints for it what it would print for that value
      ([Cli.get_view]).
    - [stale_reads_expire]: under every schedule, races included, the
      cache keeps the expiry invariant of [Cluster], so once no read is in
      flight and more than [CacheDuration] has passed a read answers the
      store's value: the race's damage lasts at most [CacheDuration].
    - [sweep_invisible]: a sweep inserted anywhere into a schedule changes
      no answer; the proof relates instances whose caches agree on every
      [Get] from now on ([GoCache.live_eq], rewritten with its [Proper]
      instances). *)

From S2P Require Import Prelude Proto Cache Store Core Cli System Cluster Refinement.

Local Open Scope string_scope.

Module Concurrency.

#[local] Existing Instance MemStore.mem_backing_store.
#[local] Existing Instance MemStore.mem_backing_store_laws.
#[local] Existing Instances GoCache.live_eq_equiv GoCache.Get_live_eq GoCache.Set_live_eq
  GoCache.Delete_live_eq.

Import Refinement.

(** A read thread: before its cache lookup, or holding the store's answer. *)
Inductive Pending :=
| PStart (k : Core.Key)
| PFetched (k : Core.Key) (r : result (option ChangeSet.t)).

Record Inst := mkInst {
  i_store : System.Store;
  i_cache : Core.Cache;
  i_now : Z;
  i_reads : list Pending
}.

Inductive Label :=
| LRead (k : Core.Key)
| LFetch (i : nat)
| LFill (i : nat)
| LUpdate (k : Core.Key) (cs : ChangeSet.t)
| LDelete (k : Core.Key)
| LTick (dt : Z)
| LSweep
| LEvent (ev : Core.Event).

Abbreviation Answer := (ChangeSet.t + Core.core_error)%type.

(** The answer a read gives with the store's answer [r] (4.1 step 3). *)
Definition fill_answer (r : result (option ChangeSet.t)) : Answer :=
  match r with
  | Err e => inr (Core.ErrTransient e)
  | Ok None => inr Core.ErrNotFound
  | Ok (Some cs) => if Core.is_null_payload cs then inr Core.ErrNotFound else inl cs
  end.

(** One step; [None] when the label is not enabled.  A step that answers
    a read returns the key and the answer. *)
Definition exec (s : Inst) (l : Label) : option (Inst * option (Core.Key * Answer)) :=
  match l with
  | LRead k =>
      if Core.valid_key k
      then Some (mkInst (i_store s) (i_cache s) (i_now s) (i_reads s ++ [PStart k]), None)
      else Some (s, Some (k, inr Core.ErrValidation))
  | LFetch i =>
      match i_reads s !! i with
      | Some (PStart k) =>
          match GoCache.Get (i_now s) k (i_cache s) with
          | Some cs =>
              Some (mkInst (i_store s) (i_cache s) (i_now s) (delete i (i_reads s)), Some (k, inl cs))
          | None =>
              Some (mkInst (i_store s) (i_cache s) (i_now s)
                      (<[i := PFetched k (store_get k (i_store s))]> (i_reads s)), None)
          end
      | _ => None
      end
  | LFill i =>
      match i_reads s !! i with
      | Some (PFetched k r) =>
          let c' := match r with
                    | Ok (Some cs) =>
                        if Core.is_null_payload cs then i_cache s
                        else GoCache.Set_ (i_now s) k cs GoCache.DefaultExpiration (i_cache s)
                    | _ => i_cache s
                    end in
          Some (mkInst (i_store s) c' (i_now s) (delete i (i_reads s)), Some (k, fill_answer r))
      | _ => None
      end
  | LUpdate k cs =>
      let '(st', c', _, _) := Core.update (i_now s) k cs (i_store s) (i_cache s) in
      Some (mkInst st' c' (i_now s) (i_reads s), None)
  | LDelete k =>
      let '(st', c', _, _) := Core.delete (i_now s) k (i_store s) (i_cache s) in
      Some (mkInst st' c' (i_now s) (i_reads s), None)
  | LTick dt =>
      if (0 <=? dt)%Z then Some (mkInst (i_store s) (i_cache s) (i_now s + dt) (i_reads s), None)
      else None
  | LSweep =>
      Some (mkInst (i_store s) (GoCache.DeleteExpired (i_now s) (i_cache s)) (i_now s) (i_reads s), None)
  | LEvent ev =>
      Some (mkInst (i_store s) (Core.apply_event (i_now s) ev (i_cache s)) (i_now s) (i_reads s), None)
  end.

(** A schedule: every answer with the store's value at that moment. *)
Fixpoint run (s : Inst) (ls : list Label)
    : option (Inst * list (Core.Key * Answer * option ChangeSet.t)) :=
  match ls with
  | [] => Some (s, [])
  | l :: ls' =>
      match exec s l with
      | None => None
      | Some (s', o) =>
          match run s' ls' with
          | None => None
          | Some (s'', out) =>
              Some (s'', match o with
                         | Some (k, a) => (k, a, MemStore.records (i_store s') !! k) :: out
                         | None => out
                         end)
          end
      end
  end.

(** A write or delete of [k] races with a read of [k] that holds a
    fetched answer.  A change event is race-free when it carries what the
    store holds for its key, as the event of the last write of that key
    does (a tombstone when the key is absent); an event whose value the
    store no longer holds (an older write, or one overwritten since) is
    not. *)
Definition race_free (s : Inst) (l : Label) : Prop :=
  match l with
  | LUpdate k _ | LDelete k => forall i r, i_reads s !! i <> Some (PFetched k r)
  | LEvent ev => MemStore.records (i_store s) !! Core.ev_key ev = Core.ev_value ev
  | _ => True
  end.

Fixpoint race_free_run (s : Inst) (ls : list Label) : Prop :=
  match ls with
  | [] => True
  | l :: ls' =>
      race_free s l /\
      match exec s l with Some (s', _) => race_free_run s' ls' | None => True end
  end.

(** A fetched answer is still the store's answer. *)
Definition current (st : System.Store) (p : Pending) : Prop :=
  match p with
  | PStart _ => True
  | PFetched k r => r = MemStore.get k st
  end.

Definition inst_ok (s : Inst) : Prop :=
  coherent (MemStore.records (i_store s)) (i_cache s) /\ Forall (current (i_store s)) (i_reads s).

(** An answer that agrees with the store's value [v] at that moment. *)
Definition answer_ok (a : Answer) (v : option ChangeSet.t) : Prop :=
  (forall cs, a = inl cs -> v = Some cs) /\
  (a = inr Core.ErrNotFound -> v = None \/ exists cs, v = Some cs /\ Core.is_null_payload cs = true).

(** The [Read] response an answer is sent as, as [System.handle_read]
    builds it, and what [getConfig] would make of the store's value [v]
    itself. *)
Definition read_response (k : Core.Key) (a : Answer) : result ReadResponse.t :=
  System.to_result (match a with
                    | inl cs => inl (ReadResponse.mk (Some (Change.mk k.1 k.2 (Some cs))))
                    | inr e => inr e
                    end).

Definition store_view (v : option ChangeSet.t) : Cli.get_answer :=
  match v with
  | Some cs => if Core.is_null_payload cs then Cli.NotFound else Cli.Printed (ChangeSet.Data cs)
  | None => Cli.NotFound
  end.

(** A value or "not found", as opposed to a validation or store error. *)
Definition decided (a : Answer) : bool :=
  match a with
  | inl _ | inr Core.ErrNotFound => true
  | _ => false
  end.

(** The expiry invariant of [Cluster] for one instance: a clock that
    never went back, no blank path in the store, and every cached entry
    expiring no later than [d] after the instant. *)
Definition fresh_ok (d : Z) (s : Inst) : Prop :=
  (0 <= i_now s)%Z /\ Cluster.store_ok (i_store s) /\ Cluster.cache_ok (i_now s) d (i_cache s).

(** Two instances that no step can tell apart: same store, clock and
    reads in flight, and caches equal up to what [Get] sees from now on. *)
Definition inst_eq (s1 s2 : Inst) : Prop :=
  i_store s1 = i_store s2 /\ i_now s1 = i_now s2 /\ i_reads s1 = i_reads s2 /\
  GoCache.live_eq (i_now s1) (i_cache s1) (i_cache s2).

(** The store holds [feature.x = false]; the instance's cache is fresh. *)
Definition race_key : Core.Key := Core.key_of "global" "feature.x".

Definition cs_old : ChangeSet.t := Cli.set_changeset "false" System.now0.

Definition cs_new : ChangeSet.t := Cli.set_changeset "true" (System.now0 + 1000000000).

Definition race_start : Inst :=
  mkInst (MemStore.mk {[race_key := cs_old]} true)
    (GoCache.New (Cli.Minute * 5) (Cli.Minute * 2)) System.now0 [].

(** A read fetches the old value; a write completes; the read fills the
    cache; almost five minutes later a new read starts and answers. *)
Definition race_schedule : list Label :=
  [LRead race_key; LFetch 0; LUpdate race_key cs_new; LFill 0;
   LTick (Cli.Minute * 5 - 1); LRead race_key; LFetch 0].

(** The same operations without the race: the read completes before
    the write, the event of the write (as another instance would receive
    it) arrives, and a read after the write answers the new value. *)
Definition rf_schedule : list Label :=
  [LRead race_key; LFetch 0; LFill 0; LUpdate race_key cs_new;
   LEvent (Core.mkEvent race_key (Some cs_new) (ChangeSet.Timestamp cs_new));
   LRead race_key; LFetch 0].

(** Another instance has written [feature.x = true] a second after this
    instance's [set feature.x false] was issued; the store holds the
    newer value and its event is on the way. *)
Definition remote_event : Core.Event :=
  Core.mkEvent race_key (Some cs_new) (ChangeSet.Timestamp cs_new).

Definition remote_start : Inst :=
  mkInst (MemStore.mk {[race_key := cs_new]} true)
    (GoCache.New (Cli.Minute * 5) (Cli.Minute * 2)) (System.now0 + 1000000000) [].

(** ** The split read is the Core's read *)

(** Equivalence: on an instance with no read in flight, a read whose
    steps (start, cache lookup and fetch, fill) run back to back answers
    what [Core.read] answers, leaves the cache [Core.read] leaves and
    never touches the store. *)
Theorem read_split_equiv (s : Inst) (k : Core.Key) :
  i_reads s = [] ->
  exists n s', n <= 3 /\
    run s (take n [LRead k; LFetch 0; LFill 0]) =
      Some (s', [(k, snd (Core.read (i_now s) k (i_store s) (i_cache s)),
                  MemStore.records (i_store s) !! k)]) /\
    i_reads s' = [] /\ i_store s' = i_store s /\
    i_cache s' = fst (Core.read (i_now s) k (i_store s) (i_cache s)).
Proof.
  destruct s as [st c now reads]. simpl. intros ->. unfold Core.read.
  destruct (Core.valid_key k) eqn:Hk; simpl; [destruct (GoCache.Get now k c) as [cs|] eqn:Hg|].
  - exists 2. simpl. rewrite Hk. simpl. rewrite Hg.
    eexists _; split_and!; [lia|reflexivity|done..].
  - exists 3. simpl. rewrite Hk. simpl. rewrite Hg. simpl.
    destruct (MemStore.get k st) as [[cs|]|e]; simpl; [destruct (Core.is_null_payload cs) eqn:Hn|..];
      simpl; rewrite ?Hn; eexists _; split_and!; [lia|reflexivity|done..].
  - exists 1. simpl. rewrite Hk. eexists _; split_and!; [lia|reflexivity|done..].
Qed.

(** ** The race *)

(** C33. The read-through race (spec 5 and 8): on an instance with no
    read in flight whose cache misses [k] while the store holds a
    non-null [cs_old], a read fetches [cs_old], a write of any [cs_new]
    completes (store and cache), the read then fills the cache with
    [cs_old] and answers it; a read that starts after the write has
    completed, up to [CacheDuration] later, answers [cs_old] too, while
    the store holds [cs_new] at both answers. *)
Theorem read_fill_race (s : Inst) (k : Core.Key) (cs_old cs_new : ChangeSet.t) (dt : Z) :
  i_reads s = [] -> Core.valid_key k = true -> MemStore.available (i_store s) = true ->
  GoCache.Get (i_now s) k (i_cache s) = None ->
  MemStore.records (i_store s) !! k = Some cs_old -> Core.is_null_payload cs_old = false ->
  (0 < GoCache.defaultExpiration (i_cache s))%Z ->
  (0 <= dt <= GoCache.defaultExpiration (i_cache s))%Z ->
  exists s', run s [LRead k; LFetch 0; LUpdate k cs_new; LFill 0; LTick dt; LRead k; LFetch 0] =
    Some (s', [(k, inl cs_old, Some cs_new); (k, inl cs_old, Some cs_new)]).
Proof.
  destruct s as [st c now reads]; simpl. intros -> Hk Ha Hg Hr Hn Hde Hdt.
  simpl. rewrite Hk. simpl. rewrite Hg. simpl.
  change (store_get k st) with (MemStore.get k st). unfold MemStore.get. rewrite Ha, Hr. simpl.
  unfold Core.update. rewrite Hk. simpl.
  change (store_put k cs_new st) with (MemStore.put k cs_new st). unfold MemStore.put. rewrite Ha.
  simpl. rewrite Hn. replace (0 <=? dt)%Z with true by (symmetry; apply Z.leb_le; lia). simpl.
  rewrite ?Hk. simpl. rewrite GoCache.Get_Set_live by (simpl; lia). simpl.
  rewrite lookup_insert_eq. by eexists.
Qed.

(** C37. Local writes bypass the timestamp rule (spec 4.2 against
    spec 5): on any instance with the store up, the event of a remote
    [set] of [v2] and the completion of a local [set] of [v1] issued in
    an earlier second interleave in either order.  Both orders leave the
    same store, but when the event comes first the local write replaces
    the newer value in the cache with the older one, while the other
    order keeps the newer one: the cache ends older than one of its
    inputs, which spec 5 forbids. *)
Theorem local_write_undoes_event (s : Inst) (k : Core.Key) (v1 v2 : string) (t1 t2 : Z) :
  Core.valid_key k = true -> MemStore.available (i_store s) = true ->
  (Core.unix_seconds t1 < Core.unix_seconds t2)%Z ->
  let cs_old := Cli.set_changeset v1 t1 in
  let cs_new := Cli.set_changeset v2 t2 in
  exists s1 s2,
    run s [LEvent (Core.mkEvent k (Some cs_new) (ChangeSet.Timestamp cs_new)); LUpdate k cs_old] =
      Some (s1, []) /\
    run s [LUpdate k cs_old; LEvent (Core.mkEvent k (Some cs_new) (ChangeSet.Timestamp cs_new))] =
      Some (s2, []) /\
    i_store s1 = i_store s2 /\
    GoCache.Get (i_now s1) k (i_cache s1) = Some cs_old /\
    GoCache.Get (i_now s2) k (i_cache s2) = Some cs_new.
Proof.
  intros Hk Ha Hts cs_old cs_new. destruct s as [st c now reads]; simpl in *.
  unfold Core.update. rewrite Hk. simpl.
  change (store_put k cs_old st) with (MemStore.put k cs_old st). unfold MemStore.put. rewrite Ha.
  simpl. eexists _, _. split_and!; [reflexivity..| |]; simpl.
  - apply GoCache.Get_Set_now.
  - rewrite Core.apply_value. unfold Core.newer. rewrite GoCache.Get_Set_now.
    replace (_ <? _)%Z with true by (symmetry; apply Z.ltb_lt; exact Hts).
    apply GoCache.Get_Set_now.
Qed.

(** ** Without the race every answer is the store's value *)

Lemma fill_answer_ok (k : Core.Key) (st : System.Store) :
  answer_ok (fill_answer (MemStore.get k st)) (MemStore.records st !! k).
Proof.
  unfold MemStore.get. destruct (MemStore.available st); [|done].
  destruct (MemStore.records st !! k) as [cs|]; simpl; [|split; [done|by left]].
  destruct (Core.is_null_payload cs) eqn:Hn; split; try done.
  - intros _. right. by exists cs.
  - by intros ? [= ->].
Qed.

(** The fill keeps the cache coherent when the fetched answer is current. *)
Lemma fill_coherent (k : Core.Key) (st : System.Store) (c : Core.Cache) (now : Z) :
  coherent (MemStore.records st) c ->
  coherent (MemStore.records st)
    (match MemStore.get k st with
     | Ok (Some cs) => if Core.is_null_payload cs then c
                       else GoCache.Set_ now k cs GoCache.DefaultExpiration c
     | _ => c
     end).
Proof.
  intros Hc. destruct (MemStore.get k st) as [[cs|]|e] eqn:Hg; try done.
  destruct (Core.is_null_payload cs); [done|].
  apply coherent_Set; [|done]. exact (MemStore.get_records _ _ _ Hg).
Qed.

(** A write that leaves the answers for the other keys alone keeps every
    read that has not fetched [k] current. *)
Lemma current_keep (k : Core.Key) (st st' : System.Store) (reads : list Pending) :
  (forall k', k <> k' -> MemStore.get k' st' = MemStore.get k' st) ->
  (forall i r, reads !! i <> Some (PFetched k r)) ->
  Forall (current st) reads -> Forall (current st') reads.
Proof.
  intros Hget Hrf Hall. apply Forall_lookup. intros i p Hp.
  pose proof (Forall_lookup_1 _ _ _ _ Hall Hp) as Hcur.
  destruct p as [k'|k' r]; [done|]. simpl in *. rewrite Hcur.
  destruct (decide (k = k')) as [<-|Hne]; [by destruct (Hrf i r)|]. by rewrite Hget.
Qed.

(** An event that carries the stored value keeps the cache coherent. *)
Lemma coherent_apply_event (r : KV.Map) (c : Core.Cache) (now : Z) (ev : Core.Event) :
  r !! Core.ev_key ev = Core.ev_value ev -> coherent r c -> coherent r (Core.apply_event now ev c).
Proof.
  destruct ev as [k [cs|] ts]; simpl; intros Hk Hc; unfold Core.apply_event; simpl.
  - destruct (GoCache.Get now k c); [destruct (_ <? _)%Z|]; try done; by apply coherent_Set.
  - rewrite <- (delete_id r k Hk). by apply coherent_delete.
Qed.

Lemma exec_ok (s s' : Inst) (l : Label) (o : option (Core.Key * Answer)) :
  inst_ok s -> race_free s l -> exec s l = Some (s', o) ->
  inst_ok s' /\ (forall k a, o = Some (k, a) -> answer_ok a (MemStore.records (i_store s') !! k)).
Proof.
  destruct s as [st c now reads]. intros [Hc Hcur] Hrf.
  destruct l as [k|i|i|k cs|k|dt| |ev]; simpl in *.
  - destruct (Core.valid_key k); intros [= <- <-]; split; try done.
    + split; [done|]. apply Forall_app. by split; [|constructor].
    + by intros ? ? [= <- <-].
  - destruct (reads !! i) as [[k|k r]|] eqn:Hi; try done.
    destruct (GoCache.Get now k c) as [cs|] eqn:Hg; intros [= <- <-].
    + split; [split; [done|by apply Forall_delete]|]. intros ? ? [= <- <-].
      split; [|done]. intros ? [= <-]. by eapply coherent_hit.
    + split; [split; [done|by apply Forall_insert]|done].
  - destruct (reads !! i) as [[k|k r]|] eqn:Hi; try done. intros [= <- <-].
    pose proof (Forall_lookup_1 _ _ _ _ Hcur Hi) as Hr. simpl in Hr. subst r.
    split; [split; [by apply fill_coherent|by apply Forall_delete]|].
    intros ? ? [= <- <-]. apply fill_answer_ok.
  - destruct (Core.update now k cs st c) as [[[st1 c1] evs] r] eqn:Hu. intros [= <- <-].
    split; [|done]. apply Core.update_cases in Hu as [(-> & -> & _)|(Hp & -> & _)]; [done|].
    split; simpl.
    + rewrite (MemStore.put_records _ _ _ _ Hp). by apply coherent_insert.
    + apply (current_keep k st); [|done..]. intros k' Hne.
      exact (get_put_ne k k' cs st st1 Hne Hp).
  - destruct (Core.delete now k st c) as [[[st1 c1] evs] r] eqn:Hu. intros [= <- <-].
    split; [|done]. apply Core.delete_cases in Hu as [(-> & -> & _)|(Hp & -> & _)]; [done|].
    split; simpl.
    + rewrite (MemStore.del_records _ _ _ Hp). by apply coherent_delete.
    + apply (current_keep k st); [|done..]. intros k' Hne.
      exact (get_delete_ne k k' st st1 Hne Hp).
  - destruct (0 <=? dt)%Z; [|done]. intros [= <- <-]. done.
  - intros [= <- <-]. split; [|done]. split; [by apply coherent_DeleteExpired|done].
  - intros [= <- <-]. split; [|done]. split; [by apply coherent_apply_event|done].
Qed.

Lemma race_free_answers (s s' : Inst) (ls : list Label)
    (out : list (Core.Key * Answer * option ChangeSet.t)) :
  inst_ok s -> race_free_run s ls -> run s ls = Some (s', out) ->
  Forall (fun '(k, a, v) => answer_ok a v) out.
Proof.
  revert s s' out. induction ls as [|l ls IH]; intros s s' out Hok Hrf; simpl; [by intros [= _ <-]|].
  destruct Hrf as [Hl Hrest].
  destruct (exec s l) as [[s1 o]|] eqn:He; [|done].
  destruct (exec_ok s s1 l o Hok Hl He) as [Hok1 Ho].
  destruct (run s1 ls) as [[s2 out']|] eqn:Hr; [|done]. intros [= _ <-].
  pose proof (IH s1 s2 out' Hok1 Hrest Hr) as Hout.
  destruct o as [[k a]|]; [|done]. constructor; [|done]. by apply Ho.
Qed.

Lemma answer_ok_view (k : Core.Key) (a : Answer) (v : option ChangeSet.t) :
  answer_ok a v -> decided a = true -> Cli.get_view (read_response k a) = store_view v.
Proof.
  intros [Hval Hnf]. destruct a as [cs|[| |e]]; intros Hd; try done.
  - rewrite (Hval cs eq_refl). apply view_changeset.
  - destruct (Hnf eq_refl) as [->|(cs & -> & Hn)]; simpl; [|rewrite Hn]; apply view_not_found.
Qed.

(** C34. Linearizability without the race: from a coherent instance, in
    every schedule in which no write or delete of a key happens while a
    read of that key holds a fetched answer, and every change event
    applied carries what the store then holds for its key (events of
    older or overwritten writes are excluded: [local_write_undoes_event]
    and spec 4.4 show what they do), every value a read answers
    is the value the store holds at that moment, every "not found" is an
    absent or null entry, and so every value or "not found" that
    [getConfig] would print for an answer is what it prints for the
    store's value. *)
Theorem race_free_linearizable (s s' : Inst) (ls : list Label)
    (out : list (Core.Key * Answer * option ChangeSet.t)) :
  inst_ok s -> race_free_run s ls -> run s ls = Some (s', out) ->
  Forall (fun '(k, a, v) =>
            answer_ok a v /\ (decided a = true -> Cli.get_view (read_response k a) = store_view v)) out.
Proof.
  intros Hok Hrf Hr. eapply Forall_impl; [exact (race_free_answers s s' ls out Hok Hrf Hr)|].
  intros [[k a] v] Ha. split; [done|]. by apply answer_ok_view.
Qed.

(** ** Whatever the races, a stale entry lives at most [CacheDuration] *)

Lemma exec_fresh (d : Z) (s s' : Inst) (l : Label) (o : option (Core.Key * Answer)) :
  (0 < d)%Z -> fresh_ok d s -> exec s l = Some (s', o) -> fresh_ok d s'.
Proof.
  destruct s as [st c now reads]. unfold fresh_ok. simpl. intros Hd (Hnow & Hst & Hc).
  destruct l as [k|i|i|k cs|k|dt| |ev]; simpl.
  - destruct (Core.valid_key k); by intros [= <- _].
  - destruct (reads !! i) as [[k|k r]|]; [|done..].
    destruct (GoCache.Get now k c); by intros [= <- _].
  - destruct (reads !! i) as [[k|k r]|]; [done| |done]. intros [= <- _]. simpl.
    split_and!; [done..|]. destruct r as [[cs|]|]; [|done..].
    destruct (Core.is_null_payload cs); [done|]. by apply Cluster.cache_ok_Set.
  - destruct (Core.update now k cs st c) as [[[st1 c1] evs] r] eqn:Hu. intros [= <- _].
    by destruct (Cluster.core_update_ok now d k cs st st1 c c1 evs r Hnow Hd Hst Hc Hu) as (? & ? & _).
  - destruct (Core.delete now k st c) as [[[st1 c1] evs] r] eqn:Hu. intros [= <- _].
    by destruct (Cluster.core_delete_ok now d k st st1 c c1 evs r Hst Hc Hu) as (? & ? & _).
  - destruct (0 <=? dt)%Z eqn:E; [|done]. apply Z.leb_le in E. intros [= <- _]. simpl.
    split_and!; [lia|done|]. eapply Cluster.cache_ok_later; [|exact Hc]. lia.
  - intros [= <- _]. split_and!; [done..|]. by apply Cluster.cache_ok_DeleteExpired.
  - intros [= <- _]. split_and!; [done..|]. by apply Cluster.cache_ok_apply.
Qed.

Lemma run_fresh (d : Z) (s s' : Inst) (ls : list Label) out :
  (0 < d)%Z -> fresh_ok d s -> run s ls = Some (s', out) -> fresh_ok d s'.
Proof.
  revert s out. induction ls as [|l ls IH]; intros s out Hd Hs; simpl; [by intros [= <- _]|].
  destruct (exec s l) as [[s1 o]|] eqn:He; [|done].
  destruct (run s1 ls) as [[s2 out']|] eqn:Hr; [|done]. intros [= <- _].
  exact (IH s1 out' Hd (exec_fresh d s s1 l o Hd Hs He) Hr).
Qed.

(** A step that answers nothing is invisible in the answers of a schedule. *)
Lemma run_silent (s s1 : Inst) (l : Label) (ls : list Label) :
  exec s l = Some (s1, None) -> run s (l :: ls) = run s1 ls.
Proof. intros He. simpl. rewrite He. by destruct (run s1 ls) as [[? ?]|]. Qed.

(** On a cache miss the Core's read answers what the store holds. *)
Lemma read_cold_ok (now : Z) (k : Core.Key) (st : System.Store) (c : Core.Cache) :
  GoCache.Get now k c = None -> answer_ok (snd (Core.read now k st c)) (MemStore.records st !! k).
Proof.
  intros Hg. pose proof (fill_answer_ok k st) as Hf. unfold Core.read.
  destruct (Core.valid_key k); simpl; [|done]. rewrite Hg. unfold fill_answer in Hf.
  change (store_get k st) with (MemStore.get k st).
  destruct (MemStore.get k st) as [[cs|]|e]; simpl; [|done..].
  by destruct (Core.is_null_payload cs).
Qed.

(** C35. Bounded staleness under any interleaving: from an instance
    whose cached entries expire within the [CacheDuration] of the
    globals [g], after any schedule, races such as [read_fill_race]
    included, once no read is in flight and more than [CacheDuration] has
    passed, a new read answers the value the store holds. *)
Theorem stale_reads_expire (g : Cli.Globals) (dt : Z) (s s1 : Inst) (ls : list Label) out
    (k : Core.Key) :
  (0 < Cli.CacheDuration g)%Z -> (Cli.CacheDuration g < dt)%Z -> fresh_ok (Cli.CacheDuration g) s ->
  run s ls = Some (s1, out) -> i_reads s1 = [] ->
  exists n s2 a, n <= 3 /\
    run s1 (LTick dt :: take n [LRead k; LFetch 0; LFill 0]) =
      Some (s2, [(k, a, MemStore.records (i_store s1) !! k)]) /\
    answer_ok a (MemStore.records (i_store s1) !! k).
Proof.
  set (d := Cli.CacheDuration g). intros Hd Hdt Hs Hr Hreads.
  destruct (run_fresh d s s1 ls out Hd Hs Hr) as (Hnow & _ & Hc).
  set (s1' := mkInst (i_store s1) (i_cache s1) (i_now s1 + dt) (i_reads s1)).
  destruct (read_split_equiv s1' k Hreads) as (n & s2 & Hn & Hrun & _).
  exists n, s2, (snd (Core.read (i_now s1') k (i_store s1') (i_cache s1'))). split_and!; [done| |].
  - rewrite run_silent with (s1 := s1'); [exact Hrun|]. simpl.
    by replace (0 <=? dt)%Z with true by (symmetry; apply Z.leb_le; lia).
  - apply read_cold_ok. eapply Cluster.cache_ok_cold; [|exact Hc]. simpl. lia.
Qed.

(** ** The janitor is invisible to every schedule *)

Lemma update_live_eq (now : Z) (k : Core.Key) (cs : ChangeSet.t) (st : System.Store)
    (c1 c2 : Core.Cache) :
  GoCache.live_eq now c1 c2 ->
  match Core.update now k cs st c1, Core.update now k cs st c2 with
  | (st1, c1', _, _), (st2, c2', _, _) => st1 = st2 /\ GoCache.live_eq now c1' c2'
  end.
Proof.
  intros Hc. unfold Core.update. destruct (negb _); [done|].
  destruct (store_put k cs st); [|done]. split; [done|]. by rewrite Hc.
Qed.

Lemma delete_live_eq (now : Z) (k : Core.Key) (st : System.Store) (c1 c2 : Core.Cache) :
  GoCache.live_eq now c1 c2 ->
  match Core.delete now k st c1, Core.delete now k st c2 with
  | (st1, c1', _, _), (st2, c2', _, _) => st1 = st2 /\ GoCache.live_eq now c1' c2'
  end.
Proof.
  intros Hc. unfold Core.delete. destruct (negb _); [done|].
  destruct (store_delete k st); [|done]. split; [done|]. by rewrite Hc.
Qed.

Lemma apply_event_live_eq (now : Z) (ev : Core.Event) (c1 c2 : Core.Cache) :
  GoCache.live_eq now c1 c2 ->
  GoCache.live_eq now (Core.apply_event now ev c1) (Core.apply_event now ev c2).
Proof.
  intros Hc. unfold Core.apply_event. destruct (Core.ev_value ev); [|by rewrite Hc].
  rewrite (GoCache.Get_live_eq now _ c1 c2 Hc).
  destruct (GoCache.Get now (Core.ev_key ev) c2); [destruct (_ <? _)%Z|]; by rewrite Hc.
Qed.

(** Related instances take the same steps with the same answers. *)
Lemma exec_inst_eq (s1 s2 : Inst) (l : Label) :
  inst_eq s1 s2 ->
  match exec s1 l, exec s2 l with
  | Some (s1', o1), Some (s2', o2) => o1 = o2 /\ inst_eq s1' s2'
  | None, None => True
  | _, _ => False
  end.
Proof.
  destruct s1 as [st c1 now reads], s2 as [st' c2 now' reads']. unfold inst_eq. simpl.
  intros (<- & <- & <- & Hc). destruct l as [k|i|i|k cs|k|dt| |ev]; simpl.
  - by destruct (Core.valid_key k); split_and!.
  - destruct (reads !! i) as [[k|k r]|]; [|done..]. rewrite (GoCache.Get_live_eq now k c1 c2 Hc).
    by destruct (GoCache.Get now k c2); split_and!.
  - destruct (reads !! i) as [[k|k r]|]; [done| |done].
    destruct r as [[cs|]|]; [destruct (Core.is_null_payload cs)|..]; split_and!; try done.
    simpl. by rewrite Hc.
  - pose proof (update_live_eq now k cs st c1 c2 Hc) as Hu.
    destruct (Core.update now k cs st c1) as [[[? ?] ?] ?], (Core.update now k cs st c2) as [[[? ?] ?] ?].
    destruct Hu as [<- ?]. by split_and!.
  - pose proof (delete_live_eq now k st c1 c2 Hc) as Hu.
    destruct (Core.delete now k st c1) as [[[? ?] ?] ?], (Core.delete now k st c2) as [[[? ?] ?] ?].
    destruct Hu as [<- ?]. by split_and!.
  - destruct (0 <=? dt)%Z eqn:E; [|done]. apply Z.leb_le in E. split_and!; try done.
    eapply GoCache.live_eq_later; [|exact Hc]. simpl. lia.
  - split_and!; try done. simpl. by rewrite !GoCache.DeleteExpired_live_eq.
  - split_and!; try done. simpl. by apply apply_event_live_eq.
Qed.

Lemma run_snd_cons (s : Inst) (l : Label) (ls : list Label) :
  option_map snd (run s (l :: ls)) =
  match exec s l with
  | None => None
  | Some (s', o) =>
      option_map (fun out => match o with
                             | Some (k, a) => (k, a, MemStore.records (i_store s') !! k) :: out
                             | None => out
                             end) (option_map snd (run s' ls))
  end.
Proof. simpl. destruct (exec s l) as [[s' o]|]; [|done]. by destruct (run s' ls) as [[? ?]|]. Qed.

Lemma run_inst_eq (s1 s2 : Inst) (ls : list Label) :
  inst_eq s1 s2 -> option_map snd (run s1 ls) = option_map snd (run s2 ls).
Proof.
  revert s1 s2. induction ls as [|l ls IH]; intros s1 s2 Heq; [done|]. rewrite !run_snd_cons.
  pose proof (exec_inst_eq s1 s2 l Heq) as He.
  destruct (exec s1 l) as [[s1' o1]|], (exec s2 l) as [[s2' o2]|]; try done.
  destruct He as [<- Heq']. rewrite (IH s1' s2' Heq'). by destruct Heq' as [-> _].
Qed.

(** C36. The janitor goroutine of go-cache runs concurrently with the
    handlers: a sweep of expired entries inserted anywhere into any
    schedule of reads, writes, deletes and ticks changes neither whether
    the schedule runs nor any answer it gives. *)
Theorem sweep_invisible (s : Inst) (l1 l2 : list Label) :
  option_map snd (run s (l1 ++ LSweep :: l2)) = option_map snd (run s (l1 ++ l2)).
Proof.
  revert s. induction l1 as [|l l1 IH]; intros s; simpl app.
  - rewrite run_snd_cons. simpl. rewrite (run_inst_eq _ s l2).
    + by destruct (option_map snd (run s l2)).
    + split_and!; [done..|]. apply GoCache.DeleteExpired_live_eq.
  - rewrite !run_snd_cons. destruct (exec s l) as [[s' o]|]; [|done]. by rewrite IH.
Qed.

Lemma read_split_equiv_witness :
  exists n s', n <= 3 /\
    run race_start (take n [LRead race_key; LFetch 0; LFill 0]) =
      Some (s', [(race_key, snd (Core.read (i_now race_start) race_key (i_store race_start)
                                    (i_cache race_start)),
                  MemStore.records (i_store race_start) !! race_key)]) /\
    i_reads s' = [] /\ i_store s' = i_store race_start /\
    i_cache s' = fst (Core.read (i_now race_start) race_key (i_store race_start) (i_cache race_start)).
Proof. exact (read_split_equiv race_start race_key eq_refl). Defined.

Lemma race_free_linearizable_witness :
  option_map snd (run race_start rf_schedule) =
    Some [(race_key, inl cs_old, Some cs_old); (race_key, inl cs_new, Some cs_new)] /\
  Forall (fun '(k, a, v) =>
            answer_ok a v /\ (decided a = true -> Cli.get_view (read_response k a) = store_view v))
    [(race_key, inl cs_old, Some cs_old); (race_key, inl cs_new, Some cs_new)].
Proof.
  split; [vm_compute; reflexivity|].
  destruct (run race_start rf_schedule) as [[s' out]|] eqn:E; [|vm_compute in E; discriminate].
  assert (out = [(race_key, inl cs_old, Some cs_old); (race_key, inl cs_new, Some cs_new)]) as ->.
  { apply (f_equal (option_map snd)) in E. vm_compute in E. injection E as <-. vm_compute. reflexivity. }
  apply (race_free_linearizable race_start s' rf_schedule); [|vm_compute|exact E].
  - split; [apply map_Forall_empty|constructor].
  - repeat split; intros [|[|]] ?; discriminate.
Defined.

Lemma stale_reads_expire_witness :
  exists n s2 a, n <= 3 /\
    run (fst (default (race_start, []) (run race_start race_schedule)))
      (LTick (Cli.Minute * 5 + 1) :: take n [LRead race_key; LFetch 0; LFill 0]) =
      Some (s2, [(race_key, a, Some cs_new)]) /\
    answer_ok a (Some cs_new).
Proof.
  set (r := default (race_start, []) (run race_start race_schedule)).
  assert (MemStore.records (i_store r.1) !! race_key = Some cs_new) as <-.
  { vm_compute. reflexivity. }
  refine (stale_reads_expire System.g_run (Cli.Minute * 5 + 1) race_start r.1 race_schedule r.2
            race_key _ _ _ _ _).
  - vm_compute. reflexivity.
  - vm_compute. reflexivity.
  - split_and!; [vm_compute; discriminate| |split; [reflexivity|apply map_Forall_empty]].
    apply map_Forall_singleton. vm_compute. discriminate.
  - vm_compute. reflexivity.
  - vm_compute. reflexivity.
Defined.

Lemma read_fill_race_witness :
  exists s', run race_start race_schedule =
    Some (s', [(race_key, inl cs_old, Some cs_new); (race_key, inl cs_old, Some cs_new)]).
Proof.
  apply (read_fill_race race_start race_key cs_old cs_new (Cli.Minute * 5 - 1));
    try reflexivity; vm_compute; try reflexivity; split; discriminate.
Defined.

Lemma local_write_undoes_event_witness :
  exists s1 s2,
    run remote_start [LEvent remote_event; LUpdate race_key cs_old] = Some (s1, []) /\
    run remote_start [LUpdate race_key cs_old; LEvent remote_event] = Some (s2, []) /\
    i_store s1 = i_store s2 /\
    GoCache.Get (i_now s1) race_key (i_cache s1) = Some cs_old /\
    GoCache.Get (i_now s2) race_key (i_cache s2) = Some cs_new.
Proof.
  apply (local_write_undoes_event remote_start race_key "false" "true" System.now0
           (System.now0 + 1000000000));
    [reflexivity|reflexivity|vm_compute; reflexivity].
Defined.

End Concurrency.
